(** * Provider fallback extraction and conflict-aware persistence

    A shallow embedding of [data_extractor.py] (class [StockDataExtractor]),
    [populatepostgres.py] (class [StockDataInserter]) and the table
    declarations of [create_sql_tables.py], with a model of the fragment of
    PostgreSQL the statements of the program exercise.

    Python values are modelled as follows: a scalar is a [value], a [dict]
    with string keys is a [gmap string value], a pandas [DataFrame] is a
    [frame], [None] in an [Optional] position is [None].  Effects (provider
    calls, log records, the database, connections) are threaded through the
    state-and-exception monad [Py].  Identifiers (table names, column
    labels) are taken to be plain words, which SQL reads as one name. *)

From Stdlib Require Import ZArith Ascii String.
From stdpp Require Import base option list gmap strings pretty.

Local Open Scope string_scope.
Local Open Scope list_scope.
Local Open Scope Z_scope.

(** ** Scalars, dictionaries and data frames *)

(** A scalar: [VNone] is Python's [None] and SQL's [NULL]; [VInt] is a
    Python number, an [int] or a [float], a [numpy.float64] included, which
    is a [float]; [VText] is a [str] (dates and timestamps are carried as
    text or as ticks); [VInt64] is a [numpy.int64], the scalar pandas hands
    out for a cell of a column of dtype [int64]: it is no Python number,
    and psycopg2 has no adapter for it. *)
Inductive value :=
  | VNone
  | VInt (n : Z)
  | VText (s : string)
  | VInt64 (n : Z).

#[global] Instance value_eq_dec : EqDecision value.
Proof. solve_decision. Defined.

#[global] Instance value_inhabited : Inhabited value := populate VNone.

(** [d.get(k)]: the value under [k], [None] when the key is absent. *)
Definition get (d : gmap string value) (k : string) : value :=
  default VNone (d !! k).

(** A [DataFrame]: column labels and, per row, its index label and cells.
    A cell is the scalar pandas hands out for it ([.iloc], [to_records]):
    a column of dtype [int64] holds [VInt64] cells and nothing else, a
    column of dtype [float64] or [object] holds Python objects.  Neither
    axis has a name. *)
Record frame := mkFrame {
  columns : list string;
  records : list (string * list value)
}.

Definition is_int64 (v : value) : bool :=
  match v with VInt64 _ => true | _ => false end.

Definition is_text (v : value) : bool :=
  match v with VText _ => true | _ => false end.

(** The Python number a [numpy.int64] becomes where pandas or numpy
    converts it: to [float] in a column of dtype [float64], to [int] in
    an array of objects and in [to_dict]. *)
Definition unbox (v : value) : value :=
  match v with VInt64 n => VInt n | _ => v end.

(** The cells of column [j], and whether its dtype is [int64]. *)
Definition column_cells (df : frame) (j : nat) : list value :=
  (λ r, default VNone (r.2 !! j)) <$> records df.

Definition int64_column (df : frame) (j : nat) : bool :=
  forallb is_int64 (column_cells df j).

(** Every column is of dtype [int64]. *)
Definition all_int64 (df : frame) : bool :=
  forallb (λ r, forallb is_int64 r.2) (records df).

(** [df.empty]: an axis of length zero. *)
Definition empty (df : frame) : bool :=
  bool_decide (columns df = []) || bool_decide (records df = []).

(** [df[names]]: for every requested label, every column carrying it. *)
Fixpoint occurrences (from : nat) (name : string) (cols : list string) : list nat :=
  match cols with
  | [] => []
  | c :: rest =>
      (if bool_decide (c = name) then [from] else []) ++ occurrences (S from) name rest
  end.

Definition positions (names : list string) (cols : list string) : list nat :=
  names ≫= (λ n, occurrences 0 n cols).

Definition select (names : list string) (df : frame) : frame :=
  let ps := positions names (columns df) in
  {| columns := (λ i, default "" (columns df !! i)) <$> ps;
     records := (λ r, (r.1, (λ i, default VNone (r.2 !! i)) <$> ps)) <$> records df |}.

(** [[tuple(row) for row in df.to_records(index=False)]]: every cell as
    the scalar of its column's dtype, a [numpy.int64] for a column of
    dtype [int64]. *)
Definition to_records (df : frame) : list (list value) := snd <$> records df.

(** [pd.DataFrame(rows)] for a list of dicts with the same keys: pandas
    settles the dtype of each column.  A column of [numpy.int64] alone is
    of dtype [int64]; a column that holds a [str] is of dtype [object] and
    keeps its cells; any other column is of dtype [float64], where a
    [numpy.int64] has become a [float]. *)
Definition settle (rows : list (list value)) (j : nat) (v : value) : value :=
  let cells := (λ r, default VNone (r !! j)) <$> rows in
  if forallb is_int64 cells || existsb is_text cells then v else unbox v.

Definition DataFrame (labels : list string) (rows : list (list value)) : frame :=
  {| columns := labels;
     records := imap (λ i r, (pretty i, imap (settle rows) r)) rows |}.

(** [df.T]: a frame of one dtype keeps it; otherwise the cells go through
    an array of [float] or of objects, where those of the [int64] columns
    become Python numbers. *)
Definition transposed (df : frame) (j : nat) (v : value) : value :=
  if all_int64 df || negb (int64_column df j) then v else unbox v.

(** The label [reset_index] gives the column it makes of an index
    without a name: [index], or [level_0] when a column is labelled
    [index]. *)
Definition index_label (labels : list string) : string :=
  if bool_decide ("index" ∈ labels) then "level_0" else "index".

(** [df.T.reset_index()]: the former index labels become the columns, the
    former column labels the cells of a new first column.  [None] stands
    for the [ValueError] that [reset_index] raises when the label of the
    new column is taken. *)
Definition T_reset_index (df : frame) : option frame :=
  let labels := fst <$> records df in
  if bool_decide (index_label labels ∈ labels) then None
  else Some
    {| columns := index_label labels :: labels;
       records := imap (λ j c, (pretty j,
                    VText c :: ((λ r, transposed df j (default VNone (r.2 !! j)))
                                <$> records df)))
                    (columns df) |}.

(** [df[name] = v]: overwrite the column when present, append it otherwise. *)
Definition set_column (name : string) (v : value) (df : frame) : frame :=
  if bool_decide (name ∈ columns df)
  then {| columns := columns df;
          records := (λ r, (r.1, imap (λ i x,
                       if bool_decide (columns df !! i = Some name) then v else x) r.2))
                     <$> records df |}
  else {| columns := columns df ++ [name];
          records := (λ r, (r.1, r.2 ++ [v])) <$> records df |}.

(** [df.rename(columns=mapping)] *)
Definition rename (mapping : list (string * string)) (df : frame) : frame :=
  {| columns := (λ c, from_option (λ im, im.2.2) c
                        (list_find (λ m, m.1 = c) mapping)) <$> columns df;
     records := records df |}.

(** PostgreSQL folds an unquoted identifier to lower case. *)
Definition lower_ascii (a : ascii) : ascii :=
  let n := nat_of_ascii a in
  if ((65 <=? n) && (n <=? 90))%nat then ascii_of_nat (n + 32) else a.

Fixpoint fold_ident (s : string) : string :=
  match s with
  | EmptyString => EmptyString
  | String a s' => String (lower_ascii a) (fold_ident s')
  end.

(** ** The database

    The fragment of PostgreSQL the program talks to, as it reaches it
    through psycopg2: tables with column defaults and unique indexes, the
    catalog query of [_get_table_columns], [INSERT ... ON CONFLICT] with
    its two actions and [DELETE ... WHERE]; the driver adapts the values of
    a statement before the server sees it.  Column types, [NOT NULL] and
    sequence gaps are not modelled. *)
Module Sql.

Inductive default_expr :=
  | NoDefault
  | Serial
  | CurrentTimestamp
  | Literal (v : value).

#[global] Instance default_expr_eq_dec : EqDecision default_expr.
Proof. solve_decision. Defined.

Record column := mkColumn {
  col_name : string;
  col_default : default_expr
}.

Abbreviation row := (gmap string value).

Record table := mkTable {
  t_columns : list column;
  t_unique : list (list string);
  t_serial : Z;
  t_rows : list row
}.

Abbreviation database := (gmap string table).

Inductive error :=
  | CannotAdapt
  | SyntaxError
  | UndefinedTable
  | UndefinedColumn
  | DuplicateColumn
  | WrongArity
  | NoMatchingConstraint
  | MultipleAssignment
  | UniqueViolation
  | CardinalityViolation.

#[global] Instance error_eq_dec : EqDecision error.
Proof. solve_decision. Defined.

Definition message (e : error) : string :=
  match e with
  | CannotAdapt => "can't adapt type 'numpy.int64'"
  | SyntaxError => "syntax error"
  | UndefinedTable => "relation does not exist"
  | UndefinedColumn => "column does not exist"
  | DuplicateColumn => "column specified more than once"
  | WrongArity => "INSERT has more expressions than target columns"
  | NoMatchingConstraint =>
      "there is no unique or exclusion constraint matching the ON CONFLICT specification"
  | MultipleAssignment => "multiple assignments to same column"
  | UniqueViolation => "duplicate key value violates unique constraint"
  | CardinalityViolation =>
      "ON CONFLICT DO UPDATE command cannot affect row a second time"
  end.

(** The conflict action.  [DoUpdateSet u] stands for the clause
    [DO UPDATE SET c = EXCLUDED.c, ... (c in u), created_at = CURRENT_TIMESTAMP],
    the only shape of update the program writes. *)
Inductive action :=
  | DoNothing
  | DoUpdateSet (updated : list string).

(** The columns a conflict action assigns. *)
Definition assigned (act : action) : list string :=
  match act with
  | DoNothing => []
  | DoUpdateSet u => u ++ ["created_at"]
  end.

Record insert := mkInsert {
  into : string;
  ins_columns : list string;
  on_conflict : list string;
  do : action
}.


Definition column_names (t : table) : list string := col_name <$> t_columns t.

(** [SELECT column_name FROM information_schema.columns WHERE table_name = name]:
    the name is a string literal, compared as it is. *)
Definition columns_of (db : database) (name : string) : list string :=
  from_option column_names [] (db !! name).

Definition cell (r : row) (c : string) : value := default VNone (r !! c).

Definition eval_default (now serial : Z) (d : default_expr) : value :=
  match d with
  | NoDefault => VNone
  | Serial => VInt serial
  | CurrentTimestamp => VInt now
  | Literal v => v
  end.

(** The row proposed for insertion: the supplied cells under the listed
    columns, the default of every other column. *)
Definition proposed (t : table) (cols : list string) (vs : list value)
    (now serial : Z) : row :=
  list_to_map ((λ c, (col_name c,
     match list_find (λ x, x = col_name c) cols with
     | Some (i, _) => default VNone (vs !! i)
     | None => eval_default now serial (col_default c)
     end)) <$> t_columns t).

(** Two rows collide on an index when they agree on each of its columns;
    a NULL never equals anything. *)
Definition conflicts (key : list string) (p s : row) : bool :=
  forallb (λ k, match cell p k, cell s k with
                | VNone, _ | _, VNone => false
                | a, b => bool_decide (a = b)
                end) key.

Definition subset (l k : list string) : bool :=
  forallb (λ x, bool_decide (x ∈ k)) l.

Definition same_columns (u key : list string) : bool :=
  subset u key && subset key u.

(** Does [r], stored at position [self] (if any), collide with another
    row on one of the unique indexes? *)
Definition violates (uniques : list (list string)) (self : option nat)
    (r : row) (rows : list row) : bool :=
  existsb (λ u, existsb (λ js, negb (bool_decide (Some js.1 = self))
                               && conflicts u r js.2)
                        (imap pair rows)) uniques.

Definition apply_update (updated : list string) (now : Z) (p old : row) : row :=
  <["created_at" := VInt now]> (foldr (λ c r, <[c := cell p c]> r) old updated).

(** Progress of one statement: the rows so far, the positions this
    statement has inserted or updated, the sequence. *)
Record progress := mkProgress {
  p_rows : list row;
  p_touched : list nat;
  p_serial : Z
}.

Definition draws_serial (t : table) (cols : list string) : bool :=
  existsb (λ c, bool_decide (col_default c = Serial)
                && negb (bool_decide (col_name c ∈ cols))) (t_columns t).

Definition step (t : table) (cols key : list string) (act : action) (now : Z)
    (st : progress) (vs : list value) : error + progress :=
  let p := proposed t cols vs now (p_serial st) in
  let serial := if draws_serial t cols then p_serial st + 1 else p_serial st in
  match list_find (λ s, Is_true (conflicts key p s)) (p_rows st) with
  | None =>
      if violates (t_unique t) None p (p_rows st) then inl UniqueViolation
      else inr {| p_rows := p_rows st ++ [p];
                  p_touched := length (p_rows st) :: p_touched st;
                  p_serial := serial |}
  | Some (i, old) =>
      match act with
      | DoNothing =>
          inr {| p_rows := p_rows st; p_touched := p_touched st; p_serial := serial |}
      | DoUpdateSet u =>
          if bool_decide (i ∈ p_touched st) then inl CardinalityViolation
          else
            let new := apply_update u now p old in
            if violates (t_unique t) (Some i) new (p_rows st) then inl UniqueViolation
            else inr {| p_rows := <[i := new]> (p_rows st);
                        p_touched := i :: p_touched st;
                        p_serial := serial |}
      end
  end.

Fixpoint steps (t : table) (cols key : list string) (act : action) (now : Z)
    (st : progress) (vals : list (list value)) : error + progress :=
  match vals with
  | [] => inr st
  | vs :: rest =>
      match step t cols key act now st vs with
      | inl e => inl e
      | inr st' => steps t cols key act now st' rest
      end
  end.

(** Static checks of an [INSERT ... ON CONFLICT] statement against the
    table: [None] when the statement is acceptable. *)
Definition check (t : table) (cols key : list string) (act : action)
    (vals : list (list value)) : option error :=
  if bool_decide (cols = []) || bool_decide (key = []) then Some SyntaxError
  else if match act with DoUpdateSet [] => true | _ => false end then Some SyntaxError
  else if negb (bool_decide (NoDup cols)) then Some DuplicateColumn
  else if negb (subset cols (column_names t)) then Some UndefinedColumn
  else if negb (forallb (λ vs, bool_decide (length vs = length cols)) vals)
    then Some WrongArity
  else if negb (subset key (column_names t)) then Some UndefinedColumn
  else if negb (existsb (λ u, same_columns u key) (t_unique t))
    then Some NoMatchingConstraint
  else match act with
       | DoNothing => None
       | DoUpdateSet _ =>
           if negb (subset (assigned act) (column_names t))
           then Some UndefinedColumn
           else if negb (bool_decide (NoDup (assigned act)))
           then Some MultipleAssignment
           else None
       end.

Definition fold_action (act : action) : action :=
  match act with
  | DoNothing => DoNothing
  | DoUpdateSet u => DoUpdateSet (fold_ident <$> u)
  end.

(** psycopg2 adapts [None], numbers and strings; it has no adapter for
    a [numpy.int64]. *)
Definition adaptable (v : value) : bool := negb (is_int64 v).

(** One [INSERT ... VALUES rows ON CONFLICT ...] statement: the driver
    adapts the values, then the server checks and runs the statement. *)
Definition exec_insert (now : Z) (q : insert) (vals : list (list value))
    (db : database) : error + database :=
  let name := fold_ident (into q) in
  if negb (forallb (forallb adaptable) vals) then inl CannotAdapt else
  match db !! name with
  | None => inl UndefinedTable
  | Some t =>
      let cols := fold_ident <$> ins_columns q in
      let key := fold_ident <$> on_conflict q in
      let act := fold_action (do q) in
      match check t cols key act vals with
      | Some e => inl e
      | None =>
          match steps t cols key act now
                  {| p_rows := t_rows t; p_touched := []; p_serial := t_serial t |}
                  vals with
          | inl e => inl e
          | inr st =>
              inr (<[name := {| t_columns := t_columns t; t_unique := t_unique t;
                                t_serial := p_serial st; t_rows := p_rows st |}]> db)
          end
      end
  end.

(** The same statement over successive batches of rows, until one fails. *)
Fixpoint exec_inserts (now : Z) (q : insert) (pages : list (list (list value)))
    (db : database) : error + database :=
  match pages with
  | [] => inr db
  | page :: rest =>
      match exec_insert now q page db with
      | inl e => inl e
      | inr db' => exec_inserts now q rest db'
      end
  end.

(** [DELETE FROM name WHERE col = v] *)
Definition exec_delete (name col : string) (v : value) (db : database)
    : error + database :=
  match db !! fold_ident name with
  | None => inl UndefinedTable
  | Some t =>
      if negb (bool_decide (fold_ident col ∈ column_names t))
      then inl UndefinedColumn
      else inr (<[fold_ident name :=
                   {| t_columns := t_columns t; t_unique := t_unique t;
                      t_serial := t_serial t;
                      t_rows := filter (λ r, ¬ (v ≠ VNone ∧ cell r (fold_ident col) = v))
                                       (t_rows t) |}]> db)
  end.

(** [CREATE TABLE IF NOT EXISTS name (id SERIAL PRIMARY KEY, ...)]: the
    identifiers are folded, the primary key is the only unique index. *)
Definition create_table (name : string) (cols : list column)
    (db : database) : database :=
  match db !! fold_ident name with
  | Some _ => db
  | None =>
      <[fold_ident name :=
         {| t_columns := (λ c, mkColumn (fold_ident (col_name c)) (col_default c)) <$> cols;
            t_unique := [["id"]];
            t_serial := 1;
            t_rows := [] |}]> db
  end.

(** [CREATE UNIQUE INDEX ON name (key)] on a table that satisfies it. *)
Definition create_unique_index (name : string) (key : list string)
    (db : database) : database :=
  match db !! fold_ident name with
  | None => db
  | Some t =>
      <[fold_ident name :=
         {| t_columns := t_columns t;
            t_unique := (fold_ident <$> key) :: t_unique t;
            t_serial := t_serial t;
            t_rows := t_rows t |}]> db
  end.

End Sql.

(** ** [create_sql_tables.py]: the declared schema *)

Definition plain (names : list string) : list Sql.column :=
  (λ n, Sql.mkColumn n Sql.NoDefault) <$> names.

Definition id_column : Sql.column := Sql.mkColumn "id" Sql.Serial.
Definition created_at_column : Sql.column :=
  Sql.mkColumn "created_at" Sql.CurrentTimestamp.

Definition declare (name : string) (cols : list Sql.column) :=
  Sql.create_table name (id_column :: cols ++ [created_at_column]).

Definition price_ddl := plain
  ["symbol"; "regularMarketPrice"; "regularMarketChangePercent";
   "regularMarketChange"; "regularMarketTime"; "regularMarketDayHigh";
   "regularMarketDayLow"; "regularMarketVolume"; "regularMarketPreviousClose";
   "regularMarketSource"; "regularMarketOpen"; "exchangeName"; "marketState";
   "quoteType"; "longName"; "currency"; "quoteSourceName"; "currencySymbol";
   "marketCap"].

Definition quarterly_price_ddl := plain
  ["symbol"; "quarter"; "year"; "avg_price"; "high_price"; "low_price";
   "volume_avg"].

Definition announcement_price_ddl :=
  plain ["symbol"; "announcement_date"; "announcement_type"; "price_before";
         "price_after"; "change_percent"]
  ++ [Sql.mkColumn "days_before" (Sql.Literal (VInt 1));
      Sql.mkColumn "days_after" (Sql.Literal (VInt 1))].

Definition balance_sheet_ddl := plain
  ["symbol"; "asOfDate"; "currencyCode"; "AccountsPayable";
   "AccountsReceivable"; "CashAndCashEquivalents"; "CommonStockEquity";
   "CurrentAssets"; "CurrentLiabilities"; "Goodwill"; "GrossPPE"; "Inventory";
   "LongTermDebt"; "NetDebt"; "NetPPE"; "NetTangibleAssets"; "Receivables";
   "RetainedEarnings"; "TotalAssets"; "TotalEquityGrossMinorityInterest"].

Definition income_statement_ddl := plain
  ["symbol"; "asOfDate"; "currencyCode"; "TotalRevenue"; "CostOfRevenue";
   "GrossProfit"; "OperatingExpense"; "OperatingIncome"; "InterestExpense";
   "PretaxIncome"; "TaxProvision"; "NetIncome"; "BasicEPS"; "DilutedEPS";
   "EBIT"; "EBITDA"; "OperatingRevenue"; "SellingGeneralAndAdministration";
   "ResearchAndDevelopment";
   "NetIncomeFromContinuingOperationNetMinorityInterest";
   "NetIncomeCommonStockholders"].

Definition cash_flow_ddl := plain
  ["symbol"; "asOfDate"; "currencyCode"; "OperatingCashFlow";
   "InvestingCashFlow"; "FinancingCashFlow"; "NetIncome";
   "DepreciationAndAmortization"; "ChangeInWorkingCapital";
   "CapitalExpenditure"; "NetBusinessPurchaseAndSale";
   "NetInvestmentPurchaseAndSale"; "NetPPEPurchaseAndSale"; "IssuanceOfDebt";
   "RepaymentOfDebt"; "CommonStockIssuance"; "CommonStockPayments";
   "FreeCashFlow"; "BeginningCashPosition"; "EndCashPosition"].

Definition org_overview_ddl := plain
  ["symbol"; "address1"; "city"; "zip"; "country"; "phone"; "website";
   "industry"; "industryDisp"; "sector"; "longBusinessSummary";
   "fullTimeEmployees"; "priceHint"; "enterpriseValue"; "bookValue";
   "priceToBook"; "enterpriseToRevenue"; "forwardPE"; "enterpriseToEbitda";
   "fiftyTwoWeekChange"; "profitMargins"; "floatShares"; "sharesOutstanding";
   "sharesShort"; "shortRatio"; "sharesShortPriorMonth";
   "heldPercentInstitutions"; "heldPercentInsiders"; "trailingEps";
   "forwardEps"].

Definition calendar_events_ddl := plain
  ["symbol"; "earnings_date"; "earnings_average"; "earnings_low";
   "earnings_high"; "revenue_average"; "revenue_low"; "revenue_high"].

Definition exec_payment_packages_ddl := plain
  ["symbol"; "name"; "title"; "totalPay"; "exercisedValue"; "unexercisedValue"].

Definition institution_ownership_ddl := plain
  ["symbol"; "organization"; "pctHeld"; "position"; "value"].

Definition executive_ownership_ddl := plain
  ["symbol"; "name"; "relation"; "url"; "transactionDescription";
   "latestTransDate"; "positionDirect"; "positionDirectDate"].

Definition valuation_measures_ddl := plain
  ["symbol"; "asOfDate"; "PriceToEarningsRatio"; "PriceToSalesRatio";
   "PriceToBookRatio"; "EnterpiseToRevenue"; "EnterpiseToEbitda"].

(** [StockTableCreator.create_all_tables], on a connection that works. *)
Definition create_all_tables (db : Sql.database) : Sql.database :=
  declare "valuation_measures" valuation_measures_ddl
  (declare "executive_ownership" executive_ownership_ddl
  (declare "institution_ownership" institution_ownership_ddl
  (declare "exec_payment_packages" exec_payment_packages_ddl
  (declare "calendar_events" calendar_events_ddl
  (declare "org_overview" org_overview_ddl
  (declare "cash_flow" cash_flow_ddl
  (declare "income_statement" income_statement_ddl
  (declare "balance_sheet" balance_sheet_ddl
  (declare "announcement_price" announcement_price_ddl
  (declare "quarterly_price" quarterly_price_ddl
  (declare "price" price_ddl db))))))))))).

(** ** The world and the [Py] monad *)

Inductive exn :=
  | ProviderError (why : string)
  | AttributeError (what : string)
  | ValueError (what : string)
  | KeyError (key : string)
  | OperationalError
  | DatabaseError (e : Sql.error).

Inductive result (A : Type) :=
  | Value (a : A)
  | Raise (e : exn).
Arguments Value {A} a.
Arguments Raise {A} e.

Inductive level := INFO | WARNING | ERROR.

Record log_record := mkLog { lvl : level; msg : string }.

(** What the run did, in order: a provider asked, an insert method entered. *)
Inductive event :=
  | Invoked (api what : string)
  | Entered (method : string).

#[global] Instance level_eq_dec : EqDecision level.
Proof. solve_decision. Defined.
#[global] Instance log_record_eq_dec : EqDecision log_record.
Proof. solve_decision. Defined.
#[global] Instance event_eq_dec : EqDecision event.
Proof. solve_decision. Defined.

(** [w_connects] scripts the coming connection attempts ([true]: the
    server answers); once it is used up every attempt succeeds. *)
Record world := mkWorld {
  w_db : Sql.database;
  w_connects : list bool;
  w_clock : Z;
  w_log : list log_record;
  w_events : list event
}.

Definition Py (A : Type) : Type := world → result A * world.

Definition ret {A} (a : A) : Py A := λ w, (Value a, w).

Definition bind {A B} (m : Py A) (k : A → Py B) : Py B :=
  λ w, match m w with
       | (Value a, w') => k a w'
       | (Raise e, w') => (Raise e, w')
       end.

Definition raise {A} (e : exn) : Py A := λ w, (Raise e, w).

(** [try: m  except Exception as e: handler e] *)
Definition try_except {A} (m : Py A) (handler : exn → Py A) : Py A :=
  λ w, match m w with
       | (Value a, w') => (Value a, w')
       | (Raise e, w') => handler e w'
       end.

(** [try: m  finally: cleanup] where the clean-up cannot fail. *)
Definition finally {A} (m : Py A) (cleanup : world → world) : Py A :=
  λ w, let '(r, w') := m w in (r, cleanup w').

Notation "'let*' x := m 'in' k" := (bind m (λ x, k))
  (at level 10, x name, m at level 100, k at level 200).
Notation "m ;;; k" := (bind m (λ _, k))
  (at level 100, k at level 200, right associativity).

(** World updates: a log record written, an event recorded, a database
    state installed, a connection attempt used up. *)
Definition logged (l : level) (text : string) (w : world) : world :=
  mkWorld (w_db w) (w_connects w) (w_clock w) (w_log w ++ [mkLog l text]) (w_events w).

Definition noted (e : event) (w : world) : world :=
  mkWorld (w_db w) (w_connects w) (w_clock w) (w_log w) (w_events w ++ [e]).

Definition with_db (db : Sql.database) (w : world) : world :=
  mkWorld db (w_connects w) (w_clock w) (w_log w) (w_events w).

Definition attempted (w : world) : world :=
  mkWorld (w_db w) (tail (w_connects w)) (w_clock w) (w_log w) (w_events w).

Definition logger (l : level) (text : string) : Py unit :=
  λ w, (Value tt, logged l text w).

Definition note (e : event) : Py unit :=
  λ w, (Value tt, noted e w).

(** [str(e)], the text [f"{e}"] puts in a log record: the message of the
    exception, which for a [KeyError] is the key in quotes.  The message
    of a refused connection and those of the server are abridged. *)
Definition str (e : exn) : string :=
  match e with
  | ProviderError why => why
  | AttributeError what => what
  | ValueError what => what
  | KeyError key => "'" ++ key ++ "'"
  | OperationalError => "could not connect to server"
  | DatabaseError e => Sql.message e
  end.

(** ** Providers *)

(** The outcome of asking a provider: it raises, or it returns. *)
Inductive fetched (A : Type) :=
  | Raises (why : string)
  | Returns (a : A).
Arguments Raises {A} why.
Arguments Returns {A} a.

(** What a method of this program hands back where Python has
    [Optional[Dict]] or [Optional[pd.DataFrame]]. *)
Inductive payload :=
  | PNone
  | PDict (d : gmap string value)
  | PFrame (f : frame).

(** A configured API client: method name and ticker to outcome. *)
Definition client := string → string → fetched payload.

(** Everything outside the repository that extraction depends on: the
    [yfinance] module, date arithmetic, the floating-point percentage, the
    quarterly resampling, and the two formatting helpers the extractor
    calls without defining them. *)
Record environment := mkEnvironment {
  yf_info : string → fetched (gmap string value);
  yf_table : string → string → fetched (option frame);
  yf_download : string → string → fetched frame;
  yf_history : string → fetched frame;
  add_business_days : string → Z → string;
  change_percent : value → value → value;
  quarterly_records : string → frame → fetched (list (gmap string value));
  _format_alpha_vantage_calendar : payload → string → fetched payload;
  _format_finnhub_insider : payload → string → fetched payload
}.

Record StockDataExtractor := mkExtractor {
  fmp_client : option client;
  finnhub_client : option client;
  alpha_vantage_client : option client
}.

(** [self.api_priority] *)
Definition api_priority : gmap string (list string) :=
  list_to_map
    [("price", ["yfinance"; "alpha_vantage"]);
     ("org_overview", ["yfinance"; "fmp"; "finnhub"]);
     ("calendar_events", ["yfinance"; "fmp"; "alpha_vantage"]);
     ("balance_sheet", ["yfinance"; "fmp"; "alpha_vantage"]);
     ("cash_flow", ["yfinance"; "fmp"; "alpha_vantage"]);
     ("income_statement", ["yfinance"; "fmp"; "alpha_vantage"]);
     ("valuation_measures", ["yfinance"; "fmp"]);
     ("institution_ownership", ["yfinance"; "fmp"]);
     ("executive_ownership", ["finnhub"; "yfinance"]);
     ("announcement_price", ["yfinance"]);
     ("exec_payment_packages", [])].

(** Asking a provider leaves a trace. *)
Definition ask {A} (api what : string) (r : fetched A) : Py A :=
  note (Invoked api what) ;;;
  match r with
  | Raises why => raise (ProviderError why)
  | Returns a => ret a
  end.

(** The outcome of a helper that touches no provider. *)
Definition helper {A} (r : fetched A) : Py A :=
  match r with
  | Raises why => raise (AttributeError why)
  | Returns a => ret a
  end.

(** [if data:] *)
Definition truthy (p : payload) : Py bool :=
  match p with
  | PNone => ret false
  | PDict d => ret (negb (bool_decide (d = ∅)))
  | PFrame _ => raise (ValueError "The truth value of a DataFrame is ambiguous")
  end.

(** The loop every fallback method is written as:
    [for api in apis: try: <body> except Exception as e:
     logger.warning(f"Failed to get {what} from {api} for {ticker}: {e}"); continue].
    The body answers [Some r] when it executed [return r] and [None] when
    it fell through to the next iteration. *)
Fixpoint for_apis (body : string → Py (option payload)) (what ticker : string)
    (apis : list string) : Py (option payload) :=
  match apis with
  | [] => ret None
  | api :: rest =>
      λ w, match body api w with
           | (Value (Some r), w') => (Value (Some r), w')
           | (Value None, w') => for_apis body what ticker rest w'
           | (Raise e, w') =>
               (logger WARNING ("Failed to get " ++ what ++ " from " ++ api
                                ++ " for " ++ ticker ++ ": " ++ str e) ;;;
                for_apis body what ticker rest) w'
           end
  end.

(** The stubs at the end of the class: a body of [pass] returns [None]. *)
Definition _format_fmp_overview (data : payload) (ticker : string) : payload := PNone.
Definition _format_finnhub_overview (data : payload) (ticker : string) : payload := PNone.
Definition _format_alpha_vantage_price (data : payload) (ticker : string) : payload := PNone.
Definition _format_fmp_calendar (data : payload) (ticker : string) : payload := PNone.

(** [{'symbol': ticker, k: info.get(k'), ...}] *)
Definition pick (ticker : string) (info : gmap string value)
    (fields : list (string * string)) : gmap string value :=
  <["symbol" := VText ticker]>
    (list_to_map ((λ kk, (kk.1, get info kk.2)) <$> fields)).

Definition same (names : list string) : list (string * string) :=
  (λ n, (n, n)) <$> names.

(** A branch [elif api == name and self.client: data = self.client.method(ticker);
    if data: return format(data, ticker)]. *)
Definition via_client (api method ticker : string) (c : client)
    (format : payload → string → Py payload) : Py (option payload) :=
  let* data := ask api method (c method ticker) in
  let* ok := truthy data in
  if ok then (let* r := format data ticker in ret (Some r)) else ret None.

Section Extractor.

Variable E : environment.
Variable self : StockDataExtractor.

Definition priority (data_type : string) : list string :=
  default [] (api_priority !! data_type).

Definition extract_price_data (ticker : string) : Py payload :=
  let* r := for_apis (λ api,
      if bool_decide (api = "yfinance") then
        let* info := ask "yfinance" "info" (yf_info E ticker) in
        if bool_decide (get info "regularMarketPrice" ≠ VNone) then
          ret (Some (PDict (pick ticker info
            (same ["regularMarketPrice"; "regularMarketChangePercent";
                   "regularMarketChange"; "regularMarketDayHigh";
                   "regularMarketDayLow"; "regularMarketVolume";
                   "regularMarketPreviousClose"; "regularMarketOpen"]
             ++ [("exchangeName", "exchange")]
             ++ same ["longName"; "currency"; "marketCap"]))))
        else ret None
      else if bool_decide (api = "alpha_vantage") then
        match alpha_vantage_client self with
        | Some c => via_client api "get_quote" ticker c
                      (λ d t, ret (_format_alpha_vantage_price d t))
        | None => ret None
        end
      else ret None)
    "price data" ticker (priority "price") in
  match r with
  | Some x => ret x
  | None =>
      logger ERROR ("Could not retrieve price data for " ++ ticker
                    ++ " from any source") ;;;
      ret PNone
  end.

Definition extract_org_overview (ticker : string) : Py payload :=
  let* r := for_apis (λ api,
      if bool_decide (api = "yfinance") then
        let* info := ask "yfinance" "info" (yf_info E ticker) in
        if bool_decide (info ≠ ∅) then
          ret (Some (PDict (pick ticker info
            (same ["address1"; "city"; "zip"; "country"; "phone"; "website";
                   "industry"; "sector"; "longBusinessSummary";
                   "fullTimeEmployees"; "enterpriseValue"; "bookValue";
                   "priceToBook"; "forwardPE"; "profitMargins";
                   "sharesOutstanding"]))))
        else ret None
      else if bool_decide (api = "fmp") then
        match fmp_client self with
        | Some c => via_client api "get_company_profile" ticker c
                      (λ d t, ret (_format_fmp_overview d t))
        | None => ret None
        end
      else if bool_decide (api = "finnhub") then
        match finnhub_client self with
        | Some c => via_client api "get_company_profile" ticker c
                      (λ d t, ret (_format_finnhub_overview d t))
        | None => ret None
        end
      else ret None)
    "org overview" ticker (priority "org_overview") in
  match r with
  | Some x => ret x
  | None =>
      logger ERROR ("Could not retrieve org overview for " ++ ticker
                    ++ " from any source") ;;;
      ret PNone
  end.

(** [calendar.T.to_dict().get(0, {})]: the row labelled 0, as a dict of
    Python objects. *)
Definition row_dict (df : frame) (label : string) : gmap string value :=
  match list_find (λ r, r.1 = label) (records df) with
  | Some (_, r) => list_to_map (zip (columns df) (unbox <$> r.2))
  | None => ∅
  end.

Definition extract_calendar_events (ticker : string) : Py payload :=
  let* r := for_apis (λ api,
      if bool_decide (api = "yfinance") then
        let* calendar := ask "yfinance" "calendar" (yf_table E "calendar" ticker) in
        match calendar with
        | Some cal =>
            if negb (empty cal) then
              let data := row_dict cal "0" in
              ret (Some (PDict (pick ticker data
                [("earnings_date", "Earnings Date");
                 ("earnings_average", "Earnings Average");
                 ("earnings_low", "Earnings Low");
                 ("earnings_high", "Earnings High");
                 ("revenue_average", "Revenue Average")])))
            else ret None
        | None => ret None
        end
      else if bool_decide (api = "fmp") then
        match fmp_client self with
        | Some c => via_client api "get_earnings_calendar" ticker c
                      (λ d t, ret (_format_fmp_calendar d t))
        | None => ret None
        end
      else if bool_decide (api = "alpha_vantage") then
        match alpha_vantage_client self with
        | Some c => via_client api "get_earnings_calendar" ticker c
                      (λ d t, helper (_format_alpha_vantage_calendar E d t))
        | None => ret None
        end
      else ret None)
    "calendar events" ticker (priority "calendar_events") in
  match r with
  | Some x => ret x
  | None =>
      logger ERROR ("Could not retrieve calendar events for " ++ ticker
                    ++ " from any source") ;;;
      ret PNone
  end.

(** The three statement extractors share their body: only the [yfinance]
    branch is written. *)
Definition extract_statement (data_type what attr quarterly_attr : string)
    (renaming : list (string * string))
    (ticker : string) (quarterly : bool) : Py payload :=
  let* r := for_apis (λ api,
      if bool_decide (api = "yfinance") then
        let name := if quarterly then quarterly_attr else attr in
        let* bs := ask "yfinance" name (yf_table E name ticker) in
        match bs with
        | Some bs =>
            if negb (empty bs) then
              match T_reset_index bs with
              | Some bs_df =>
                  ret (Some (PFrame (rename renaming
                        (set_column "symbol" (VText ticker) bs_df))))
              | None =>
                  raise (ValueError ("cannot insert "
                                     ++ index_label (fst <$> records bs)
                                     ++ ", already exists"))
              end
            else ret None
        | None => ret None
        end
      else ret None)
    what ticker (priority data_type) in
  ret (default PNone r).

Definition extract_balance_sheet :=
  extract_statement "balance_sheet" "balance sheet"
    "balance_sheet" "quarterly_balance_sheet"
    [("index", "asOfDate"); ("asOfDate", "asOfDate")].
Definition extract_income_statement :=
  extract_statement "income_statement" "income statement"
    "financials" "quarterly_financials" [("index", "asOfDate")].
Definition extract_cash_flow :=
  extract_statement "cash_flow" "cash flow" "cashflow" "quarterly_cashflow"
    [("index", "asOfDate")].

Definition extract_valuation_measures (ticker : string) : Py payload :=
  let* r := for_apis (λ api,
      if bool_decide (api = "yfinance") then
        let* info := ask "yfinance" "info" (yf_info E ticker) in
        if bool_decide (info ≠ ∅) then
          ret (Some (PDict (pick ticker info
            [("PriceToEarningsRatio", "trailingPE");
             ("PriceToSalesRatio", "priceToSalesTrailing12Months");
             ("PriceToBookRatio", "priceToBook");
             ("EnterpiseToRevenue", "enterpriseToRevenue");
             ("EnterpiseToEbitda", "enterpriseToEbitda")])))
        else ret None
      else ret None)
    "valuation" ticker (priority "valuation_measures") in
  ret (default PNone r).

Definition extract_institution_ownership (ticker : string) : Py payload :=
  let* r := for_apis (λ api,
      if bool_decide (api = "yfinance") then
        let* institutional :=
          ask "yfinance" "institutional_holders"
              (yf_table E "institutional_holders" ticker) in
        match institutional with
        | Some holders =>
            if negb (empty holders) then
              ret (Some (PFrame (rename
                    [("Holder", "organization"); ("% Out", "pctHeld");
                     ("Shares", "position"); ("Value", "value")]
                    (set_column "symbol" (VText ticker) holders))))
            else ret None
        | None => ret None
        end
      else ret None)
    "institutional ownership" ticker (priority "institution_ownership") in
  ret (default PNone r).

Definition extract_executive_ownership (ticker : string) : Py payload :=
  let* r := for_apis (λ api,
      if bool_decide (api = "finnhub") then
        match finnhub_client self with
        | Some c => via_client api "get_insider_transactions" ticker c
                      (λ d t, helper (_format_finnhub_insider E d t))
        | None => ret None
        end
      else ret None)
    "executive ownership" ticker (priority "executive_ownership") in
  ret (default PNone r).

(** [hist_data.loc[hist_data.index.normalize() == day][column].iloc[0]]
    when that selection is not empty, else [None]; a missing column is a
    [KeyError]. *)
Definition price_on (hist : frame) (day column : string) : Py (option value) :=
  match list_find (λ r, r.1 = day) (records hist) with
  | None => ret None
  | Some (_, r) =>
      match list_find (λ c, c = column) (columns hist) with
      | None => raise (KeyError column)
      | Some (j, _) => ret (Some (default VNone (r.2 !! j)))
      end
  end.

Fixpoint announcement_rows (ticker : string) (dates : list string)
    : Py (list (list value)) :=
  match dates with
  | [] => ret []
  | announcement_date :: rest =>
      let* hist_data := ask "yfinance" "download" (yf_download E ticker announcement_date) in
      if empty hist_data then announcement_rows ticker rest
      else
        let* price_before :=
          price_on hist_data (add_business_days E announcement_date (-1)) "Close" in
        let* price_after :=
          price_on hist_data (add_business_days E announcement_date 1) "Open" in
        let* more := announcement_rows ticker rest in
        match price_before, price_after with
        | Some b, Some a =>
            if bool_decide (b ≠ VNone) && bool_decide (a ≠ VNone) then
              ret ([VText ticker; VText announcement_date; VText "Earnings";
                    b; a; change_percent E b a] :: more)
            else ret more
        | _, _ => ret more
        end
  end.

Definition extract_announcement_price (ticker : string) : Py payload :=
  try_except
    (let* earnings_dates :=
       ask "yfinance" "earnings_dates" (yf_table E "earnings_dates" ticker) in
     match earnings_dates with
     | None =>
         logger WARNING ("No earnings dates found for " ++ ticker) ;;; ret PNone
     | Some dates =>
         if empty dates then
           logger WARNING ("No earnings dates found for " ++ ticker) ;;; ret PNone
         else
           let* announcement_prices :=
             announcement_rows ticker (fst <$> records dates) in
           if bool_decide (announcement_prices = []) then ret PNone
           else ret (PFrame
             (DataFrame ["symbol"; "announcement_date"; "announcement_type";
                         "price_before"; "price_after"; "change_percent"]
                        announcement_prices))
     end)
    (λ e, logger ERROR ("Failed to get announcement prices from yfinance for "
                        ++ ticker ++ ": " ++ str e) ;;;
          ret PNone).

Definition data_types : list string :=
  ["price"; "org_overview"; "calendar_events"; "balance_sheet";
   "income_statement"; "cash_flow"; "valuation_measures";
   "institution_ownership"; "executive_ownership"; "announcement_price"].

(** The [if]/[elif] chain of [extract_all_data]: the method run for a
    data type, none for a name the chain does not know. *)
Definition extract (data_type ticker : string) (quarterly : bool)
    : option (Py payload) :=
  if bool_decide (data_type = "price") then Some (extract_price_data ticker)
  else if bool_decide (data_type = "org_overview") then Some (extract_org_overview ticker)
  else if bool_decide (data_type = "calendar_events") then Some (extract_calendar_events ticker)
  else if bool_decide (data_type = "balance_sheet") then Some (extract_balance_sheet ticker quarterly)
  else if bool_decide (data_type = "income_statement") then Some (extract_income_statement ticker quarterly)
  else if bool_decide (data_type = "cash_flow") then Some (extract_cash_flow ticker quarterly)
  else if bool_decide (data_type = "valuation_measures") then Some (extract_valuation_measures ticker)
  else if bool_decide (data_type = "institution_ownership") then Some (extract_institution_ownership ticker)
  else if bool_decide (data_type = "executive_ownership") then Some (extract_executive_ownership ticker)
  else if bool_decide (data_type = "announcement_price") then Some (extract_announcement_price ticker)
  else None.

Fixpoint extract_each (ticker : string) (quarterly : bool) (types : list string)
    (results : gmap string payload) : Py (gmap string payload) :=
  match types with
  | [] => ret results
  | data_type :: rest =>
      logger INFO ("Extracting " ++ data_type ++ " for " ++ ticker) ;;;
      match extract data_type ticker quarterly with
      | Some method =>
          let* r := method in
          extract_each ticker quarterly rest (<[data_type := r]> results)
      | None => extract_each ticker quarterly rest results
      end
  end.

Definition extract_all_data (ticker : string) (quarterly : bool)
    : Py (gmap string payload) :=
  extract_each ticker quarterly data_types ∅.

End Extractor.

(** ** [populatepostgres.py]: persistence *)

Definition set_db (db : Sql.database) : Py unit :=
  λ w, (Value tt, with_db db w).

(** [get_db_connection]: [psycopg2.connect] answers or fails; the failure
    is logged and raised again.  The handle returned is the state the
    transaction works on. *)
Definition get_db_connection : Py Sql.database :=
  λ w, match w_connects w with
       | false :: _ =>
           (logger ERROR ("Database connection failed: " ++ str OperationalError) ;;;
            raise OperationalError) (attempted w)
       | _ => (Value (w_db w), attempted w)
       end.

Definition now : Py Z := λ w, (Value (w_clock w), w).

(** [datetime.now().date()], the clock counting seconds. *)
Definition today : Py value := λ w, (Value (VInt (w_clock w / 86400)), w).

(** [_get_table_columns] *)
Definition _get_table_columns (table_name : string) (conn : Sql.database)
    : list string :=
  Sql.columns_of conn table_name.

Definition sql (r : Sql.error + Sql.database) : Py Sql.database :=
  match r with
  | inl e => raise (DatabaseError e)
  | inr db => ret db
  end.

(** [cursor.execute(query, params)] with named placeholders: every
    placeholder, in turn, is looked up in [params] and its value adapted. *)
Fixpoint named (names : list string) (params : gmap string value)
    : Py (list value) :=
  match names with
  | [] => ret []
  | n :: rest =>
      match params !! n with
      | None => raise (KeyError n)
      | Some v =>
          if Sql.adaptable v then let* vs := named rest params in ret (v :: vs)
          else raise (DatabaseError Sql.CannotAdapt)
      end
  end.

Definition execute (query : Sql.insert) (params : gmap string value)
    (conn : Sql.database) : Py Sql.database :=
  let* vs := named (Sql.ins_columns query) params in
  let* t := now in
  sql (Sql.exec_insert t query [vs] conn).

(** [cursor.executemany(query, seq)]: the statement once per element. *)
Fixpoint executemany (query : Sql.insert) (seq : list (gmap string value))
    (conn : Sql.database) : Py Sql.database :=
  match seq with
  | [] => ret conn
  | params :: rest =>
      let* conn' := execute query params conn in
      executemany query rest conn'
  end.

(** [psycopg2.extras.execute_values] sends one statement per page of
    [page_size] rows, in the same transaction. *)
Definition page_size : nat := 100.

(** The pages of [l]; [fuel] bounds their number. *)
Fixpoint paginate {A} (fuel : nat) (l : list A) : list (list A) :=
  match fuel, l with
  | O, _ | _, [] => []
  | S fuel', _ => take page_size l :: paginate fuel' (drop page_size l)
  end.

Definition execute_values (query : Sql.insert) (values : list (list value))
    (conn : Sql.database) : Py Sql.database :=
  let* t := now in
  sql (Sql.exec_inserts t query (paginate (length values) values) conn).

(** [conn.commit()] installs the transaction's state; [conn.rollback()]
    forgets it; closing cursor and connection changes nothing. *)
Definition commit (conn : Sql.database) : Py unit := set_db conn.
Definition rollback : Py unit := ret tt.
Definition close : world → world := id.

(** A method of the shape
    [conn = self.get_db_connection(); cursor = conn.cursor()
     try: <work>; conn.commit(); logger.info(done); return True
     except Exception as e: logger.error(f"{failed}: {e}"); conn.rollback(); return False
     finally: cursor.close(); conn.close()] *)
Definition transaction (work : Sql.database → Py Sql.database)
    (done failed : string) : Py bool :=
  let* conn := get_db_connection in
  finally
    (try_except
       (let* conn' := work conn in
        commit conn' ;;; logger INFO done ;;; ret true)
       (λ e, logger ERROR (failed ++ ": " ++ str e) ;;; rollback ;;; ret false))
    close.

Definition price_query : Sql.insert :=
  {| Sql.into := "price";
     Sql.ins_columns :=
       ["symbol"; "regularMarketPrice"; "regularMarketChangePercent";
        "regularMarketChange"; "regularMarketDayHigh"; "regularMarketDayLow";
        "regularMarketVolume"; "regularMarketPreviousClose";
        "regularMarketOpen"; "exchangeName"; "longName"; "currency";
        "marketCap"];
     Sql.on_conflict := ["symbol"; "regularMarketTime"];
     Sql.do := Sql.DoNothing |}.

Definition insert_price_data (ticker : string) (data : payload) : Py bool :=
  note (Entered "insert_price_data") ;;;
  match data with
  | PNone => ret false
  | PFrame _ => raise (ValueError "The truth value of a DataFrame is ambiguous")
  | PDict data =>
      if bool_decide (data = ∅) then ret false
      else transaction (execute price_query data)
             ("Inserted price data for " ++ ticker)
             ("Error inserting price data for " ++ ticker)
  end.

Definition org_overview_query : Sql.insert :=
  {| Sql.into := "org_overview";
     Sql.ins_columns :=
       ["symbol"; "address1"; "city"; "zip"; "country"; "phone"; "website";
        "industry"; "sector"; "longBusinessSummary"; "fullTimeEmployees";
        "enterpriseValue"; "bookValue"; "priceToBook"; "forwardPE";
        "profitMargins"; "sharesOutstanding"];
     Sql.on_conflict := ["symbol"];
     Sql.do := Sql.DoUpdateSet
       ["address1"; "city"; "zip"; "country"; "phone"; "website"; "industry";
        "sector"; "longBusinessSummary"; "fullTimeEmployees";
        "enterpriseValue"; "bookValue"; "priceToBook"; "forwardPE";
        "profitMargins"; "sharesOutstanding"] |}.

Definition insert_org_overview (ticker : string) (data : payload) : Py bool :=
  note (Entered "insert_org_overview") ;;;
  match data with
  | PNone => ret false
  | PFrame _ => raise (ValueError "The truth value of a DataFrame is ambiguous")
  | PDict data =>
      if bool_decide (data = ∅) then ret false
      else transaction (execute org_overview_query data)
             ("Inserted/Updated org overview for " ++ ticker)
             ("Error inserting org overview for " ++ ticker)
  end.

Definition calendar_events_query : Sql.insert :=
  {| Sql.into := "calendar_events";
     Sql.ins_columns :=
       ["symbol"; "earnings_date"; "earnings_average"; "earnings_low";
        "earnings_high"; "revenue_average"];
     Sql.on_conflict := ["symbol"; "earnings_date"];
     Sql.do := Sql.DoUpdateSet
       ["earnings_average"; "earnings_low"; "earnings_high"; "revenue_average"] |}.

Definition insert_calendar_events (ticker : string) (data : payload) : Py bool :=
  note (Entered "insert_calendar_events") ;;;
  match data with
  | PNone => ret false
  | PFrame _ => raise (ValueError "The truth value of a DataFrame is ambiguous")
  | PDict data =>
      if bool_decide (data = ∅) || bool_decide (get data "earnings_date" = VNone)
      then ret false
      else transaction (execute calendar_events_query data)
             ("Inserted/Updated calendar events for " ++ ticker)
             ("Error inserting calendar events for " ++ ticker)
  end.

(** The pieces of the statement [insert_dataframe_to_table] assembles. *)
Definition columns_str (df_columns : list string) : string :=
  String.concat "," df_columns.

Definition update_str (update_columns : list string) : string :=
  String.concat ", " ((λ col, (col ++ " = EXCLUDED." ++ col)%string) <$> update_columns).

Definition conflict_str (conflict_key : list string) : string :=
  String.concat ", " conflict_key.

Definition insert_query (table_name : string)
    (df_columns update_columns conflict_key : list string) : string :=
  "INSERT INTO " ++ table_name ++ " (" ++ columns_str df_columns ++ ") VALUES %s"
  ++ " ON CONFLICT (" ++ conflict_str conflict_key ++ ") DO UPDATE SET "
  ++ update_str update_columns ++ ", created_at = CURRENT_TIMESTAMP;".

(** The same statement as the server reads it. *)
Definition upsert (table_name : string)
    (df_columns update_columns conflict_key : list string) : Sql.insert :=
  {| Sql.into := table_name;
     Sql.ins_columns := df_columns;
     Sql.on_conflict := conflict_key;
     Sql.do := Sql.DoUpdateSet update_columns |}.

Definition intersect (df : frame) (table_columns : list string) : list string :=
  filter (λ col, col ∈ table_columns) (columns df).

Definition non_key (df_columns conflict_key : list string) : list string :=
  filter (λ col, col ∉ conflict_key) df_columns.

Definition insert_dataframe_to_table (df : payload) (table_name ticker : string)
    (conflict_key : list string) : Py bool :=
  let no_data :=
    logger WARNING ("No " ++ table_name ++ " data to insert for " ++ ticker) ;;;
    ret false in
  match df with
  | PNone => no_data
  | PDict _ => raise (AttributeError "'dict' object has no attribute 'empty'")
  | PFrame df =>
      if empty df then no_data
      else
        let* conn := get_db_connection in
        finally
          (try_except
             (let table_columns := _get_table_columns table_name conn in
              let df_columns := intersect df table_columns in
              let df_clean := select df_columns df in
              if empty df_clean then
                logger WARNING ("No matching columns for " ++ table_name
                                ++ " table for " ++ ticker) ;;;
                ret false
              else
                let values := to_records df_clean in
                let update_columns := non_key df_columns conflict_key in
                let* conn' :=
                  execute_values
                    (upsert table_name df_columns update_columns conflict_key)
                    values conn in
                commit conn' ;;;
                logger INFO ("Inserted/Updated " ++ pretty (length values)
                             ++ " rows into " ++ table_name ++ " for " ++ ticker) ;;;
                ret true)
             (λ e, logger ERROR ("Error inserting " ++ table_name ++ " data for "
                                 ++ ticker ++ ": " ++ str e) ;;;
                   rollback ;;; ret false))
          close
  end.

Definition insert_announcement_price (ticker : string) (df : payload) : Py bool :=
  note (Entered "insert_announcement_price") ;;;
  insert_dataframe_to_table df "announcement_price" ticker
    ["symbol"; "announcement_date"].

Definition insert_balance_sheet (ticker : string) (df : payload) : Py bool :=
  note (Entered "insert_balance_sheet") ;;;
  insert_dataframe_to_table df "balance_sheet" ticker ["symbol"; "asOfDate"].

Definition insert_income_statement (ticker : string) (df : payload) : Py bool :=
  note (Entered "insert_income_statement") ;;;
  insert_dataframe_to_table df "income_statement" ticker ["symbol"; "asOfDate"].

Definition insert_cash_flow (ticker : string) (df : payload) : Py bool :=
  note (Entered "insert_cash_flow") ;;;
  insert_dataframe_to_table df "cash_flow" ticker ["symbol"; "asOfDate"].

Definition valuation_measures_query : Sql.insert :=
  {| Sql.into := "valuation_measures";
     Sql.ins_columns :=
       ["symbol"; "PriceToEarningsRatio"; "PriceToSalesRatio";
        "PriceToBookRatio"; "EnterpiseToRevenue"; "EnterpiseToEbitda";
        "asOfDate"];
     Sql.on_conflict := ["symbol"; "asOfDate"];
     Sql.do := Sql.DoNothing |}.

Definition insert_valuation_measures (ticker : string) (data : payload) : Py bool :=
  note (Entered "insert_valuation_measures") ;;;
  match data with
  | PNone => ret false
  | PFrame _ => raise (ValueError "The truth value of a DataFrame is ambiguous")
  | PDict data =>
      if bool_decide (data = ∅) then ret false
      else transaction
             (λ conn, let* date := today in
                      execute valuation_measures_query
                        (<["asOfDate" := date]> data) conn)
             ("Inserted valuation measures for " ++ ticker)
             ("Error inserting valuation measures for " ++ ticker)
  end.

Definition insert_institution_ownership (ticker : string) (df : payload) : Py bool :=
  note (Entered "insert_institution_ownership") ;;;
  (let* conn := get_db_connection in
   finally
     (try_except
        (let* conn' :=
           sql (Sql.exec_delete "institution_ownership" "symbol" (VText ticker) conn) in
         commit conn')
        (λ e, logger ERROR ("Could not clear old institutional holders for "
                            ++ ticker ++ ": " ++ str e) ;;;
              rollback))
     close) ;;;
  insert_dataframe_to_table df "institution_ownership" ticker
    ["symbol"; "organization"].

Definition insert_executive_ownership (ticker : string) (df : payload) : Py bool :=
  note (Entered "insert_executive_ownership") ;;;
  insert_dataframe_to_table df "executive_ownership" ticker
    ["symbol"; "name"; "latestTransDate"].

Definition quarterly_price_query : Sql.insert :=
  {| Sql.into := "quarterly_price";
     Sql.ins_columns :=
       ["symbol"; "quarter"; "year"; "avg_price"; "high_price"; "low_price";
        "volume_avg"];
     Sql.on_conflict := ["symbol"; "quarter"; "year"];
     Sql.do := Sql.DoUpdateSet
       ["avg_price"; "high_price"; "low_price"; "volume_avg"] |}.

Section Inserter.

Variable E : environment.

Definition calculate_and_insert_quarterly_price (ticker : string) : Py bool :=
  note (Entered "calculate_and_insert_quarterly_price") ;;;
  try_except
    (let* hist_data := ask "yfinance" "history" (yf_history E ticker) in
     if empty hist_data then ret false
     else
       let* records := helper (quarterly_records E ticker hist_data) in
       if bool_decide (records = []) then ret false
       else transaction (executemany quarterly_price_query records)
              ("Inserted/Updated " ++ pretty (length records)
               ++ " quarterly price records for " ++ ticker)
              ("Error inserting quarterly price data for " ++ ticker))
    (λ e, logger ERROR ("Failed during quarterly price calculation for "
                        ++ ticker ++ ": " ++ str e) ;;;
          ret false).

Definition lookup_data (data : gmap string payload) (k : string) : payload :=
  default PNone (data !! k).

Definition insert_all_data (ticker : string) (data : gmap string payload)
    : Py unit :=
  logger INFO ("Starting data insertion process for " ++ ticker) ;;;
  insert_price_data ticker (lookup_data data "price") ;;;
  insert_org_overview ticker (lookup_data data "org_overview") ;;;
  insert_calendar_events ticker (lookup_data data "calendar_events") ;;;
  insert_balance_sheet ticker (lookup_data data "balance_sheet") ;;;
  insert_income_statement ticker (lookup_data data "income_statement") ;;;
  insert_cash_flow ticker (lookup_data data "cash_flow") ;;;
  insert_valuation_measures ticker (lookup_data data "valuation_measures") ;;;
  insert_institution_ownership ticker (lookup_data data "institution_ownership") ;;;
  insert_executive_ownership ticker (lookup_data data "executive_ownership") ;;;
  insert_announcement_price ticker (lookup_data data "announcement_price") ;;;
  calculate_and_insert_quarterly_price ticker ;;;
  logger INFO ("Finished data insertion process for " ++ ticker).

End Inserter.

(** ** [create_sql_tables.py]: the method *)

Module StockTableCreator.

(** [psycopg2.connect] with the configuration: the next connection attempt. *)
Definition connect : Py Sql.database :=
  λ w, match w_connects w with
       | false :: _ => (Raise OperationalError, attempted w)
       | _ => (Value (w_db w), attempted w)
       end.

(** [create_all_tables]: the connection is opened outside the [try]; the
    twelve [CREATE TABLE IF NOT EXISTS] statements run in one transaction. *)
Definition create_all_tables : Py unit :=
  let* conn := connect in
  finally
    (try_except
       (let* conn' := ret (create_all_tables conn) in
        commit conn' ;;;
        logger INFO "All tables created successfully")
       (λ e, logger ERROR ("Error creating tables: " ++ str e) ;;;
             rollback ;;; raise e))
    close.

End StockTableCreator.

(** ** [Connection.py]: the connection pool

    The module keeps one [psycopg2.pool.ThreadedConnectionPool] in a
    global and hands its connections out and takes them back.  The pool
    object is the library's: it is modelled after
    [psycopg2.pool.AbstractConnectionPool] ([__init__], [_connect],
    [_getkey], [_getconn], [_putconn], [_closeall]) with its fields
    [minconn], [maxconn], [closed], [_pool], [_used] and [_keys], for one
    thread, so that the locks play no part.  A connection is the number of
    the attempt that opened it, and a connection object is always truthy.
    Not modelled: a connection that the server has dropped behind the
    program's back, and the rollback of a connection that is given back
    in the middle of a transaction. *)
Module Connection.

Inductive error :=
  | OperationalError
  | PoolError (why : string).

Definition str (e : error) : string :=
  match e with
  | OperationalError => "could not connect to server"
  | PoolError why => why
  end.

Inductive outcome (A : Type) :=
  | Returned (a : A)
  | Raised (e : error).
Arguments Returned {A} a.
Arguments Raised {A} e.

(** The pool object: [_used] maps a key to the connection handed out
    under it ([_rused], its inverse, is read off it). *)
Record pool := mkPool {
  minconn : nat;
  maxconn : nat;
  closed : bool;
  _pool : list nat;
  _used : list (nat * nat);
  _keys : nat
}.

(** The process: the global, the coming connection attempts as the
    server answers them, the connections opened and closed so far, the
    root logger's records. *)
Record process := mkProcess {
  _connection_pool : option pool;
  server : list bool;
  opened : nat;
  closed_connections : list nat;
  log : list log_record
}.

Definition set_pool (p : option pool) (s : process) : process :=
  mkProcess p (server s) (opened s) (closed_connections s) (log s).

Definition logging (l : level) (text : string) (s : process) : process :=
  mkProcess (_connection_pool s) (server s) (opened s) (closed_connections s)
            (log s ++ [mkLog l text]).

(** [conn.close()] *)
Definition close (conn : nat) (s : process) : process :=
  mkProcess (_connection_pool s) (server s) (opened s)
            (closed_connections s ++ [conn]) (log s).

(** [psycopg2.connect(...)] *)
Definition connect (s : process) : outcome nat * process :=
  let s' := mkProcess (_connection_pool s) (tail (server s)) (opened s)
                      (closed_connections s) (log s) in
  match server s with
  | false :: _ => (Raised OperationalError, s')
  | _ => (Returned (opened s),
          mkProcess (_connection_pool s) (tail (server s)) (S (opened s))
                    (closed_connections s) (log s))
  end.

(** [AbstractConnectionPool.__init__]: [minconn] connections are opened
    and kept idle. *)
Fixpoint connect_idle (n : nat) (p : pool) (s : process) : outcome pool * process :=
  match n with
  | O => (Returned p, s)
  | S n' =>
      match connect s with
      | (Returned conn, s') =>
          connect_idle n'
            (mkPool (minconn p) (maxconn p) (closed p) (_pool p ++ [conn])
                    (_used p) (_keys p)) s'
      | (Raised e, s') => (Raised e, s')
      end
  end.

Definition ThreadedConnectionPool (minconn maxconn : nat) (s : process)
    : outcome pool * process :=
  connect_idle minconn (mkPool minconn maxconn false [] [] 0) s.

(** [pool.getconn()]: the pool as the call leaves it comes back with the
    outcome, since the call changes it also when it raises. *)
Definition getconn (p : pool) (s : process) : outcome nat * pool * process :=
  if closed p then (Raised (PoolError "connection pool is closed"), p, s)
  else
    let key := S (_keys p) in
    let p := mkPool (minconn p) (maxconn p) (closed p) (_pool p) (_used p) key in
    match list_find (λ kc, kc.1 = key) (_used p) with
    | Some (_, kc) => (Returned kc.2, p, s)
    | None =>
        match last (_pool p) with
        | Some conn =>
            (Returned conn,
             mkPool (minconn p) (maxconn p) (closed p) (removelast (_pool p))
                    ((key, conn) :: _used p) key, s)
        | None =>
            if bool_decide (length (_used p) = maxconn p)
            then (Raised (PoolError "connection pool exhausted"), p, s)
            else
              match connect s with
              | (Returned conn, s') =>
                  (Returned conn,
                   mkPool (minconn p) (maxconn p) (closed p) (_pool p)
                          ((key, conn) :: _used p) key, s')
              | (Raised e, s') => (Raised e, p, s')
              end
        end
    end.

(** [pool.putconn(conn)] *)
Definition putconn (p : pool) (conn : nat) (s : process)
    : outcome unit * pool * process :=
  if closed p then (Raised (PoolError "connection pool is closed"), p, s)
  else
    match list_find (λ kc, kc.2 = conn) (_used p) with
    | None => (Raised (PoolError "trying to put unkeyed connection"), p, s)
    | Some (_, kc) =>
        let used := filter (λ kc', kc'.1 ≠ kc.1) (_used p) in
        if bool_decide (length (_pool p) < minconn p)%nat then
          if bool_decide (conn ∈ closed_connections s)
          then (Returned tt,
                mkPool (minconn p) (maxconn p) (closed p) (_pool p) used (_keys p), s)
          else (Returned tt,
                mkPool (minconn p) (maxconn p) (closed p) (_pool p ++ [conn]) used
                       (_keys p), s)
        else (Returned tt,
              mkPool (minconn p) (maxconn p) (closed p) (_pool p) used (_keys p),
              close conn s)
    end.

(** [pool.closeall()]: the idle connections are closed, then those in
    use, oldest key first ([_used] has the newest first). *)
Definition closeall (p : pool) (s : process) : outcome unit * pool * process :=
  if closed p then (Raised (PoolError "connection pool is closed"), p, s)
  else (Returned tt,
        mkPool (minconn p) (maxconn p) true (_pool p) (_used p) (_keys p),
        foldl (λ s conn, close conn s) s (_pool p ++ (reverse (_used p)).*2)).

Definition get_connection_pool (s : process) : outcome pool * process :=
  match _connection_pool s with
  | Some p => (Returned p, s)
  | None =>
      match ThreadedConnectionPool 1 5 s with
      | (Returned p, s') =>
          (Returned p, logging INFO "Connection pool created successfully"
                         (set_pool (Some p) s'))
      | (Raised e, s') =>
          (Raised e, logging ERROR ("Error creating connection pool: " ++ str e) s')
      end
  end.

Definition get_db_connection (s : process) : outcome (option nat) * process :=
  match get_connection_pool s with
  | (Returned p, s1) =>
      match getconn p s1 with
      | (Returned conn, p', s2) => (Returned (Some conn), set_pool (Some p') s2)
      | (Raised e, p', s2) =>
          (Returned None,
           logging ERROR ("Error getting connection from pool: " ++ str e)
             (set_pool (Some p') s2))
      end
  | (Raised e, s1) =>
      (Returned None,
       logging ERROR ("Error getting connection from pool: " ++ str e) s1)
  end.

Definition return_db_connection (conn : option nat) (s : process)
    : outcome unit * process :=
  match conn with
  | None => (Returned tt, s)
  | Some conn =>
      match get_connection_pool s with
      | (Returned p, s1) =>
          match putconn p conn s1 with
          | (Returned _, p', s2) => (Returned tt, set_pool (Some p') s2)
          | (Raised e, p', s2) =>
              (Returned tt,
               logging ERROR ("Error returning connection to pool: " ++ str e)
                 (set_pool (Some p') s2))
          end
      | (Raised e, s1) =>
          (Returned tt,
           logging ERROR ("Error returning connection to pool: " ++ str e) s1)
      end
  end.

Definition close_connection_pool (s : process) : outcome unit * process :=
  match _connection_pool s with
  | None => (Returned tt, s)
  | Some p =>
      match closeall p s with
      | (Returned _, _, s') =>
          (Returned tt, logging INFO "Connection pool closed" (set_pool None s'))
      | (Raised e, p', s') => (Raised e, set_pool (Some p') s')
      end
  end.

End Connection.

(** ** The claims' vocabulary *)

(** A provider's answer, whatever its Python type, as a payload. *)
Definition as_dict (r : fetched (gmap string value)) : fetched payload :=
  match r with
  | Raises why => Raises why
  | Returns d => Returns (PDict d)
  end.

Definition as_table (r : fetched (option frame)) : fetched payload :=
  match r with
  | Raises why => Raises why
  | Returns None => Returns PNone
  | Returns (Some f) => Returns (PFrame f)
  end.

Definition from_client (c : option client) (method ticker : string)
    : option (fetched payload) :=
  (λ c, c method ticker) <$> c.

(** The request the method of [data_type] sends to [api], when it sends
    one: none where the method has no branch for the provider or the
    client is not configured. *)
Definition provider_fetch (E : environment) (self : StockDataExtractor)
    (data_type api ticker : string) (quarterly : bool)
    : option (fetched payload) :=
  let yfinance := bool_decide (api = "yfinance") in
  let for_type d := bool_decide (data_type = d) in
  let statement attr quarterly_attr :=
    if yfinance
    then Some (as_table (yf_table E (if quarterly then quarterly_attr else attr) ticker))
    else None in
  if for_type "price" then
    if yfinance then Some (as_dict (yf_info E ticker))
    else if bool_decide (api = "alpha_vantage")
    then from_client (alpha_vantage_client self) "get_quote" ticker
    else None
  else if for_type "org_overview" then
    if yfinance then Some (as_dict (yf_info E ticker))
    else if bool_decide (api = "fmp")
    then from_client (fmp_client self) "get_company_profile" ticker
    else if bool_decide (api = "finnhub")
    then from_client (finnhub_client self) "get_company_profile" ticker
    else None
  else if for_type "calendar_events" then
    if yfinance then Some (as_table (yf_table E "calendar" ticker))
    else if bool_decide (api = "fmp")
    then from_client (fmp_client self) "get_earnings_calendar" ticker
    else if bool_decide (api = "alpha_vantage")
    then from_client (alpha_vantage_client self) "get_earnings_calendar" ticker
    else None
  else if for_type "balance_sheet" then statement "balance_sheet" "quarterly_balance_sheet"
  else if for_type "income_statement" then statement "financials" "quarterly_financials"
  else if for_type "cash_flow" then statement "cashflow" "quarterly_cashflow"
  else if for_type "valuation_measures" then
    if yfinance then Some (as_dict (yf_info E ticker)) else None
  else if for_type "institution_ownership" then
    if yfinance then Some (as_table (yf_table E "institutional_holders" ticker))
    else None
  else if for_type "executive_ownership" then
    if bool_decide (api = "finnhub")
    then from_client (finnhub_client self) "get_insider_transactions" ticker
    else None
  else if for_type "announcement_price" then
    if yfinance then Some (as_table (yf_table E "earnings_dates" ticker)) else None
  else None.

(** Empty, as the extract methods test it ([if info:], [.empty]): no
    value, an empty dict, an empty table.  A dict that has keys is not
    empty, whatever it holds under them. *)
Definition empty_payload (p : payload) : bool :=
  match p with
  | PNone => true
  | PDict d => bool_decide (d = ∅)
  | PFrame f => empty f
  end.

(** A payload without a value in it: every field of the dict, every cell
    of the table is [None]. *)
Definition all_null (p : payload) : Prop :=
  match p with
  | PNone => True
  | PDict d => ∀ k, get d k = VNone
  | PFrame f => ∀ r v, r ∈ records f → v ∈ r.2 → v = VNone
  end.

Definition fails_or_empty (r : fetched payload) : Prop :=
  match r with
  | Raises _ => True
  | Returns p => empty_payload p = true
  end.

(** Every provider of the priority list that the method asks raises or
    comes back empty. *)
Definition exhausted (E : environment) (self : StockDataExtractor)
    (data_type ticker : string) (quarterly : bool) : Prop :=
  ∀ api r, api ∈ priority data_type →
    provider_fetch E self data_type api ticker quarterly = Some r →
    fails_or_empty r.

(** The providers asked during a run, in order. *)
Definition invoked (w : world) : list string :=
  omap (λ e, match e with Invoked api _ => Some api | Entered _ => None end)
       (w_events w).

(** The insert methods entered during a run, in order. *)
Definition entered (w : world) : list string :=
  omap (λ e, match e with Entered m => Some m | Invoked _ _ => None end)
       (w_events w).

(** The conflict key each wrapper of the generic upsert declares. *)
Definition declared_keys : list (string * list string) :=
  [("announcement_price", ["symbol"; "announcement_date"]);
   ("balance_sheet", ["symbol"; "asOfDate"]);
   ("income_statement", ["symbol"; "asOfDate"]);
   ("cash_flow", ["symbol"; "asOfDate"]);
   ("institution_ownership", ["symbol"; "organization"]);
   ("executive_ownership", ["symbol"; "name"; "latestTransDate"])].

(** The server answers every connection attempt of the run. *)
Definition steady (w : world) : Prop := Forall (λ b, b = true) (w_connects w).

(** The extracted data holds, per data type, what the extractor's
    signatures promise: a dict or nothing, a frame or nothing. *)
Definition record_or_none (p : payload) : Prop :=
  match p with PFrame _ => False | _ => True end.

Definition frame_or_none (p : payload) : Prop :=
  match p with PDict _ => False | _ => True end.

Definition well_typed (data : gmap string payload) : Prop :=
  (∀ k, k ∈ ["price"; "org_overview"; "calendar_events"; "valuation_measures"] →
        record_or_none (lookup_data data k)) ∧
  (∀ k, k ∈ ["balance_sheet"; "income_statement"; "cash_flow";
             "institution_ownership"; "executive_ownership"; "announcement_price"] →
        frame_or_none (lookup_data data k)).

(** On a steady server, [m] may raise but enters no insert method, and
    [m] returns after entering exactly the methods [names]. *)
Definition calm {A} (m : Py A) : Prop :=
  ∀ w, steady w → ∃ r w', m w = (r, w') ∧ steady w' ∧ entered w' = entered w.

Definition runs {A} (names : list string) (m : Py A) : Prop :=
  ∀ w, steady w →
    ∃ a w', m w = (Value a, w') ∧ steady w' ∧ entered w' = entered w ++ names.

(** The methods [insert_all_data] calls, in its order. *)
Definition insert_methods : list string :=
  ["insert_price_data"; "insert_org_overview"; "insert_calendar_events";
   "insert_balance_sheet"; "insert_income_statement"; "insert_cash_flow";
   "insert_valuation_measures"; "insert_institution_ownership";
   "insert_executive_ownership"; "insert_announcement_price";
   "calculate_and_insert_quarterly_price"].

(** The server answers the next connection attempt. *)
Definition answers (w : world) : Prop := head (w_connects w) ≠ Some false.

(** What the generic upsert does once it holds a connection. *)
Definition upsert_outcome (df : frame) (table_name ticker : string)
    (conflict_key : list string) (w : world) : result bool * world :=
  let df_columns := intersect df (Sql.columns_of (w_db w) table_name) in
  let values := to_records (select df_columns df) in
  if empty (select df_columns df) then
    (Value false,
     logged WARNING ("No matching columns for " ++ table_name ++ " table for " ++ ticker) w)
  else
    match Sql.exec_inserts (w_clock w)
            (upsert table_name df_columns (non_key df_columns conflict_key) conflict_key)
            (paginate (length values) values) (w_db w) with
    | inr db' =>
        (Value true,
         logged INFO ("Inserted/Updated " ++ pretty (length values) ++ " rows into "
                      ++ table_name ++ " for " ++ ticker) (with_db db' w))
    | inl e =>
        (Value false,
         logged ERROR ("Error inserting " ++ table_name ++ " data for " ++ ticker
                       ++ ": " ++ Sql.message e) w)
    end.

(** A stored row carries the cells [vs] under the columns [cols]; the
    bookkeeping column is left aside. *)
Definition agrees (cols : list string) (vs : list value) (s : gmap string value) : Prop :=
  ∀ i c, cols !! i = Some c → c ≠ "created_at" →
         Sql.cell s c = default VNone (vs !! i).

(** The positions a statement has touched are positions of the table. *)
Definition valid (st : Sql.progress) : Prop :=
  ∀ j, j ∈ Sql.p_touched st → (j < length (Sql.p_rows st))%nat.

(** The rows hold one that carries the key of [vs]: its cell under every
    key column is the cell of [vs], and not NULL. *)
Definition keyed (cols key : list string) (vs : list value)
    (rows : list (gmap string value)) : Prop :=
  ∃ s, s ∈ rows ∧
    ∀ i k, cols !! i = Some k → k ∈ key →
           Sql.cell s k = default VNone (vs !! i) ∧ Sql.cell s k ≠ VNone.

(** Every row of [vals] has a value under every key column. *)
Definition present (cols key : list string) (vals : list (list value)) : Prop :=
  ∀ vs, vs ∈ vals → ∀ i k, cols !! i = Some k → k ∈ key →
                           default VNone (vs !! i) ≠ VNone.

(** The rows a table holds; none when the table does not exist. *)
Definition stored (name : string) (db : gmap string Sql.table)
    : list (gmap string value) :=
  from_option Sql.t_rows [] (db !! name).







(** The tables [create_sql_tables.py] declares, as the catalog spells them. *)
Definition table_names : list string :=
  ["price"; "quarterly_price"; "announcement_price"; "balance_sheet";
   "income_statement"; "cash_flow"; "org_overview"; "calendar_events";
   "exec_payment_packages"; "institution_ownership"; "executive_ownership";
   "valuation_measures"].

(** Every unique index of the database is a primary key on [id]. *)
Definition only_primary_keys (db : Sql.database) : Prop :=
  ∀ name t u, db !! name = Some t → u ∈ Sql.t_unique t → u = ["id"].

(** [db'] is [db] with rows taken away, if anything: every table but
    the institutional holders is as it was, and a table of [db'] is a
    table of [db] with the same indexes and a sublist of its rows. *)
Definition thinned (db db' : Sql.database) : Prop :=
  ∀ name,
    (name ≠ "institution_ownership" → db' !! name = db !! name) ∧
    (∀ t', db' !! name = Some t' →
       ∃ t, db !! name = Some t ∧ Sql.t_unique t' = Sql.t_unique t ∧
            sublist (Sql.t_rows t') (Sql.t_rows t)).

(** [m] leaves the database alone. *)
Definition idle {A} (m : Py A) : Prop :=
  ∀ w r w', m w = (r, w') → w_db w' = w_db w.

(** From a database that satisfies [I], [m] leads to one related by [R]. *)
Definition tracks {A} (I : Sql.database → Prop)
    (R : Sql.database → Sql.database → Prop) (m : Py A) : Prop :=
  ∀ w r w', I (w_db w) → m w = (r, w') → R (w_db w) (w_db w').

(** The statement names a conflict target other than [id]. *)
Definition keyed_beyond_id (q : Sql.insert) : Prop :=
  ∃ k, k ∈ Sql.on_conflict q ∧ fold_ident k ≠ "id".

(** What a statement extractor makes of the table [bs] that [yfinance]
    keeps with one column per fiscal period: one row per period, in the
    order of the periods; the first column holds the period, and it is
    [asOfDate] unless a line item is labelled [index], in which case it is
    [level_0]; the column [symbol] exists and holds the ticker; and the
    column after the [i]-th holds line item [i], as the transposition
    leaves its cells, under its own label, or under [asOfDate] if that
    label is [index]. *)
Definition periods (ticker : string) (bs f : frame) : Prop :=
  length (records f) = length (columns bs) ∧
  head (columns f)
  = Some (if bool_decide ("index" ∈ (records bs).*1) then "level_0" else "asOfDate") ∧
  (∃ i, columns f !! i = Some "symbol") ∧
  (∀ i item, records bs !! i = Some item →
             columns f !! S i
             = Some (if bool_decide (item.1 = "index") then "asOfDate" else item.1)) ∧
  ∀ j period, columns bs !! j = Some period →
    ∃ row, records f !! j = Some row ∧
      head row.2 = Some (VText period) ∧
      (∀ i, columns f !! i = Some "symbol" → row.2 !! i = Some (VText ticker)) ∧
      (∀ i item, records bs !! i = Some item → item.1 ≠ "symbol" →
                 row.2 !! S i = Some (transposed bs j (default VNone (item.2 !! j)))).

(** The outcome of a statement extractor that reads [attr]: nothing for
    no table, an empty table, or a table with a line item labelled
    [index] and one labelled [level_0], which [reset_index] refuses. *)
Definition statement_outcome (E : environment) (attr ticker : string)
    (r : payload) : Prop :=
  match yf_table E attr ticker with
  | Returns (Some bs) =>
      if empty bs then r = PNone
      else if bool_decide ("index" ∈ (records bs).*1 ∧ "level_0" ∈ (records bs).*1)
      then r = PNone
      else ∃ f, r = PFrame f ∧ periods ticker bs f
  | _ => r = PNone
  end.

(** Every row has a cell for every column, as in any [DataFrame]. *)
Definition rectangular (df : frame) : Prop :=
  ∀ row, row ∈ records df → length row.2 = length (columns df).

(** The labels [extract_institution_ownership] gives the columns of the
    holders table. *)
Definition holder_label (c : string) : string :=
  if bool_decide (c = "Holder") then "organization"
  else if bool_decide (c = "% Out") then "pctHeld"
  else if bool_decide (c = "Shares") then "position"
  else if bool_decide (c = "Value") then "value"
  else c.

(** The catalog spells every column in lower case, as PostgreSQL does
    for the identifiers of a statement that does not quote them. *)
Definition folded_catalog (db : Sql.database) : Prop :=
  ∀ name t c, db !! name = Some t → c ∈ Sql.column_names t → fold_ident c = c.

(** [db'] is [db] but for the table [name], which kept its columns and
    indexes and lost no row. *)
Definition grown (name : string) (db db' : Sql.database) : Prop :=
  (∀ n, n ≠ name → db' !! n = db !! n) ∧
  Sql.columns_of db' name = Sql.columns_of db name ∧
  (Sql.t_unique <$> db' !! name) = (Sql.t_unique <$> db !! name) ∧
  (length (stored name db) ≤ length (stored name db'))%nat.

(** What a record insert leaves behind.  It returns [True] only when
    it was given a dict that is not empty, the server answered, every
    placeholder of the statement [q] is a key of the dict as [stamp]
    completes it, and the server accepted the one statement; the database
    is then the statement's result.  Otherwise the database is as it was. *)
Definition record_outcome (q : Sql.insert)
    (stamp : world → gmap string value → gmap string value)
    (data : payload) (w : world) (run : result bool * world) : Prop :=
  (run.1 ≠ Value true → w_db run.2 = w_db w) ∧
  (run.1 = Value true →
   ∃ d vs, data = PDict d ∧ d ≠ ∅ ∧ answers w ∧
     mapM (λ c, stamp w d !! c) (Sql.ins_columns q) = Some vs ∧
     Sql.exec_insert (w_clock w) q [vs] (w_db w) = inr (w_db run.2)).

(** The two formatters the extractor calls without defining them hand
    back, if anything, what the signatures of their callers promise. *)
Definition typed_helpers (E : environment) : Prop :=
  (∀ d t p, _format_alpha_vantage_calendar E d t = Returns p → record_or_none p) ∧
  (∀ d t p, _format_finnhub_insider E d t = Returns p → frame_or_none p).

(** What the signature of the extract method of a data type promises. *)
Definition kind (data_type : string) (p : payload) : Prop :=
  if bool_decide (data_type ∈ ["price"; "org_overview"; "calendar_events";
                                "valuation_measures"])
  then record_or_none p else frame_or_none p.

(** The server is to [w'] what it was to [w]: the database, the coming
    connection attempts, the clock and the insert methods entered. *)
Definition same_server (w w' : world) : Prop :=
  w_db w' = w_db w ∧ w_connects w' = w_connects w ∧ w_clock w' = w_clock w ∧
  entered w' = entered w.

(** [m] stays away from the server, and what it returns satisfies [Q]. *)
Definition offline {A} (Q : A → Prop) (m : Py A) : Prop :=
  ∀ w r w', m w = (r, w') →
    same_server w w' ∧ match r with Value a => Q a | Raise _ => True end.

(** The connections out of a pool, and the pool's connections. *)
Definition out (p : Connection.pool) : list nat := (Connection._used p).*2.

Definition held (p : Connection.pool) : list nat := Connection._pool p ++ out p.

(** The pool is one that [get_connection_pool] makes and the three
    functions keep: open, for one idle connection and five in all; its
    connections are distinct, were opened by the process, and the idle
    ones are not closed; no key is used twice or lies ahead of the
    counter; and there are never more than five of them. *)
Definition pool_sound (p : Connection.pool) (s : Connection.process) : Prop :=
  Connection.minconn p = 1%nat ∧ Connection.maxconn p = 5%nat ∧
  Connection.closed p = false ∧
  NoDup (held p) ∧ NoDup (Connection._used p).*1 ∧
  (∀ c, c ∈ held p → (c < Connection.opened s)%nat) ∧
  (∀ c, c ∈ Connection._pool p → c ∉ Connection.closed_connections s) ∧
  (∀ k, k ∈ (Connection._used p).*1 → (k ≤ Connection._keys p)%nat) ∧
  (length (Connection._pool p) ≤ 1)%nat ∧
  (length (held p) ≤ 5)%nat.

(** The process is in a state the functions of the module lead to. *)
Definition sound (s : Connection.process) : Prop :=
  (∀ c, c ∈ Connection.closed_connections s → (c < Connection.opened s)%nat) ∧
  ∀ p, Connection._connection_pool s = Some p → pool_sound p s.

(** The connections the process has out, and its idle ones. *)
Definition lent (s : Connection.process) : list nat :=
  match Connection._connection_pool s with
  | Some p => out p
  | None => []
  end.

Definition spare (s : Connection.process) : list nat :=
  match Connection._connection_pool s with
  | Some p => Connection._pool p
  | None => []
  end.

(** The last record of the log. *)
Definition last_record (s : Connection.process) : option log_record :=
  last (Connection.log s).

(** * Scenarios *)

(** The round trip of the specification: a row with columns a, b and c,
    its cells text, against a table that has a and c (and the bookkeeping
    column every table of the schema carries), unique on a. *)
Definition abc_frame : frame :=
  {| columns := ["a"; "b"; "c"];
     records := [("0", [VText "x"; VText "y"; VText "z"])] |}.





(** The database as [create_all_tables] leaves it, nothing else said. *)
Definition declared_world : world := mkWorld (create_all_tables ∅) [] 0 [] [].

(** The value a run returned, [d] if it raised. *)
Definition returned {A} (d : A) (run : result A * world) : A :=
  match run.1 with
  | Value a => a
  | Raise _ => d
  end.

(** A market in which [yfinance] knows ACME: a quote, and a balance
    sheet of four fiscal periods.  The two helpers the extractor does not
    define raise the [AttributeError] Python raises for them. *)
Definition acme_statement : frame :=
  {| columns := ["2020-12-31"; "2021-12-31"; "2022-12-31"; "2023-12-31"];
     records := [("TotalAssets", [VInt 100; VInt 110; VInt 120; VInt 130]);
                 ("Goodwill", [VInt 5; VInt 5; VInt 6; VInt 7])] |}.

Definition acme_market : environment :=
  {| yf_info := λ _, Returns (list_to_map
       [("regularMarketPrice", VInt 10); ("currency", VText "USD");
        ("exchange", VText "NMS"); ("longName", VText "Acme Corporation")]);
     yf_table := λ attr _,
       if bool_decide (attr = "balance_sheet") then Returns (Some acme_statement)
       else Returns None;
     yf_download := λ _ _, Raises "no data";
     yf_history := λ _, Raises "no data";
     add_business_days := λ d _, d;
     change_percent := λ _ _, VNone;
     quarterly_records := λ _ _, Returns [];
     _format_alpha_vantage_calendar := λ _ _,
       Raises "'StockDataExtractor' object has no attribute '_format_alpha_vantage_calendar'";
     _format_finnhub_insider := λ _ _,
       Raises "'StockDataExtractor' object has no attribute '_format_finnhub_insider'" |}.

(** The same market on a day [yfinance] is down. *)
Definition yfinance_down : environment :=
  {| yf_info := λ _, Raises "HTTPError";
     yf_table := λ _ _, Raises "HTTPError";
     yf_download := λ _ _, Raises "HTTPError";
     yf_history := λ _, Raises "HTTPError";
     add_business_days := add_business_days acme_market;
     change_percent := change_percent acme_market;
     quarterly_records := quarterly_records acme_market;
     _format_alpha_vantage_calendar := _format_alpha_vantage_calendar acme_market;
     _format_finnhub_insider := _format_finnhub_insider acme_market |}.

(** The same market on a day [yfinance] answers for ACME with a profile
    that has one field and no value under it. *)
Definition null_market : environment :=
  {| yf_info := λ _, Returns {["longName" := VNone]};
     yf_table := yf_table yfinance_down;
     yf_download := yf_download yfinance_down;
     yf_history := yf_history yfinance_down;
     add_business_days := add_business_days acme_market;
     change_percent := change_percent acme_market;
     quarterly_records := quarterly_records acme_market;
     _format_alpha_vantage_calendar := _format_alpha_vantage_calendar acme_market;
     _format_finnhub_insider := _format_finnhub_insider acme_market |}.

(** A client that answers every request with data. *)
Definition obliging : client := λ _ ticker, Returns (PDict {["symbol" := VText ticker]}).

Definition all_clients : StockDataExtractor :=
  mkExtractor (Some obliging) (Some obliging) (Some obliging).

Definition no_clients : StockDataExtractor := mkExtractor None None None.

(** What the extractor makes of ACME's balance sheet and quote. *)
Definition acme_sheet : payload :=
  returned PNone (extract_balance_sheet acme_market "ACME" false declared_world).

Definition acme_quote : payload :=
  returned PNone (extract_price_data acme_market no_clients "ACME" declared_world).

(** The declared schema with the unique indexes the conflict targets of
    the balance sheet and of the price name. *)
Definition indexed_world : world :=
  mkWorld (Sql.create_unique_index "price" ["symbol"; "regularMarketTime"]
            (Sql.create_unique_index "balance_sheet" ["symbol"; "asOfDate"]
              (create_all_tables ∅)))
          [] 0 [] [].

(** A frame whose columns are spelled as the catalog spells them, its
    cells text. *)
Definition acme_goodwill : frame :=
  {| columns := ["symbol"; "asofdate"; "goodwill"];
     records := [("0", [VText "ACME"; VText "2022-12-31"; VText "6"]);
                 ("1", [VText "ACME"; VText "2023-12-31"; VText "7"])] |}.



Definition no_rows : frame := {| columns := ["symbol"; "asofdate"]; records := [] |}.

(** The number of rows a table holds. *)
Definition rows_in (name : string) (db : gmap string Sql.table) : nat :=
  from_option (λ t, length (Sql.t_rows t)) 0%nat (db !! name).

Definition row_count (name : string) (w : world) : nat := rows_in name (w_db w).

(** Two holders on file, one of ACME and one of another ticker. *)
Definition holders_table : Sql.table :=
  {| Sql.t_columns := id_column :: plain ["symbol"; "organization"; "pctheld";
                                          "position"; "value"]
                      ++ [created_at_column];
     Sql.t_unique := [["id"]];
     Sql.t_serial := 3;
     Sql.t_rows :=
       [list_to_map [("id", VInt 1); ("symbol", VText "ACME");
                     ("organization", VText "Vanguard")];
        list_to_map [("id", VInt 2); ("symbol", VText "INIT");
                     ("organization", VText "Vanguard")]] |}.

Definition holders_world : world :=
  mkWorld (<["institution_ownership" := holders_table]> (create_all_tables ∅))
          [] 0 [] [].

(** What the extractor hands over for ACME, and a run in which the
    server refuses the second connection. *)
Definition acme_data : gmap string payload :=
  returned ∅ (extract_all_data acme_market no_clients "ACME" false declared_world).

Definition second_connection_refused : world :=
  mkWorld (create_all_tables ∅) [true; false] 0 [] [].


(** The declared schema with a unique index for the conflict target of
    every record statement. *)
Definition record_indexes : Sql.database :=
  Sql.create_unique_index "org_overview" ["symbol"]
    (Sql.create_unique_index "calendar_events" ["symbol"; "earnings_date"]
      (Sql.create_unique_index "valuation_measures" ["symbol"; "asOfDate"]
        (Sql.create_unique_index "quarterly_price" ["symbol"; "quarter"; "year"]
          (create_all_tables ∅)))).

Definition record_world : world := mkWorld record_indexes [] 0 [] [].

(** What the extractor makes of ACME's profile and valuation, and a
    calendar entry for ACME. *)
Definition acme_profile : gmap string value :=
  match returned PNone (extract_org_overview acme_market no_clients "ACME" declared_world) with
  | PDict d => d
  | _ => ∅
  end.

Definition acme_valuation : gmap string value :=
  match returned PNone (extract_valuation_measures acme_market "ACME" declared_world) with
  | PDict d => d
  | _ => ∅
  end.

Definition acme_calendar : gmap string value :=
  list_to_map [("symbol", VText "ACME"); ("earnings_date", VText "2024-02-01");
               ("earnings_average", VInt 2); ("earnings_low", VInt 1);
               ("earnings_high", VInt 3); ("revenue_average", VInt 100)].

(** A process that has just started, with the server's coming answers. *)
Definition started (server : list bool) : Connection.process :=
  Connection.mkProcess None server 0 [] [].

(** A process whose server always answers, after two callers have each
    taken a connection. *)
Definition two_lent : Connection.process :=
  (Connection.get_db_connection (Connection.get_db_connection (started [])).2).2.

(** * Properties *)

(** *** The fallback loop *)

Lemma for_apis_total body what ticker apis w :
  ∃ r w', for_apis body what ticker apis w = (Value r, w').
Proof.
  revert w. induction apis as [|api rest IH]; intros w; simpl; [by eauto|].
  destruct (body api w) as [[[r|]|e] w1]; [by eauto|apply IH|].
  unfold bind, logger. apply IH.
Qed.

Lemma for_apis_exhausted body what ticker apis w :
  (∀ api w r w', api ∈ apis → body api w ≠ (Value (Some r), w')) →
  ∃ w', for_apis body what ticker apis w = (Value None, w').
Proof.
  revert w. induction apis as [|api rest IH]; intros w Hbody; simpl; [by eauto|].
  destruct (body api w) as [[[r|]|e] w1] eqn:Hb.
  - exfalso. eapply (Hbody api); [left|done].
  - apply IH. intros api' w2 r w3 Hin. apply Hbody. by right.
  - unfold bind, logger. apply IH. intros api' w2 r w3 Hin. apply Hbody. by right.
Qed.

(** Once a body returns, the rest of the list is not looked at. *)
Lemma for_apis_returns body what ticker before api after w r :
  (∀ a w1 x w2, a ∈ before → body a w1 ≠ (Value (Some x), w2)) →
  (∀ w1, ∃ w2, body api w1 = (Value (Some r), w2)) →
  ∃ w1 w2, for_apis body what ticker (before ++ api :: after) w = (Value (Some r), w2)
           ∧ body api w1 = (Value (Some r), w2).
Proof.
  revert w. induction before as [|b rest IH]; intros w Hb Hapi; simpl.
  - destruct (Hapi w) as [w2 Hw2]. exists w, w2. by rewrite Hw2.
  - destruct (body b w) as [[[x|]|e] w1] eqn:Hbw.
    + exfalso. eapply (Hb b); [left|done].
    + apply IH; [|done]. intros a w2 x w3 Hin. apply Hb. by right.
    + unfold bind, logger. apply IH; [|done]. intros a w2 x w3 Hin. apply Hb. by right.
Qed.

Lemma priority_price : priority "price" = ["yfinance"; "alpha_vantage"].
Proof. reflexivity. Qed.

Ltac py_unfold :=
  unfold via_client, ask, helper, truthy, bind, ret, raise, logger, note,
    try_except, finally in *.

Lemma exhausted_fetch E self d ticker q api r :
  exhausted E self d ticker q → api ∈ priority d →
  provider_fetch E self d api ticker q = Some r → fails_or_empty r.
Proof. intros H ? ?. by eapply H. Qed.

Lemma get_empty k : get ∅ k = VNone.
Proof. done. Qed.

Lemma extract_price_data_exhausted E self ticker q w :
  exhausted E self "price" ticker q →
  ∃ w', extract_price_data E self ticker w = (Value PNone, w').
Proof.
  intros Hex. unfold extract_price_data.
  unfold bind at 1.
  edestruct for_apis_exhausted as [w1 ->]; [|py_unfold; simpl; eauto].
  intros api w0 r w' Hin. rewrite priority_price in Hin.
  repeat (apply elem_of_cons in Hin as [->|Hin]); [| |by apply elem_of_nil in Hin].
  - pose proof (exhausted_fetch E self _ ticker q "yfinance" _ Hex ltac:(rewrite priority_price; set_solver) eq_refl) as H.
    py_unfold. simpl. destruct (yf_info E ticker) as [|info]; simpl in *; [done|].
    apply bool_decide_eq_true_1 in H as ->. done.
  - simpl. destruct (alpha_vantage_client self) as [c|] eqn:Hc; [|done].
    pose proof (λ r, Hex "alpha_vantage" r ltac:(rewrite priority_price; set_solver)) as H.
    unfold provider_fetch in H. simpl in H. rewrite Hc in H. specialize (H _ eq_refl).
    py_unfold. simpl. destruct (c _ ticker) as [|[|dd|f]]; simpl in *; try done.
    rewrite H. done.
Qed.

Ltac in_priority := apply list_elem_of_In; vm_compute; auto 10.

(** Split [api ∈ priority d] into one goal per listed provider. *)
Ltac each_api Hin :=
  apply list_elem_of_In in Hin; vm_compute in Hin;
  repeat (destruct Hin as [<-|Hin]); [..|destruct Hin].

(** What [exhausted] says of the request sent to [api]. *)
Ltac fetch_of Hex api :=
  let H := fresh "Hfetch" in
  pose proof (λ r, Hex api r ltac:(in_priority)) as H;
  unfold provider_fetch, from_client in H; simpl in H.

Ltac client_case c Hfetch :=
  let Hc := fresh "Hc" in
  destruct c as [?|] eqn:Hc; [|done];
  try (simpl in Hfetch; specialize (Hfetch _ eq_refl));
  py_unfold; simpl;
  match goal with
  | |- context [?k ?m ?t] =>
      lazymatch type of (k m t) with
      | fetched payload => destruct (k m t) as [|[|?|?]]; simpl in *; try done
      end
  end;
  try match goal with H : bool_decide _ = true |- _ => rewrite H; done end.

Ltac dict_case E ticker Hfetch :=
  specialize (Hfetch _ eq_refl); py_unfold; simpl;
  destruct (yf_info E ticker) as [|?]; simpl in *; [done|];
  apply bool_decide_eq_true_1 in Hfetch as ->; done.

Ltac table_case Hfetch :=
  specialize (Hfetch _ eq_refl); py_unfold; simpl;
  match goal with
  | |- context [yf_table ?E ?a ?t] =>
      destruct (yf_table E a t) as [|[?|]]; simpl in *; try done
  end;
  try (rewrite Hfetch; done).

Lemma extract_org_overview_exhausted E self ticker q w :
  exhausted E self "org_overview" ticker q →
  ∃ w', extract_org_overview E self ticker w = (Value PNone, w').
Proof.
  intros Hex. unfold extract_org_overview. unfold bind at 1.
  edestruct for_apis_exhausted as [w1 ->]; [|py_unfold; simpl; eauto].
  intros api w0 r w' Hin. each_api Hin; simpl.
  - fetch_of Hex "yfinance". dict_case E ticker Hfetch.
  - fetch_of Hex "fmp". client_case (fmp_client self) Hfetch.
  - fetch_of Hex "finnhub". client_case (finnhub_client self) Hfetch.
Qed.

Lemma extract_calendar_events_exhausted E self ticker q w :
  exhausted E self "calendar_events" ticker q →
  ∃ w', extract_calendar_events E self ticker w = (Value PNone, w').
Proof.
  intros Hex. unfold extract_calendar_events. unfold bind at 1.
  edestruct for_apis_exhausted as [w1 ->]; [|py_unfold; simpl; eauto].
  intros api w0 r w' Hin. each_api Hin; simpl.
  - fetch_of Hex "yfinance". table_case Hfetch.
  - fetch_of Hex "fmp". client_case (fmp_client self) Hfetch.
  - fetch_of Hex "alpha_vantage". client_case (alpha_vantage_client self) Hfetch.
Qed.


Ltac statement_exhausted Hex :=
  unfold extract_statement; unfold bind at 1;
  edestruct for_apis_exhausted as [? ->]; [|py_unfold; simpl; eauto];
  let Hin := fresh "Hin" in
  intros ? ? ? ? Hin; each_api Hin; simpl; [|done..];
  fetch_of Hex "yfinance";
  match goal with H : ∀ r, _ → fails_or_empty r |- _ => table_case H end.

Lemma extract_balance_sheet_exhausted E self ticker q w :
  exhausted E self "balance_sheet" ticker q →
  ∃ w', extract_balance_sheet E ticker q w = (Value PNone, w').
Proof. intros Hex. unfold extract_balance_sheet. statement_exhausted Hex. Qed.

Lemma extract_income_statement_exhausted E self ticker q w :
  exhausted E self "income_statement" ticker q →
  ∃ w', extract_income_statement E ticker q w = (Value PNone, w').
Proof. intros Hex. unfold extract_income_statement. statement_exhausted Hex. Qed.

Lemma extract_cash_flow_exhausted E self ticker q w :
  exhausted E self "cash_flow" ticker q →
  ∃ w', extract_cash_flow E ticker q w = (Value PNone, w').
Proof. intros Hex. unfold extract_cash_flow. statement_exhausted Hex. Qed.

Lemma extract_valuation_measures_exhausted E self ticker q w :
  exhausted E self "valuation_measures" ticker q →
  ∃ w', extract_valuation_measures E ticker w = (Value PNone, w').
Proof.
  intros Hex. unfold extract_valuation_measures. unfold bind at 1.
  edestruct for_apis_exhausted as [w1 ->]; [|py_unfold; simpl; eauto].
  intros api w0 r w' Hin. each_api Hin; simpl; [|done].
  fetch_of Hex "yfinance". dict_case E ticker Hfetch.
Qed.

Lemma extract_institution_ownership_exhausted E self ticker q w :
  exhausted E self "institution_ownership" ticker q →
  ∃ w', extract_institution_ownership E ticker w = (Value PNone, w').
Proof.
  intros Hex. unfold extract_institution_ownership. unfold bind at 1.
  edestruct for_apis_exhausted as [w1 ->]; [|py_unfold; simpl; eauto].
  intros api w0 r w' Hin. each_api Hin; simpl; [|done].
  fetch_of Hex "yfinance". table_case Hfetch.
Qed.

Lemma extract_executive_ownership_exhausted E self ticker q w :
  exhausted E self "executive_ownership" ticker q →
  ∃ w', extract_executive_ownership E self ticker w = (Value PNone, w').
Proof.
  intros Hex. unfold extract_executive_ownership. unfold bind at 1.
  edestruct for_apis_exhausted as [w1 ->]; [|py_unfold; simpl; eauto].
  intros api w0 r w' Hin. each_api Hin; simpl; [|done].
  fetch_of Hex "finnhub". client_case (finnhub_client self) Hfetch.
Qed.

Lemma extract_announcement_price_exhausted E self ticker q w :
  exhausted E self "announcement_price" ticker q →
  ∃ w', extract_announcement_price E ticker w = (Value PNone, w').
Proof.
  intros Hex. fetch_of Hex "yfinance". specialize (Hfetch _ eq_refl).
  unfold extract_announcement_price. py_unfold. simpl.
  destruct (yf_table E "earnings_dates" ticker) as [|[dates|]]; simpl in *; eauto.
  rewrite Hfetch. eauto.
Qed.

(** *** No extract method raises *)

Ltac loop_total :=
  intros; unfold bind at 1;
  match goal with
  | |- context [for_apis ?b ?what ?t ?l ?w] =>
      destruct (for_apis_total b what t l w) as ([?|] & ? & ->)
  end; py_unfold; simpl; eauto.

Lemma extract_price_data_total E self ticker w :
  ∃ r w', extract_price_data E self ticker w = (Value r, w').
Proof. unfold extract_price_data. loop_total. Qed.

Lemma extract_org_overview_total E self ticker w :
  ∃ r w', extract_org_overview E self ticker w = (Value r, w').
Proof. unfold extract_org_overview. loop_total. Qed.

Lemma extract_calendar_events_total E self ticker w :
  ∃ r w', extract_calendar_events E self ticker w = (Value r, w').
Proof. unfold extract_calendar_events. loop_total. Qed.

Lemma extract_statement_total E d what a qa renaming ticker q w :
  ∃ r w', extract_statement E d what a qa renaming ticker q w = (Value r, w').
Proof. unfold extract_statement. loop_total. Qed.

Lemma extract_valuation_measures_total E ticker w :
  ∃ r w', extract_valuation_measures E ticker w = (Value r, w').
Proof. unfold extract_valuation_measures. loop_total. Qed.

Lemma extract_institution_ownership_total E ticker w :
  ∃ r w', extract_institution_ownership E ticker w = (Value r, w').
Proof. unfold extract_institution_ownership. loop_total. Qed.

Lemma extract_executive_ownership_total E self ticker w :
  ∃ r w', extract_executive_ownership E self ticker w = (Value r, w').
Proof. unfold extract_executive_ownership. loop_total. Qed.

Lemma extract_announcement_price_total E ticker w :
  ∃ r w', extract_announcement_price E ticker w = (Value r, w').
Proof.
  unfold extract_announcement_price, try_except.
  match goal with |- context [match ?m w with _ => _ end] => destruct (m w) as [[r|e] w1] end;
    py_unfold; simpl; eauto.
Qed.

Lemma extract_spec E self ticker q d m :
  extract E self d ticker q = Some m →
  (∀ w, ∃ r w', m w = (Value r, w')) ∧
  (exhausted E self d ticker q → ∀ w, ∃ w', m w = (Value PNone, w')).
Proof.
  unfold extract. repeat case_bool_decide; subst; intros [= <-]; split; intros.
  - apply extract_price_data_total.
  - by eapply extract_price_data_exhausted.
  - apply extract_org_overview_total.
  - by eapply extract_org_overview_exhausted.
  - apply extract_calendar_events_total.
  - by eapply extract_calendar_events_exhausted.
  - apply extract_statement_total.
  - by eapply extract_balance_sheet_exhausted.
  - apply extract_statement_total.
  - by eapply extract_income_statement_exhausted.
  - apply extract_statement_total.
  - by eapply extract_cash_flow_exhausted.
  - apply extract_valuation_measures_total.
  - by eapply extract_valuation_measures_exhausted.
  - apply extract_institution_ownership_total.
  - by eapply extract_institution_ownership_exhausted.
  - apply extract_executive_ownership_total.
  - by eapply extract_executive_ownership_exhausted.
  - apply extract_announcement_price_total.
  - by eapply extract_announcement_price_exhausted.
Qed.

Lemma extract_defined E self ticker q d :
  d ∈ data_types → is_Some (extract E self d ticker q).
Proof.
  intros Hin. apply list_elem_of_In in Hin. vm_compute in Hin.
  repeat (destruct Hin as [<-|Hin]); [..|destruct Hin]; by eexists.
Qed.

Lemma extract_each_spec E self ticker q types : ∀ results w,
  (∀ d, d ∈ types → is_Some (extract E self d ticker q)) →
  ∃ results' w',
    extract_each E self ticker q types results w = (Value results', w') ∧
    (∀ d, is_Some (results !! d) → d ∉ types → results' !! d = results !! d) ∧
    (∀ d, d ∈ types → is_Some (results' !! d)) ∧
    (∀ d, d ∈ types → exhausted E self d ticker q → results' !! d = Some PNone).
Proof.
  induction types as [|d rest IH]; intros results w Hdef; simpl.
  - exists results, w. split; [done|]. split; [done|]. split; intros ? Hin; by apply elem_of_nil in Hin.
  - unfold bind at 1, logger.
    destruct (Hdef d) as [m Hm]; [by left|]. rewrite Hm.
    destruct (extract_spec _ _ _ _ _ _ Hm) as [Htot Hex].
    unfold bind at 1.
    match goal with |- context [m ?w0] => destruct (Htot w0) as (r & w1 & Hr); rewrite Hr end.
    destruct (IH (<[d := r]> results) w1) as (results' & w' & Hrun & Hkeep & Hsome & Hnone).
    { intros d' Hd'. apply Hdef. by right. }
    exists results', w'. split; [done|].
    assert (Hd : d ∈ rest ∨ results' !! d = Some r).
    { destruct (decide (d ∈ rest)) as [|Hnot]; [by left|right].
      rewrite Hkeep; [by rewrite lookup_insert_eq| by rewrite lookup_insert_eq |done]. }
    split; [|split].
    + intros d' Hd' Hnot. apply not_elem_of_cons in Hnot as [Hne Hnot].
      rewrite Hkeep; [by rewrite lookup_insert_ne| by rewrite lookup_insert_ne |done].
    + intros d' [->|Hd']%elem_of_cons; [|by apply Hsome].
      destruct Hd as [Hd|Hd]; [by apply Hsome|by rewrite Hd].
    + intros d' [->|Hd']%elem_of_cons Hexh; [|by apply Hnone].
      destruct Hd as [Hd|Hd]; [by apply Hnone|].
      rewrite Hd. f_equal.
      match type of Hr with m ?w0 = _ => destruct (Hex Hexh w0) as [w2 Hr2] end.
      congruence.
Qed.

Lemma extract_each_others E self ticker q types : ∀ results w results' w' d,
  extract_each E self ticker q types results w = (Value results', w') →
  d ∉ types → results' !! d = results !! d.
Proof.
  induction types as [|d0 rest IH]; intros results w results' w' d; simpl.
  - by intros [= <- <-].
  - intros Hrun [Hne Hnot]%not_elem_of_cons.
    unfold bind at 1, logger in Hrun.
    destruct (extract E self d0 ticker q) as [m|].
    + unfold bind at 1 in Hrun.
      destruct (m _) as [[r|e] w1]; [|done].
      rewrite (IH _ _ _ _ d Hrun Hnot). by rewrite lookup_insert_ne.
    + by apply (IH _ _ _ _ d Hrun Hnot).
Qed.

Lemma pick_is_dict E self ticker info w :
  yf_info E ticker = Returns info → info ≠ ∅ →
  (∃ d w', extract_org_overview E self ticker w = (Value (PDict d), w')) ∧
  (∃ d w', extract_valuation_measures E ticker w = (Value (PDict d), w')).
Proof.
  intros Hinfo Hne. split.
  - unfold extract_org_overview.
    change (priority "org_overview") with ["yfinance"; "fmp"; "finnhub"].
    unfold for_apis. rewrite Hinfo. py_unfold. simpl.
    rewrite bool_decide_true by done. simpl. by eexists _, _.
  - unfold extract_valuation_measures.
    change (priority "valuation_measures") with ["yfinance"; "fmp"].
    unfold for_apis. rewrite Hinfo. py_unfold. simpl.
    rewrite bool_decide_true by done. simpl. by eexists _, _.
Qed.

(** C2, as stated, fails twice over.  A profile whose one field holds no
    value is an all-null payload, and [extract_org_overview] and
    [extract_valuation_measures] return a dict for it, not [None]; and
    [exec_payment_packages], a category with a priority list of its own,
    has no entry in what [extract_all_data] returns. *)
Lemma null_profile_is_data :
  (∀ api r, api ∈ priority "org_overview" →
     provider_fetch null_market no_clients "org_overview" api "ACME" false = Some r →
     ∃ p, r = Returns p ∧ all_null p)
  ∧ (extract_org_overview null_market no_clients "ACME" declared_world).1 ≠ Value PNone
  ∧ (extract_valuation_measures null_market "ACME" declared_world).1 ≠ Value PNone
  ∧ api_priority !! "exec_payment_packages" = Some []
  ∧ returned ∅ (extract_all_data null_market no_clients "ACME" false declared_world)
      !! "exec_payment_packages" = None.
Proof.
  split; [|by vm_compute].
  intros api r Hapi Hfetch. apply list_elem_of_In in Hapi. vm_compute in Hapi.
  destruct Hapi as [<-|[<-|[<-|[]]]]; [|discriminate Hfetch..].
  injection Hfetch as <-. eexists. split; [done|]. intros k. unfold get.
  destruct (decide (k = "longName")) as [->|Hne].
  - by rewrite lookup_singleton_eq.
  - by rewrite lookup_singleton_ne.
Qed.

(** C2, amended.  Every one of the ten data types of [extract_all_data]
    has an extract method, and no extract method lets an exception out:
    whatever the providers do, it returns.  If every provider of the
    priority list that the method asks raises or comes back empty (no
    value, an empty dict, an empty table), the method returns [None].
    [extract_all_data] returns a dict with an entry for each of the ten,
    [None] for each exhausted one, and no other entry: none for
    [exec_payment_packages], which has a priority list and no method.
    Emptiness is that of the container: for a profile that has a key,
    whatever it holds, the overview and the valuation come back as a
    dict. *)
Theorem exhausted_providers_give_no_data E self ticker quarterly :
  (∀ data_type, data_type ∈ data_types →
     ∃ method, extract E self data_type ticker quarterly = Some method ∧
       (∀ w, ∃ r w', method w = (Value r, w')) ∧
       (exhausted E self data_type ticker quarterly →
        ∀ w, ∃ w', method w = (Value PNone, w'))) ∧
  (∀ w, ∃ results w',
     extract_all_data E self ticker quarterly w = (Value results, w') ∧
     (∀ data_type, data_type ∈ data_types → is_Some (results !! data_type)) ∧
     (∀ data_type, data_type ∈ data_types →
        exhausted E self data_type ticker quarterly →
        results !! data_type = Some PNone) ∧
     (∀ data_type, data_type ∉ data_types → results !! data_type = None)) ∧
  (is_Some (api_priority !! "exec_payment_packages") ∧
   ("exec_payment_packages" ∉ data_types) ∧
   extract E self "exec_payment_packages" ticker quarterly = None) ∧
  (∀ info, yf_info E ticker = Returns info → info ≠ ∅ →
     ∀ w, (∃ d w', extract_org_overview E self ticker w = (Value (PDict d), w')) ∧
          (∃ d w', extract_valuation_measures E ticker w = (Value (PDict d), w'))).
Proof.
  split; [|split; [|split]].
  - intros d Hd. destruct (extract_defined E self ticker quarterly d Hd) as [m Hm].
    exists m. split; [done|]. by apply extract_spec.
  - intros w. unfold extract_all_data.
    destruct (extract_each_spec E self ticker quarterly data_types ∅ w)
      as (results & w' & Hrun & _ & Hsome & Hnone).
    { intros. by apply extract_defined. }
    exists results, w'. split; [done|]. split; [done|]. split; [done|].
    intros d Hd. by rewrite (extract_each_others _ _ _ _ _ _ _ _ _ d Hrun Hd).
  - split; [by eexists|]. split; [|done].
    intros Hin. apply list_elem_of_In in Hin. vm_compute in Hin. intuition discriminate.
  - intros info Hinfo Hne w. by eapply pick_is_dict.
Qed.

Lemma get_db_connection_answers w :
  answers w → get_db_connection w = (Value (w_db w), attempted w).
Proof.
  unfold answers, get_db_connection. destruct (w_connects w) as [|[] ?]; simpl; done.
Qed.

Lemma get_db_connection_refused w rest :
  w_connects w = false :: rest →
  get_db_connection w =
    (Raise OperationalError,
     logged ERROR ("Database connection failed: " ++ str OperationalError) (attempted w)).
Proof. unfold get_db_connection. intros ->. done. Qed.

Lemma insert_dataframe_to_table_connected df table_name ticker conflict_key w :
  empty df = false → answers w →
  insert_dataframe_to_table (PFrame df) table_name ticker conflict_key w
  = upsert_outcome df table_name ticker conflict_key (attempted w).
Proof.
  intros Hne Hans. unfold insert_dataframe_to_table, upsert_outcome. rewrite Hne.
  unfold bind at 1. rewrite get_db_connection_answers by done.
  unfold finally, try_except, _get_table_columns, close. simpl.
  destruct (empty (select _ df)); [done|].
  unfold execute_values, now, sql. py_unfold. simpl.
  destruct (Sql.exec_inserts _ _ _ _); done.
Qed.

(** *** Data frames *)

Lemma occurrences_spec name cols : ∀ from j,
  j ∈ occurrences from name cols ↔ ∃ i, j = (from + i)%nat ∧ cols !! i = Some name.
Proof.
  induction cols as [|c rest IH]; intros from j; simpl.
  - split; [by intros ?%elem_of_nil|by intros (? & _ & ?)].
  - rewrite elem_of_app, IH. split.
    + intros [Hj|(i & -> & Hi)].
      * case_bool_decide as Hc; [|by apply elem_of_nil in Hj].
        apply list_elem_of_singleton in Hj as ->. exists 0%nat. split; [lia|by subst].
      * exists (S i). split; [lia|done].
    + intros ([|i] & -> & Hi); simpl in Hi.
      * left. injection Hi as ->. rewrite bool_decide_true by done.
        rewrite Nat.add_0_r. by left.
      * right. exists i. split; [lia|done].
Qed.

Lemma positions_nil names cols :
  (∀ n, n ∈ names → n ∈ cols) → positions names cols = [] → names = [].
Proof.
  intros Hsub. destruct names as [|n rest]; [done|]. unfold positions. simpl.
  intros [Hn _]%app_eq_nil. exfalso.
  destruct (list_elem_of_lookup_1 cols n) as [i Hi]; [apply Hsub; by left|].
  assert (Hin : (0 + i)%nat ∈ occurrences 0 n cols) by (apply occurrences_spec; eauto).
  rewrite Hn in Hin. by apply elem_of_nil in Hin.
Qed.

Lemma intersect_spec df schema c :
  c ∈ intersect df schema ↔ c ∈ columns df ∧ c ∈ schema.
Proof. unfold intersect. rewrite list_elem_of_filter. tauto. Qed.

Lemma fmap_eq_nil {A B} (f : A → B) (l : list A) : f <$> l = [] ↔ l = [].
Proof. split; [apply fmap_nil_inv|by intros ->]. Qed.

Lemma select_empty df schema :
  empty df = false →
  empty (select (intersect df schema) df) = bool_decide (intersect df schema = []).
Proof.
  unfold empty. intros [Hc Hr]%orb_false_elim.
  apply bool_decide_eq_false_1 in Hr.
  unfold select; simpl.
  rewrite (bool_decide_ext (_ <$> records df = []) False) by (rewrite fmap_eq_nil; tauto).
  rewrite (bool_decide_false False), orb_false_r by tauto.
  apply bool_decide_ext. rewrite fmap_eq_nil. split.
  - apply positions_nil. intros n Hn. by apply intersect_spec in Hn as [? _].
  - by intros ->.
Qed.

(** *** Rows proposed for insertion *)

Lemma list_find_NoDup (cols : list string) i c :
  NoDup cols → cols !! i = Some c →
  list_find (λ x, x = c) cols = Some (i, c).
Proof.
  intros Hnd Hi. apply list_find_Some. split; [done|]. split; [done|].
  intros j y Hj Hlt ->. assert (i = j) by by eapply NoDup_lookup. lia.
Qed.


Lemma list_to_map_named {A} (f : Sql.column → A) (a : A)
    (l : list Sql.column) c :
  (∀ col, col ∈ l → Sql.col_name col = c → f col = a) →
  c ∈ Sql.col_name <$> l →
  (list_to_map ((λ col, (Sql.col_name col, f col)) <$> l) : gmap string A) !! c
  = Some a.
Proof.
  induction l as [|col l IH]; simpl; intros Hf Hin.
  - by apply elem_of_nil in Hin.
  - destruct (decide (Sql.col_name col = c)) as [Heq|Hne].
    + rewrite <- Heq at 1. rewrite lookup_insert_eq. f_equal. apply Hf; [by left|done].
    + rewrite lookup_insert_ne by done. apply IH.
      * intros col' Hcol'. apply Hf. by right.
      * apply elem_of_cons in Hin as [Hin|Hin]; [congruence|done].
Qed.

Lemma proposed_cell t cols vs now serial i c :
  NoDup cols → cols !! i = Some c → c ∈ Sql.column_names t →
  Sql.cell (Sql.proposed t cols vs now serial) c = default VNone (vs !! i).
Proof.
  intros Hnd Hi Hin. unfold Sql.cell, Sql.proposed.
  rewrite (list_to_map_named _ (default VNone (vs !! i))); [done| |done].
  intros col _ ->. by rewrite (list_find_NoDup cols i) by done.
Qed.

(** *** One statement, row by row *)

Lemma conflicts_cell key p s k :
  Sql.conflicts key p s = true → k ∈ key → Sql.cell s k = Sql.cell p k.
Proof.
  unfold Sql.conflicts. rewrite forallb_forall. intros H Hk.
  apply list_elem_of_In in Hk. specialize (H _ Hk). simpl in H.
  destruct (Sql.cell p k), (Sql.cell s k); try done;
    by apply bool_decide_eq_true_1 in H.
Qed.

Lemma foldr_update_in (u : list string) (p old : gmap string value) c :
  c ∈ u →
  Sql.cell (foldr (λ c r, <[c := Sql.cell p c]> r) old u) c = Sql.cell p c.
Proof.
  induction u as [|a u IH]; simpl; intros Hin; [by apply elem_of_nil in Hin|].
  unfold Sql.cell at 1. destruct (decide (a = c)) as [->|Hne].
  - by rewrite lookup_insert_eq.
  - rewrite lookup_insert_ne by done. apply elem_of_cons in Hin as [?|Hin]; [congruence|].
    by apply IH.
Qed.

Lemma foldr_update_out (u : list string) (p old : gmap string value) c :
  c ∉ u →
  Sql.cell (foldr (λ c r, <[c := Sql.cell p c]> r) old u) c = Sql.cell old c.
Proof.
  induction u as [|a u IH]; simpl; intros Hin; [done|].
  apply not_elem_of_cons in Hin as [Hne Hin].
  unfold Sql.cell at 1. rewrite lookup_insert_ne by done. by apply IH.
Qed.

Lemma apply_update_cell u now p old c :
  c ≠ "created_at" →
  Sql.cell (Sql.apply_update u now p old) c
  = if bool_decide (c ∈ u) then Sql.cell p c else Sql.cell old c.
Proof.
  intros Hne. unfold Sql.apply_update. unfold Sql.cell at 1.
  rewrite lookup_insert_ne by done. case_bool_decide.
  - by apply foldr_update_in.
  - by apply foldr_update_out.
Qed.

Section Statement.

Variables (t : Sql.table) (cols key u : list string) (now : Z).
Hypothesis Hnd : NoDup cols.
Hypothesis Hsub : ∀ c, c ∈ cols → c ∈ Sql.column_names t.
Hypothesis Hcov : ∀ c, c ∈ cols → c ∈ u ∨ c ∈ key.

Lemma step_stores st vs st' :
  Sql.step t cols key (Sql.DoUpdateSet u) now st vs = inr st' → valid st →
  valid st' ∧
  (∀ j, j ∈ Sql.p_touched st → Sql.p_rows st' !! j = Sql.p_rows st !! j) ∧
  (∀ j, j ∈ Sql.p_touched st → j ∈ Sql.p_touched st') ∧
  ∃ i s, i ∈ Sql.p_touched st' ∧ Sql.p_rows st' !! i = Some s ∧ agrees cols vs s.
Proof.
  unfold Sql.step. intros Hstep Hvalid.
  set (p := Sql.proposed t cols vs now (Sql.p_serial st)) in *.
  assert (Hp : agrees cols vs p).
  { intros i c Hi _. apply proposed_cell; [done..|]. apply Hsub. by eapply list_elem_of_lookup_2. }
  destruct (list_find _ (Sql.p_rows st)) as [[i old]|] eqn:Hfind.
  - apply list_find_Some in Hfind as (Hi & Hconf & _).
    apply Is_true_true in Hconf.
    case_bool_decide as Htouched; [done|].
    destruct (Sql.violates _ _ _ _); [done|]. injection Hstep as <-. simpl.
    assert (Hlt : (i < length (Sql.p_rows st))%nat) by by eapply lookup_lt_Some.
    split; [|split; [|split]].
    + intros j Hj. simpl in *. rewrite length_insert. apply elem_of_cons in Hj as [->|Hj]; [done|by apply Hvalid].
    + intros j Hj. rewrite list_lookup_insert_ne; [done|]. intros ->. done.
    + intros j Hj. by right.
    + exists i, (Sql.apply_update u now p old). split; [by left|].
      split; [by apply list_lookup_insert_eq|].
      intros k c Hk Hne. rewrite apply_update_cell by done.
      case_bool_decide as Hu; [by apply Hp|].
      rewrite <- (Hp k c) by done.
      apply (conflicts_cell key); [done|].
      destruct (Hcov c) as [?|?]; [by eapply list_elem_of_lookup_2|done|done].
  - destruct (Sql.violates _ _ _ _); [done|]. injection Hstep as <-. simpl.
    split; [|split; [|split]].
    + intros j Hj. simpl in *. rewrite length_app. simpl.
      apply elem_of_cons in Hj as [->|Hj]; [lia|]. specialize (Hvalid _ Hj). lia.
    + intros j Hj. apply lookup_app_l. by apply Hvalid.
    + intros j Hj. by right.
    + exists (length (Sql.p_rows st)), p. split; [by left|]. split; [|done].
      rewrite lookup_app_r by lia. by rewrite Nat.sub_diag.
Qed.

Lemma steps_store vals : ∀ st st',
  Sql.steps t cols key (Sql.DoUpdateSet u) now st vals = inr st' → valid st →
  valid st' ∧
  (∀ j, j ∈ Sql.p_touched st → Sql.p_rows st' !! j = Sql.p_rows st !! j) ∧
  (∀ j, j ∈ Sql.p_touched st → j ∈ Sql.p_touched st') ∧
  (∀ vs, vs ∈ vals →
     ∃ i s, i ∈ Sql.p_touched st' ∧ Sql.p_rows st' !! i = Some s ∧ agrees cols vs s).
Proof.
  induction vals as [|vs rest IH]; simpl; intros st st' Hrun Hvalid.
  - injection Hrun as <-. repeat split; try done. intros vs Hin. by apply elem_of_nil in Hin.
  - destruct (Sql.step _ _ _ _ _ st vs) as [e|st1] eqn:Hstep; [done|].
    destruct (step_stores _ _ _ Hstep Hvalid) as (Hv1 & Hkeep1 & Hmono1 & i & s & Hi & Hs & Hag).
    destruct (IH _ _ Hrun Hv1) as (Hv' & Hkeep' & Hmono' & Hall).
    split; [done|]. split; [|split].
    + intros j Hj. rewrite Hkeep' by by apply Hmono1. by apply Hkeep1.
    + intros j Hj. by apply Hmono', Hmono1.
    + intros vs' [->|Hin]%elem_of_cons; [|by apply Hall].
      exists i, s. split; [by apply Hmono'|]. split; [|done].
      by rewrite Hkeep'.
Qed.

End Statement.

Lemma subset_spec l k : Sql.subset l k = true ↔ ∀ x, x ∈ l → x ∈ k.
Proof.
  unfold Sql.subset. rewrite forallb_forall. split.
  - intros H x Hx. apply list_elem_of_In in Hx. specialize (H _ Hx).
    by apply bool_decide_eq_true in H.
  - intros H x Hx. apply bool_decide_eq_true, H. by apply list_elem_of_In.
Qed.

Lemma check_accepts t cols key act vals :
  Sql.check t cols key act vals = None →
  NoDup cols ∧ (∀ c, c ∈ cols → c ∈ Sql.column_names t) ∧
  existsb (λ u, Sql.same_columns u key) (Sql.t_unique t) = true ∧
  match act with Sql.DoUpdateSet u => u ≠ [] | Sql.DoNothing => True end.
Proof.
  unfold Sql.check.
  destruct (_ || _); [done|].
  destruct (match act with Sql.DoUpdateSet [] => true | _ => false end) eqn:Hact; [done|].
  destruct (bool_decide (NoDup cols)) eqn:Hnd; [|done]. simpl.
  destruct (Sql.subset cols _) eqn:Hsub; [|done]. simpl.
  destruct (forallb _ vals); [|done]. simpl.
  destruct (Sql.subset key _); [|done]. simpl.
  destruct (existsb _ _); [|done]. simpl. intros _.
  split; [by apply bool_decide_eq_true in Hnd|]. split; [by apply subset_spec|].
  split; [done|]. destruct act as [|[|]]; done.
Qed.

Lemma fold_fixed (l : list string) :
  (∀ c, c ∈ l → fold_ident c = c) → fold_ident <$> l = l.
Proof.
  induction l as [|a l IH]; intros H; simpl; [done|].
  rewrite (H a) by by left. f_equal. apply IH. intros c Hc. apply H. by right.
Qed.

Lemma exec_insert_stores now table_name cols u key vals db db' :
  Sql.exec_insert now (upsert table_name cols u key) vals db = inr db' →
  (∀ c, c ∈ cols → fold_ident c = c) →
  (∀ c, c ∈ cols → c ∈ u ∨ c ∈ key) →
  (∀ c, c ∈ u → c ∈ cols) →
  ∃ t', db' !! fold_ident table_name = Some t' ∧
    ∀ vs, vs ∈ vals → ∃ s, s ∈ Sql.t_rows t' ∧ agrees cols vs s.
Proof.
  unfold Sql.exec_insert, upsert. simpl. intros Hrun Hfix Hcov Hu.
  destruct (forallb (forallb Sql.adaptable) _); cbn [negb] in Hrun; [|done].
  destruct (db !! fold_ident table_name) as [t|]; [|done].
  rewrite (fold_fixed cols) in Hrun by done.
  rewrite (fold_fixed u) in Hrun by (intros; by apply Hfix, Hu).
  destruct (Sql.check _ _ _ _ _) eqn:Hcheck; [done|].
  apply check_accepts in Hcheck as (Hnd & Hsub & _).
  destruct (Sql.steps _ _ _ _ _ _ _) as [|st] eqn:Hsteps; [done|].
  injection Hrun as <-. eexists. split; [by rewrite lookup_insert_eq|]. simpl.
  eapply steps_store in Hsteps as (_ & _ & _ & Hall); try done.
  - intros vs Hvs. destruct (Hall vs Hvs) as (i & s & _ & Hs & Hag).
    exists s. split; [by eapply list_elem_of_lookup_2|done].
  - intros c Hc. destruct (Hcov c Hc) as [?|Hk]; [by left|right].
    apply list_elem_of_fmap. exists c. split; [|done]. symmetry. by apply Hfix.
  - intros j Hj. by apply elem_of_nil in Hj.
Qed.

(** *** Stored rows keep their key; the last write wins *)









Section LastWins.

Variables (t : Sql.table) (cols key u : list string) (now : Z).
Hypothesis Hnd : NoDup cols.
Hypothesis Hsub : ∀ c, c ∈ cols → c ∈ Sql.column_names t.
Hypothesis Hcov : ∀ c, c ∈ cols → c ∈ u ∨ c ∈ key.



End LastWins.

Section LastWinsPages.

Variables (table_name : string) (cols u key : list string).
Hypothesis Hfix : ∀ c, c ∈ cols → fold_ident c = c.
Hypothesis Hcov : ∀ c, c ∈ cols → c ∈ u ∨ c ∈ key.
Hypothesis Hu : ∀ c, c ∈ u → c ∈ cols.



End LastWinsPages.

(** *** Selecting columns *)

Lemma occurrences_none name cols from :
  (∀ i, cols !! i ≠ Some name) → occurrences from name cols = [].
Proof.
  intros Hno. destruct (occurrences from name cols) as [|j l] eqn:Hocc; [done|].
  assert (Hj : j ∈ occurrences from name cols) by (rewrite Hocc; by left).
  apply occurrences_spec in Hj as (i & _ & Hi). by destruct (Hno i).
Qed.

Lemma occurrences_unique name cols : ∀ from j,
  cols !! j = Some name → (∀ j', cols !! j' = Some name → j' = j) →
  occurrences from name cols = [(from + j)%nat].
Proof.
  induction cols as [|c rest IH]; intros from j Hj Huniq; [done|]. simpl.
  destruct j as [|j]; simpl in Hj.
  - injection Hj as ->. rewrite bool_decide_true by done.
    rewrite occurrences_none, Nat.add_0_r; [done|].
    intros i Hi. by specialize (Huniq (S i) Hi).
  - rewrite bool_decide_false.
    + rewrite (IH (S from) j); [simpl; f_equal; lia|done|].
      intros j' Hj'. specialize (Huniq (S j') Hj'). lia.
    + intros ->. by specialize (Huniq 0%nat eq_refl).
Qed.

Lemma filter_unique (P : string → Prop) `{∀ x, Decision (P x)} cols : ∀ j j' c,
  NoDup (filter P cols) → P c →
  cols !! j = Some c → cols !! j' = Some c → j' = j.
Proof.
  induction cols as [|a l IH]; intros j j' c Hnd Hc Hj Hj'; [done|].
  rewrite filter_cons in Hnd.
  destruct j as [|j], j' as [|j']; simpl in *; try done.
  - injection Hj as ->. rewrite decide_True in Hnd by done.
    apply NoDup_cons in Hnd as [Hnot _]. destruct Hnot.
    apply list_elem_of_filter. split; [done|]. by eapply list_elem_of_lookup_2.
  - injection Hj' as ->. rewrite decide_True in Hnd by done.
    apply NoDup_cons in Hnd as [Hnot _]. destruct Hnot.
    apply list_elem_of_filter. split; [done|]. by eapply list_elem_of_lookup_2.
  - f_equal. apply (IH j j' c); try done.
    destruct (decide (P a)); [by apply NoDup_cons in Hnd as [_ ?]|done].
Qed.

Lemma bind_singletons {A B} (g : A → list B) (h : A → B) (names : list A) :
  (∀ n, n ∈ names → g n = [h n]) → names ≫= g = h <$> names.
Proof.
  induction names as [|n rest IH]; intros Hg; [done|]. simpl.
  rewrite Hg by by left. simpl. f_equal. apply IH. intros m Hm. apply Hg. by right.
Qed.

Lemma positions_lookup df schema i j c :
  NoDup (intersect df schema) →
  intersect df schema !! i = Some c → columns df !! j = Some c →
  positions (intersect df schema) (columns df) !! i = Some j.
Proof.
  intros Hnd Hi Hj.
  assert (Hocc : ∀ n, n ∈ intersect df schema →
            occurrences 0 n (columns df)
            = [default 0%nat (head (occurrences 0 n (columns df)))]).
  { intros n Hn. apply list_elem_of_filter in Hn as [Hs Hn].
    apply list_elem_of_lookup_1 in Hn as [k Hk].
    rewrite (occurrences_unique n _ 0 k); [done|done|].
    intros k' Hk'. by eapply (filter_unique (λ col, col ∈ schema)). }
  unfold positions. rewrite (bind_singletons _ _ _ Hocc).
  rewrite list_lookup_fmap, Hi. simpl. f_equal.
  assert (Hc : c ∈ intersect df schema) by by eapply list_elem_of_lookup_2.
  apply list_elem_of_filter in Hc as [Hs _].
  rewrite (occurrences_unique c _ 0 j); [done|done|].
  intros k' Hk'. by eapply (filter_unique (λ col, col ∈ schema)).
Qed.


(** *** The generic upsert stores the intersected columns *)

Lemma paginate_concat {A} (fuel : nat) : ∀ l : list A,
  (length l ≤ fuel)%nat → concat (paginate fuel l) = l.
Proof.
  induction fuel as [|fuel IH]; intros l Hlen.
  - destruct l; [done|simpl in Hlen; lia].
  - destruct l as [|x l]; [done|].
    unfold paginate; fold (@paginate A). simpl concat.
    rewrite IH; [apply (take_drop page_size (x :: l))|].
    rewrite length_drop. simpl in *. unfold page_size. lia.
Qed.




















(** *** The statement the generic upsert builds *)


Example insert_query_text :
  insert_query "balance_sheet" ["symbol"; "asOfDate"; "Goodwill"]
    (non_key ["symbol"; "asOfDate"; "Goodwill"] ["symbol"; "asOfDate"])
    ["symbol"; "asOfDate"]
  = "INSERT INTO balance_sheet (symbol,asOfDate,Goodwill) VALUES %s ON CONFLICT (symbol, asOfDate) DO UPDATE SET Goodwill = EXCLUDED.Goodwill, created_at = CURRENT_TIMESTAMP;".
Proof. reflexivity. Qed.



(** *** Nothing to insert *)

Lemma upsert_without_data df table_name ticker conflict_key w :
  df = PNone ∨ (∃ f, df = PFrame f ∧ empty f = true) →
  insert_dataframe_to_table df table_name ticker conflict_key w
  = (Value false,
     logged WARNING ("No " ++ table_name ++ " data to insert for " ++ ticker) w).
Proof.
  intros [->|(f & -> & Hf)]; unfold insert_dataframe_to_table; [done|].
  by rewrite Hf.
Qed.

(** C7, as stated, fails: the call with no rows and the call the server
    rejects hand the caller the same value, [False]; only the log tells
    the warning from the error. *)
Lemma no_data_and_database_error_return_alike :
  (insert_dataframe_to_table (PFrame no_rows) "balance_sheet" "ACME"
     ["symbol"; "asOfDate"] declared_world).1
  = (insert_dataframe_to_table (PFrame acme_goodwill) "balance_sheet" "ACME"
       ["symbol"; "asOfDate"] declared_world).1
  ∧ lvl <$> w_log (insert_dataframe_to_table (PFrame no_rows) "balance_sheet"
                     "ACME" ["symbol"; "asOfDate"] declared_world).2 = [WARNING]
  ∧ lvl <$> w_log (insert_dataframe_to_table (PFrame acme_goodwill) "balance_sheet"
                     "ACME" ["symbol"; "asOfDate"] declared_world).2 = [ERROR].
Proof. by vm_compute. Qed.

(** C7, amended.  With no frame or an empty one the generic upsert logs
    a warning and returns [False] without opening a connection; with no
    column shared with the table it logs a warning and returns [False];
    when the server rejects the statement it logs an error and returns
    [False] as well.  In the three cases the database is left as it was,
    and the returned value is the same: the log alone tells them apart. *)
Theorem nothing_to_insert_returns_false table_name ticker conflict_key w :
  (∀ df, df = PNone ∨ (∃ f, df = PFrame f ∧ empty f = true) →
     insert_dataframe_to_table df table_name ticker conflict_key w
     = (Value false,
        logged WARNING ("No " ++ table_name ++ " data to insert for " ++ ticker) w)) ∧
  (∀ f, empty f = false → answers w →
     intersect f (Sql.columns_of (w_db w) table_name) = [] →
     insert_dataframe_to_table (PFrame f) table_name ticker conflict_key w
     = (Value false,
        logged WARNING ("No matching columns for " ++ table_name ++ " table for "
                        ++ ticker) (attempted w))) ∧
  (∀ f e, empty f = false → answers w →
     let df_columns := intersect f (Sql.columns_of (w_db w) table_name) in
     let values := to_records (select df_columns f) in
     df_columns ≠ [] →
     Sql.exec_inserts (w_clock w)
       (upsert table_name df_columns (non_key df_columns conflict_key) conflict_key)
       (paginate (length values) values) (w_db w) = inl e →
     insert_dataframe_to_table (PFrame f) table_name ticker conflict_key w
     = (Value false,
        logged ERROR ("Error inserting " ++ table_name ++ " data for " ++ ticker
                      ++ ": " ++ Sql.message e) (attempted w))).
Proof.
  split; [|split].
  - intros df Hdf. by apply upsert_without_data.
  - intros f Hne Hans Hnil.
    rewrite insert_dataframe_to_table_connected by done.
    unfold upsert_outcome. simpl. rewrite select_empty, Hnil by done. done.
  - intros f e Hne Hans df_columns values Hcols Hexec.
    rewrite insert_dataframe_to_table_connected by done.
    unfold upsert_outcome. simpl.
    rewrite select_empty, bool_decide_false by done.
    fold df_columns. fold values. by rewrite Hexec.
Qed.

(** The three cases of the amended C7, met. *)
Lemma nothing_to_insert_cases :
  insert_dataframe_to_table (PFrame no_rows) "balance_sheet" "ACME"
    ["symbol"; "asOfDate"] declared_world
  = (Value false,
     logged WARNING "No balance_sheet data to insert for ACME" declared_world)
  ∧ insert_dataframe_to_table (PFrame abc_frame) "balance_sheet" "ACME"
      ["symbol"; "asOfDate"] declared_world
    = (Value false,
       logged WARNING "No matching columns for balance_sheet table for ACME"
         (attempted declared_world))
  ∧ insert_dataframe_to_table (PFrame acme_goodwill) "balance_sheet" "ACME"
      ["symbol"; "asOfDate"] declared_world
    = (Value false,
       logged ERROR ("Error inserting balance_sheet data for ACME: "
                     ++ Sql.message Sql.NoMatchingConstraint)
         (attempted declared_world)).
Proof.
  destruct (nothing_to_insert_returns_false "balance_sheet" "ACME"
              ["symbol"; "asOfDate"] declared_world) as (Hnone & Hshared & Hrejected).
  split; [|split].
  - apply Hnone. right. by exists no_rows.
  - apply Hshared; by vm_compute.
  - apply Hrejected; by vm_compute.
Defined.

(** *** A conflict key the rows do not carry *)



Section Appending.

Variables (t : Sql.table) (cols key : list string) (act : Sql.action) (now : Z).
Variable k : string.
Hypothesis Hkey : k ∈ key.
Hypothesis Hcols : k ∉ cols.
Hypothesis Hdef : ∀ col, col ∈ Sql.t_columns t → Sql.col_name col = k →
                         Sql.col_default col = Sql.NoDefault.



End Appending.






(** *** A frame sent twice *)

Section Twice.

Variables (t : Sql.table) (cols key u : list string) (now : Z).
Hypothesis Hnd : NoDup cols.
Hypothesis Hsub : ∀ c, c ∈ cols → c ∈ Sql.column_names t.
Hypothesis Hcov : ∀ c, c ∈ cols → c ∈ u ∨ c ∈ key.
Hypothesis Hkey : ∀ k, k ∈ key → k ∈ cols.
Hypothesis Hca : "created_at" ∉ key.

Lemma keyed_conflicts vs rows serial now' :
  keyed cols key vs rows →
  ∃ s, s ∈ rows ∧
       Sql.conflicts key (Sql.proposed t cols vs now' serial) s = true.
Proof.
  intros (s & Hs & Hcells). exists s. split; [done|].
  unfold Sql.conflicts. apply forallb_forall. intros k Hk%list_elem_of_In.
  destruct (list_elem_of_lookup_1 cols k (Hkey k Hk)) as [i Hi].
  destruct (Hcells i k Hi Hk) as [Heq Hnn].
  rewrite (proposed_cell t cols vs now' serial i k) by (done || by apply Hsub, Hkey).
  rewrite <- Heq. destruct (Sql.cell s k); [done|by apply bool_decide_eq_true..].
Qed.

Lemma step_keeps_keyed st vs st' vs0 :
  Sql.step t cols key (Sql.DoUpdateSet u) now st vs = inr st' →
  keyed cols key vs0 (Sql.p_rows st) → keyed cols key vs0 (Sql.p_rows st').
Proof.
  unfold Sql.step. intros Hstep (s & Hs & Hcells).
  destruct (list_find _ (Sql.p_rows st)) as [[i old]|] eqn:Hfind.
  - apply list_find_Some in Hfind as (Hi & Hconf & _). apply Is_true_true in Hconf.
    case_bool_decide; [done|]. destruct (Sql.violates _ _ _ _); [done|].
    injection Hstep as <-. simpl.
    apply list_elem_of_lookup_1 in Hs as [j Hj].
    destruct (decide (j = i)) as [->|Hne].
    + assert (s = old) by congruence. subst s.
      eexists. split.
      { eapply list_elem_of_lookup_2. apply list_lookup_insert_eq. by eapply lookup_lt_Some. }
      intros i' k Hi' Hk.
      assert (k ≠ "created_at") by (intros ->; done).
      rewrite apply_update_cell by done.
      case_bool_decide; [|by apply Hcells].
      rewrite <- (conflicts_cell key _ old k) by done. by apply Hcells.
    + exists s. split; [|done]. eapply list_elem_of_lookup_2.
      by rewrite list_lookup_insert_ne.
  - destruct (Sql.violates _ _ _ _); [done|]. injection Hstep as <-. simpl.
    exists s. split; [|done]. apply elem_of_app. by left.
Qed.

Lemma step_makes_keyed st vs st' :
  Sql.step t cols key (Sql.DoUpdateSet u) now st vs = inr st' → valid st →
  (∀ i k, cols !! i = Some k → k ∈ key → default VNone (vs !! i) ≠ VNone) →
  keyed cols key vs (Sql.p_rows st').
Proof.
  intros Hstep Hvalid Hnn.
  destruct (step_stores t cols key u now Hnd Hsub Hcov st vs st' Hstep Hvalid)
    as (_ & _ & _ & i & s & _ & Hs & Hag).
  exists s. split; [by eapply list_elem_of_lookup_2|].
  intros i' k Hi' Hk.
  assert (k ≠ "created_at") by (intros ->; done).
  rewrite (Hag i' k) by done. split; [done|]. by eapply Hnn.
Qed.

Lemma step_keyed_no_growth st vs st' :
  Sql.step t cols key (Sql.DoUpdateSet u) now st vs = inr st' →
  keyed cols key vs (Sql.p_rows st) →
  length (Sql.p_rows st') = length (Sql.p_rows st).
Proof.
  unfold Sql.step. intros Hstep Hkeyed.
  destruct (list_find _ (Sql.p_rows st)) as [[i old]|] eqn:Hfind.
  - case_bool_decide; [done|]. destruct (Sql.violates _ _ _ _); [done|].
    injection Hstep as <-. simpl. by rewrite length_insert.
  - exfalso. apply list_find_None in Hfind.
    destruct (keyed_conflicts vs _ (Sql.p_serial st) now Hkeyed) as (s & Hs & Hconf).
    rewrite Forall_forall in Hfind. apply (Hfind s Hs). by rewrite Hconf.
Qed.

Lemma steps_keyed vals : ∀ st st',
  Sql.steps t cols key (Sql.DoUpdateSet u) now st vals = inr st' → valid st →
  (∀ vs, vs ∈ vals →
     ∀ i k, cols !! i = Some k → k ∈ key → default VNone (vs !! i) ≠ VNone) →
  valid st' ∧
  (∀ vs0, keyed cols key vs0 (Sql.p_rows st) → keyed cols key vs0 (Sql.p_rows st')) ∧
  (∀ vs, vs ∈ vals → keyed cols key vs (Sql.p_rows st')).
Proof.
  induction vals as [|vs rest IH]; simpl; intros st st' Hrun Hvalid Hnn.
  - injection Hrun as <-. split; [done|]. split; [done|].
    intros vs Hin. by apply elem_of_nil in Hin.
  - destruct (Sql.step _ _ _ _ _ st vs) as [e|st1] eqn:Hstep; [done|].
    destruct (step_stores t cols key u now Hnd Hsub Hcov st vs st1 Hstep Hvalid)
      as (Hv1 & _).
    destruct (IH st1 st' Hrun Hv1) as (Hv' & Hkeep & Hall).
    { intros vs' Hin. apply Hnn. by right. }
    split; [done|]. split.
    + intros vs0 Hk. by eapply Hkeep, step_keeps_keyed.
    + intros vs' [->|Hin]%elem_of_cons; [|by apply Hall].
      apply Hkeep. eapply step_makes_keyed; [done..|]. apply Hnn. by left.
Qed.

Lemma steps_keyed_no_growth vals : ∀ st st',
  Sql.steps t cols key (Sql.DoUpdateSet u) now st vals = inr st' →
  (∀ vs, vs ∈ vals → keyed cols key vs (Sql.p_rows st)) →
  length (Sql.p_rows st') = length (Sql.p_rows st).
Proof.
  induction vals as [|vs rest IH]; simpl; intros st st' Hrun Hkeyed.
  - by injection Hrun as <-.
  - destruct (Sql.step _ _ _ _ _ st vs) as [e|st1] eqn:Hstep; [done|].
    rewrite (IH st1 st' Hrun).
    + eapply step_keyed_no_growth; [done|]. apply Hkeyed. by left.
    + intros vs' Hin. eapply step_keeps_keyed; [done|]. apply Hkeyed. by right.
Qed.

End Twice.


Lemma check_accepts_key t cols key act vals :
  Sql.check t cols key act vals = None → ∀ k, k ∈ key → k ∈ Sql.column_names t.
Proof.
  unfold Sql.check.
  destruct (_ || _); [done|].
  destruct (match act with Sql.DoUpdateSet [] => true | _ => false end); [done|].
  destruct (bool_decide (NoDup cols)); [|done]. simpl.
  destruct (Sql.subset cols _); [|done]. simpl.
  destruct (forallb _ vals); [|done]. simpl.
  destruct (Sql.subset key _) eqn:Hsub; [|done]. intros _.
  by apply subset_spec.
Qed.

Lemma rows_in_stored name db : rows_in name db = length (stored name db).
Proof. unfold rows_in, stored. by destruct (db !! name). Qed.

Section Again.

Variables (table_name : string) (cols u key : list string).
Hypothesis Hfix : ∀ c, c ∈ cols → fold_ident c = c.
Hypothesis Hcov : ∀ c, c ∈ cols → c ∈ u ∨ c ∈ key.
Hypothesis Hu : ∀ c, c ∈ u → c ∈ cols.
Hypothesis Hca : "created_at" ∉ fold_ident <$> key.

Let name := fold_ident table_name.
Let key' := fold_ident <$> key.

Lemma exec_insert_keyed now vals db db' :
  Sql.exec_insert now (upsert table_name cols u key) vals db = inr db' →
  (∀ k, k ∈ key' → k ∈ Sql.columns_of db name → k ∈ cols) →
  Sql.columns_of db' name = Sql.columns_of db name ∧
  (∀ vs0, keyed cols key' vs0 (stored name db) → keyed cols key' vs0 (stored name db')) ∧
  ((NoDup cols → present cols key' vals) → ∀ vs, vs ∈ vals → keyed cols key' vs (stored name db')) ∧
  ((∀ vs, vs ∈ vals → keyed cols key' vs (stored name db)) →
   length (stored name db') = length (stored name db)).
Proof.
  unfold Sql.exec_insert, upsert, Sql.columns_of, stored. simpl.
  fold name key'. intros Hrun Hkey.
  destruct (forallb (forallb Sql.adaptable) _); cbn [negb] in Hrun; [|done].
  destruct (db !! name) as [t|]; [|done]. simpl in Hkey.
  rewrite (fold_fixed cols) in Hrun by done.
  rewrite (fold_fixed u) in Hrun by (intros; by apply Hfix, Hu).
  destruct (Sql.check _ _ _ _ _) eqn:Hcheck; [done|].
  pose proof (check_accepts_key _ _ _ _ _ Hcheck) as Hin.
  apply check_accepts in Hcheck as (Hnd & Hsub & _).
  destruct (Sql.steps _ _ _ _ _ _ _) as [|st] eqn:Hsteps; [done|].
  injection Hrun as <-. rewrite lookup_insert_eq. simpl.
  split; [done|].
  assert (Hcov' : ∀ c, c ∈ cols → c ∈ u ∨ c ∈ key').
  { intros c Hc. destruct (Hcov c Hc) as [?|Hk]; [by left|right].
    apply list_elem_of_fmap. exists c. split; [|done]. symmetry. by apply Hfix. }
  assert (Hkey' : ∀ k, k ∈ key' → k ∈ cols) by (intros; apply Hkey; auto).
  assert (Hvalid : valid {| Sql.p_rows := Sql.t_rows t; Sql.p_touched := [];
                            Sql.p_serial := Sql.t_serial t |}).
  { intros j Hj. by apply elem_of_nil in Hj. }
  split; [|split].
  - intros vs0 Hk.
    assert (Hgen : ∀ vals' st0 st1,
      Sql.steps t cols key' (Sql.DoUpdateSet u) now st0 vals' = inr st1 →
      keyed cols key' vs0 (Sql.p_rows st0) → keyed cols key' vs0 (Sql.p_rows st1)).
    { induction vals' as [|vs rest IH]; simpl; intros st0 st1 Hr Hk0.
      - by injection Hr as <-.
      - destruct (Sql.step _ _ _ _ _ st0 vs) as [|st2] eqn:Hstep; [done|].
        eapply IH; [done|]. by eapply step_keeps_keyed. }
    by eapply (Hgen vals _ st Hsteps).
  - intros Hnn vs Hvs.
    eapply (steps_keyed t cols key' u now) in Hsteps as (_ & _ & Hall);
      [by apply Hall|done..|by apply Hnn].
  - intros Hall.
    by apply (steps_keyed_no_growth t cols key' u now) in Hsteps.
Qed.

Lemma exec_inserts_keyed now pages : ∀ db db',
  Sql.exec_inserts now (upsert table_name cols u key) pages db = inr db' →
  (∀ k, k ∈ key' → k ∈ Sql.columns_of db name → k ∈ cols) →
  Sql.columns_of db' name = Sql.columns_of db name ∧
  (∀ vs0, keyed cols key' vs0 (stored name db) → keyed cols key' vs0 (stored name db')) ∧
  ((NoDup cols → present cols key' (concat pages)) →
   ∀ vs, vs ∈ concat pages → keyed cols key' vs (stored name db')) ∧
  ((∀ vs, vs ∈ concat pages → keyed cols key' vs (stored name db)) →
   length (stored name db') = length (stored name db)).
Proof.
  induction pages as [|page rest IH]; simpl; intros db db' Hrun Hkey.
  - injection Hrun as <-. split; [done|]. split; [done|]. split; [|done].
    intros _ vs Hvs. by apply elem_of_nil in Hvs.
  - destruct (Sql.exec_insert now _ page db) as [|db1] eqn:Hpage; [done|].
    destruct (exec_insert_keyed _ _ _ _ Hpage Hkey) as (Hc1 & Hkeep1 & Hmake1 & Hsame1).
    destruct (IH db1 db' Hrun) as (Hc & Hkeep & Hmake & Hsame).
    { by rewrite Hc1. }
    split; [congruence|]. split; [auto|]. split.
    + intros Hnn vs [Hvs|Hvs]%elem_of_app.
      * apply Hkeep, Hmake1; [|done].
        intros Hnd vs' Hvs'. apply (Hnn Hnd). apply elem_of_app. by left.
      * apply Hmake; [|done].
        intros Hnd vs' Hvs'. apply (Hnn Hnd). apply elem_of_app. by right.
    + intros Hall. rewrite Hsame, Hsame1; [done|..].
      * intros vs Hvs. apply Hall, elem_of_app. by left.
      * intros vs Hvs. apply Hkeep1, Hall, elem_of_app. by right.
Qed.

End Again.

Lemma insert_dataframe_to_table_true df table_name ticker conflict_key w w' :
  insert_dataframe_to_table (PFrame df) table_name ticker conflict_key w
  = (Value true, w') →
  let cols := intersect df (Sql.columns_of (w_db w) table_name) in
  let values := to_records (select cols df) in
  ∃ db', w_db w' = db' ∧
    Sql.exec_inserts (w_clock (attempted w))
      (upsert table_name cols (non_key cols conflict_key) conflict_key)
      (paginate (length values) values) (w_db w) = inr db'.
Proof.
  intros Hrun. destruct (empty df) eqn:Hne.
  { unfold insert_dataframe_to_table in Hrun. rewrite Hne in Hrun. by py_unfold. }
  assert (Hans : answers w).
  { unfold answers. destruct (w_connects w) as [|[] rest] eqn:Hconn; [done..|].
    unfold insert_dataframe_to_table in Hrun. rewrite Hne in Hrun.
    unfold bind at 1 in Hrun. by rewrite (get_db_connection_refused w rest) in Hrun. }
  rewrite insert_dataframe_to_table_connected in Hrun by done.
  unfold upsert_outcome in Hrun. simpl in Hrun.
  destruct (empty (select _ df)); [done|].
  destruct (Sql.exec_inserts _ _ _ _) as [|db'] eqn:Hexec; [done|].
  injection Hrun as <-. by exists db'.
Qed.

(** A frame upserted a second time adds no row: once the call has
    reported success, the same frame sent again, when the call succeeds
    again, leaves the table with as many rows as it had.  The identifiers
    are spelled as the catalog spells them, the frame carries every column
    of the conflict key with a value in every row, and the bookkeeping
    column is not part of the key. *)
Theorem upsert_again_adds_no_row df table_name ticker conflict_key w w1 v w2 :
  insert_dataframe_to_table (PFrame df) table_name ticker conflict_key w
  = (Value true, w1) →
  w_db v = w_db w1 →
  insert_dataframe_to_table (PFrame df) table_name ticker conflict_key v
  = (Value true, w2) →
  fold_ident table_name = table_name →
  (∀ c, c ∈ Sql.columns_of (w_db w) table_name → fold_ident c = c) →
  (∀ k, k ∈ conflict_key → fold_ident k ∈ columns df) →
  "created_at" ∉ fold_ident <$> conflict_key →
  (∀ r k j, r ∈ records df → k ∈ conflict_key →
            columns df !! j = Some (fold_ident k) → default VNone (r.2 !! j) ≠ VNone) →
  row_count table_name w2 = row_count table_name w1.
Proof.
  intros Hfirst Hdb Hsecond Hname Hfix Hkey Hca Hnn.
  apply insert_dataframe_to_table_true in Hfirst as (db1 & Hw1 & Hfirst).
  apply insert_dataframe_to_table_true in Hsecond as (db2 & Hw2 & Hsecond).
  simpl in *. set (schema := Sql.columns_of (w_db w) table_name) in *.
  set (cols := intersect df schema) in *.
  assert (Hfix' : ∀ c, c ∈ cols → fold_ident c = c).
  { intros c Hc. apply Hfix. by apply intersect_spec in Hc as [_ ?]. }
  assert (Hcov : ∀ c, c ∈ cols → c ∈ non_key cols conflict_key ∨ c ∈ conflict_key).
  { intros c Hc. unfold non_key. rewrite list_elem_of_filter.
    destruct (decide (c ∈ conflict_key)); [by right|by left]. }
  assert (Hu : ∀ c, c ∈ non_key cols conflict_key → c ∈ cols).
  { intros c Hc. unfold non_key in Hc. by apply list_elem_of_filter in Hc as [_ ?]. }
  assert (Hpages : ∀ l : list (list value), concat (paginate (length l) l) = l).
  { intros l. by apply paginate_concat. }
  destruct (exec_inserts_keyed table_name cols _ conflict_key Hfix' Hcov Hu Hca
              _ _ _ _ Hfirst) as (Hcols & _ & Hmake & _).
  { rewrite Hname. fold schema. intros k (k0 & -> & Hk0)%list_elem_of_fmap Hs.
    apply intersect_spec. auto. }
  rewrite Hname in Hcols. fold schema in Hcols.
  rewrite Hdb, Hw1, Hcols in Hsecond. fold cols in Hsecond.
  destruct (exec_inserts_keyed table_name cols _ conflict_key Hfix' Hcov Hu Hca
              _ _ _ _ Hsecond) as (_ & _ & _ & Hsame).
  { rewrite Hname, Hcols. intros k (k0 & -> & Hk0)%list_elem_of_fmap Hs.
    apply intersect_spec. auto. }
  unfold row_count. rewrite !rows_in_stored, Hw1, Hw2.
  rewrite Hname, Hpages in *. apply Hsame, Hmake.
  intros Hnd vs Hvs i k Hi (k0 & -> & Hk0)%list_elem_of_fmap.
  unfold to_records, select in Hvs. simpl in Hvs.
  rewrite <- list_fmap_compose in Hvs.
  apply list_elem_of_fmap in Hvs as (r & -> & Hr).
  destruct (list_elem_of_lookup_1 _ _ (Hkey k0 Hk0)) as [j Hj].
  unfold compose. simpl. rewrite list_lookup_fmap. unfold cols in *.
  rewrite (positions_lookup df schema i j (fold_ident k0)) by done. simpl.
  by eapply Hnn.
Qed.

(** ACME's two rows, sent twice to the indexed balance sheet: two
    stored rows after the first call and two after the second. *)
Lemma acme_goodwill_sent_again :
  let send := insert_dataframe_to_table (PFrame acme_goodwill) "balance_sheet"
                "ACME" ["symbol"; "asOfDate"] in
  row_count "balance_sheet" (send (send indexed_world).2).2
  = row_count "balance_sheet" (send indexed_world).2.
Proof.
  intros send.
  apply (upsert_again_adds_no_row acme_goodwill "balance_sheet" "ACME"
           ["symbol"; "asOfDate"] indexed_world (send indexed_world).2
           (send indexed_world).2).
  - by vm_compute.
  - reflexivity.
  - by vm_compute.
  - reflexivity.
  - intros c Hc. apply list_elem_of_In in Hc. vm_compute in Hc.
    repeat (destruct Hc as [<-|Hc]); [..|destruct Hc]; reflexivity.
  - intros k Hk. apply list_elem_of_In in Hk. apply list_elem_of_In.
    vm_compute in Hk. destruct Hk as [<-|[<-|[]]]; vm_compute; tauto.
  - intros Hin. apply list_elem_of_In in Hin. vm_compute in Hin.
    repeat (destruct Hin as [Hin|Hin]); done.
  - intros r k j Hr Hk Hj. apply list_elem_of_In in Hr, Hk.
    vm_compute in Hr, Hk.
    destruct Hr as [<-|[<-|[]]]; destruct Hk as [<-|[<-|[]]];
      vm_compute in Hj; destruct j as [|[|[|j]]]; try discriminate Hj; by vm_compute.
Defined.

(** *** Institutional holders are cleared first *)

Lemma exec_delete_symbol ticker db t :
  db !! "institution_ownership" = Some t → "symbol" ∈ Sql.column_names t →
  Sql.exec_delete "institution_ownership" "symbol" (VText ticker) db
  = inr (<["institution_ownership" :=
            {| Sql.t_columns := Sql.t_columns t; Sql.t_unique := Sql.t_unique t;
               Sql.t_serial := Sql.t_serial t;
               Sql.t_rows := filter (λ r, Sql.cell r "symbol" ≠ VText ticker)
                                    (Sql.t_rows t) |}]> db).
Proof.
  intros Ht Hcol. unfold Sql.exec_delete.
  change (fold_ident "institution_ownership") with "institution_ownership".
  change (fold_ident "symbol") with "symbol".
  rewrite Ht, bool_decide_true by done. simpl. do 3 f_equal.
  apply list_filter_iff. intros r. split.
  - intros H Heq. apply H. by split.
  - by intros H [_ ?].
Qed.

(** C10. [insert_institution_ownership] first deletes every stored
    holder of the ticker, then runs the generic upsert on what is left,
    whatever frame it was given.  With no frame or an empty one it
    returns [False] and the database it leaves is the one without the
    ticker's holders: where the ticker had a holder, the database has
    changed. *)
Theorem holders_are_deleted_before_insertion ticker df w t :
  w_db w !! "institution_ownership" = Some t →
  "symbol" ∈ Sql.column_names t →
  answers w →
  let cleared :=
    <["institution_ownership" :=
       {| Sql.t_columns := Sql.t_columns t; Sql.t_unique := Sql.t_unique t;
          Sql.t_serial := Sql.t_serial t;
          Sql.t_rows := filter (λ r, Sql.cell r "symbol" ≠ VText ticker)
                               (Sql.t_rows t) |}]> (w_db w) in
  insert_institution_ownership ticker df w
  = insert_dataframe_to_table df "institution_ownership" ticker
      ["symbol"; "organization"]
      (with_db cleared (attempted (noted (Entered "insert_institution_ownership") w)))
  ∧ (df = PNone ∨ (∃ f, df = PFrame f ∧ empty f = true) →
     ∃ w', insert_institution_ownership ticker df w = (Value false, w')
           ∧ w_db w' = cleared)
  ∧ ((∃ r, r ∈ Sql.t_rows t ∧ Sql.cell r "symbol" = VText ticker) →
     cleared ≠ w_db w).
Proof.
  intros Ht Hcol Hans cleared.
  assert (Hrun : insert_institution_ownership ticker df w
    = insert_dataframe_to_table df "institution_ownership" ticker
        ["symbol"; "organization"]
        (with_db cleared (attempted (noted (Entered "insert_institution_ownership") w)))).
  { unfold insert_institution_ownership. unfold bind at 1, note.
    unfold bind at 1. unfold bind at 1.
    rewrite get_db_connection_answers by done.
    unfold finally, try_except, bind, sql, commit, set_db, close. simpl.
    by rewrite (exec_delete_symbol ticker (w_db w) t). }
  split; [done|]. split.
  - intros Hdf. rewrite Hrun, upsert_without_data by done. by eexists.
  - intros (r & Hr & Hsym) Heq.
    assert (Hlook : cleared !! "institution_ownership" = Some t) by by rewrite Heq.
    unfold cleared in Hlook. rewrite lookup_insert_eq in Hlook.
    injection Hlook as Hrows. apply (f_equal Sql.t_rows) in Hrows. simpl in Hrows.
    pose proof (length_filter_lt (λ r, Sql.cell r "symbol" ≠ VText ticker)
                  (Sql.t_rows t) r Hr) as Hlt.
    rewrite Hrows in Hlt. assert (length (Sql.t_rows t) < length (Sql.t_rows t))%nat; [|lia].
    apply Hlt. by intros ?.
Qed.

(** C10 at a table that holds two holders: ACME's holder is gone after
    a call that was given nothing to insert. *)
Lemma acme_holders_are_lost :
  (∃ w', insert_institution_ownership "ACME" PNone holders_world = (Value false, w')
         ∧ row_count "institution_ownership" w' = 1%nat)
  ∧ row_count "institution_ownership" holders_world = 2%nat
  ∧ w_db (insert_institution_ownership "ACME" PNone holders_world).2
    ≠ w_db holders_world.
Proof.
  destruct (holders_are_deleted_before_insertion "ACME" PNone holders_world
              holders_table) as (Hrun & Hnone & Hchanged);
    [by vm_compute|apply list_elem_of_In; vm_compute; tauto|by vm_compute|].
  split; [|split; [by vm_compute|]].
  - destruct Hnone as (w' & Hw' & Hdb); [by left|].
    exists w'. split; [done|]. unfold row_count. rewrite Hdb. by vm_compute.
  - destruct Hnone as (w' & Hw' & Hdb); [by left|].
    rewrite Hw'. cbn [snd]. rewrite Hdb. apply Hchanged.
    eexists. split; [by left|]. by vm_compute.
Defined.

(** *** Persistence, category after category *)

Lemma runs_ret {A} (a : A) : runs [] (ret a).
Proof. intros w Hw. exists a, w. by rewrite app_nil_r. Qed.

Lemma runs_logger l text : runs [] (logger l text).
Proof. intros w Hw. exists tt, (logged l text w). by rewrite app_nil_r. Qed.

Lemma runs_entered name : runs [name] (note (Entered name)).
Proof.
  intros w Hw. exists tt, (noted (Entered name) w). split; [done|]. split; [done|].
  unfold entered. simpl. by rewrite omap_app.
Qed.

Lemma runs_bind {A B} n1 n2 (m : Py A) (k : A → Py B) :
  runs n1 m → (∀ a, runs n2 (k a)) → runs (n1 ++ n2) (bind m k).
Proof.
  intros Hm Hk w Hw. destruct (Hm w Hw) as (a & w1 & Hrun & Hw1 & He1).
  destruct (Hk a w1 Hw1) as (b & w2 & Hrun2 & Hw2 & He2).
  exists b, w2. unfold bind. rewrite Hrun. split; [done|]. split; [done|].
  by rewrite He2, He1, app_assoc.
Qed.

Lemma runs_calm {A} (m : Py A) : runs [] m → calm m.
Proof.
  intros Hm w Hw. destruct (Hm w Hw) as (a & w1 & Hrun & Hw1 & He1).
  exists (Value a), w1. by rewrite app_nil_r in He1.
Qed.

Lemma calm_bind {A B} (m : Py A) (k : A → Py B) :
  calm m → (∀ a, calm (k a)) → calm (bind m k).
Proof.
  intros Hm Hk w Hw. destruct (Hm w Hw) as ([a|e] & w1 & Hrun & Hw1 & He1);
    unfold bind; rewrite Hrun.
  - destruct (Hk a w1 Hw1) as (r & w2 & Hrun2 & Hw2 & He2).
    exists r, w2. split; [done|]. split; [done|]. congruence.
  - by exists (Raise e), w1.
Qed.

Lemma calm_raise {A} e : calm (@raise A e).
Proof. intros w Hw. by exists (Raise e), w. Qed.

Lemma calm_ask {A} api what (r : fetched A) : calm (ask api what r).
Proof.
  intros w Hw. unfold ask, bind, note.
  destruct r; eexists _, _; (split; [done|]); (split; [done|]);
    unfold entered; simpl; by rewrite omap_app, app_nil_r.
Qed.

Lemma calm_helper {A} (r : fetched A) : calm (helper r).
Proof. destruct r; [apply calm_raise|apply runs_calm, runs_ret]. Qed.

Lemma steady_answers w : steady w → answers w.
Proof.
  unfold steady, answers. destruct (w_connects w) as [|b rest]; [done|].
  intros [-> _]%Forall_cons. done.
Qed.

Lemma runs_connection : runs [] get_db_connection.
Proof.
  intros w Hw. rewrite get_db_connection_answers by by apply steady_answers.
  exists (w_db w), (attempted w). split; [done|]. rewrite app_nil_r. split; [|done].
  unfold steady, attempted in *. simpl. destruct (w_connects w); [done|].
  by apply Forall_cons in Hw as [_ ?].
Qed.

Lemma calm_sql r : calm (sql r).
Proof. destruct r; [apply calm_raise|apply runs_calm, runs_ret]. Qed.

Lemma calm_named names params : calm (named names params).
Proof.
  induction names as [|n rest IH]; simpl; [apply runs_calm, runs_ret|].
  destruct (params !! n) as [v|]; [|apply calm_raise].
  destruct (Sql.adaptable v); [|apply calm_raise].
  apply calm_bind; [done|]. intros vs. apply runs_calm, runs_ret.
Qed.

Lemma runs_now : runs [] now.
Proof. intros w Hw. exists (w_clock w), w. by rewrite app_nil_r. Qed.

Lemma runs_today : runs [] today.
Proof. intros w Hw. eexists _, w. by rewrite app_nil_r. Qed.

Lemma calm_execute query params conn : calm (execute query params conn).
Proof.
  apply calm_bind; [apply calm_named|]. intros vs.
  apply calm_bind; [apply runs_calm, runs_now|]. intros t. apply calm_sql.
Qed.

Lemma calm_executemany query seq : ∀ conn, calm (executemany query seq conn).
Proof.
  induction seq as [|params rest IH]; intros conn; simpl; [apply runs_calm, runs_ret|].
  apply calm_bind; [apply calm_execute|done].
Qed.

Lemma calm_execute_values query values conn : calm (execute_values query values conn).
Proof. apply calm_bind; [apply runs_calm, runs_now|]. intros t. apply calm_sql. Qed.

Lemma runs_try_except {A} (m : Py A) handler :
  calm m → (∀ e, runs [] (handler e)) → runs [] (try_except m handler).
Proof.
  intros Hm Hh w Hw. destruct (Hm w Hw) as ([a|e] & w1 & Hrun & Hw1 & He1);
    unfold try_except; rewrite Hrun.
  - exists a, w1. by rewrite app_nil_r.
  - destruct (Hh e w1 Hw1) as (a & w2 & Hrun2 & Hw2 & He2).
    exists a, w2. split; [done|]. split; [done|]. congruence.
Qed.

Lemma runs_finally {A} names (m : Py A) : runs names m → runs names (finally m close).
Proof.
  intros Hm w Hw. destruct (Hm w Hw) as (a & w1 & Hrun & Hw1 & He1).
  exists a, w1. unfold finally. by rewrite Hrun.
Qed.

Lemma runs_seq {A B} (m : Py A) (k : Py B) : runs [] m → runs [] k → runs [] (m ;;; k).
Proof. intros Hm Hk. by apply (runs_bind [] []). Qed.

Lemma runs_transaction work done failed :
  (∀ conn, calm (work conn)) → runs [] (transaction work done failed).
Proof.
  intros Hwork. apply (runs_bind [] []); [apply runs_connection|]. intros conn.
  apply runs_finally, runs_try_except.
  - apply calm_bind; [done|]. intros conn'. apply runs_calm.
    apply runs_seq; [by intros w Hw; eexists tt, _; rewrite app_nil_r|].
    apply runs_seq; [apply runs_logger|apply runs_ret].
  - intros e. apply runs_seq; [apply runs_logger|].
    apply runs_seq; apply runs_ret.
Qed.

Lemma runs_upsert df table_name ticker conflict_key :
  frame_or_none df →
  runs [] (insert_dataframe_to_table df table_name ticker conflict_key).
Proof.
  intros Hdf. unfold insert_dataframe_to_table.
  assert (Hno : runs [] (logger WARNING
            ("No " ++ table_name ++ " data to insert for " ++ ticker) ;;; ret false))
    by (apply runs_seq; [apply runs_logger|apply runs_ret]).
  destruct df as [|d|f]; [done|done|].
  destruct (empty f); [done|].
  apply (runs_bind [] []); [apply runs_connection|]. intros conn.
  apply runs_finally, runs_try_except.
  - destruct (empty (select _ f)).
    + apply runs_calm, runs_seq; [apply runs_logger|apply runs_ret].
    + apply calm_bind; [apply calm_execute_values|]. intros conn'. apply runs_calm.
      apply runs_seq; [by intros w Hw; eexists tt, _; rewrite app_nil_r|].
      apply runs_seq; [apply runs_logger|apply runs_ret].
  - intros e. apply runs_seq; [apply runs_logger|].
    apply runs_seq; apply runs_ret.
Qed.

Lemma runs_method {A} name (body : Py A) :
  runs [] body → runs [name] (note (Entered name) ;;; body).
Proof.
  intros Hbody. apply (runs_bind [name] []); [apply runs_entered|done].
Qed.

Lemma runs_record_insert name (data : payload) (skip : gmap string value → bool)
    (store : gmap string value → Py bool) :
  record_or_none data → (∀ d, runs [] (store d)) →
  runs [name]
    (note (Entered name) ;;;
     match data with
     | PNone => ret false
     | PFrame _ => raise (ValueError "The truth value of a DataFrame is ambiguous")
     | PDict d => if skip d then ret false else store d
     end).
Proof.
  intros Hdata Hstore. apply runs_method. destruct data as [|d|f]; [|..|done].
  - apply runs_ret.
  - destruct (skip d); [apply runs_ret|apply Hstore].
Qed.

Lemma runs_insert_price_data ticker data :
  record_or_none data → runs ["insert_price_data"] (insert_price_data ticker data).
Proof.
  intros Hdata. apply (runs_record_insert _ _ (λ d, bool_decide (d = ∅))); [done|].
  intros d. apply runs_transaction. intros conn. apply calm_execute.
Qed.

Lemma runs_insert_org_overview ticker data :
  record_or_none data → runs ["insert_org_overview"] (insert_org_overview ticker data).
Proof.
  intros Hdata. apply (runs_record_insert _ _ (λ d, bool_decide (d = ∅))); [done|].
  intros d. apply runs_transaction. intros conn. apply calm_execute.
Qed.

Lemma runs_insert_calendar_events ticker data :
  record_or_none data →
  runs ["insert_calendar_events"] (insert_calendar_events ticker data).
Proof.
  intros Hdata.
  apply (runs_record_insert _ _
    (λ d, bool_decide (d = ∅) || bool_decide (get d "earnings_date" = VNone))); [done|].
  intros d. apply runs_transaction. intros conn. apply calm_execute.
Qed.

Lemma runs_insert_valuation_measures ticker data :
  record_or_none data →
  runs ["insert_valuation_measures"] (insert_valuation_measures ticker data).
Proof.
  intros Hdata. apply (runs_record_insert _ _ (λ d, bool_decide (d = ∅))); [done|].
  intros d. apply runs_transaction. intros conn.
  apply calm_bind; [apply runs_calm, runs_today|]. intros date. apply calm_execute.
Qed.

Lemma runs_insert_institution_ownership ticker df :
  frame_or_none df →
  runs ["insert_institution_ownership"] (insert_institution_ownership ticker df).
Proof.
  intros Hdf. apply runs_method.
  apply runs_seq; [|by apply runs_upsert].
  apply (runs_bind [] []); [apply runs_connection|]. intros conn.
  apply runs_finally, runs_try_except.
  - apply calm_bind; [apply calm_sql|]. intros conn'.
    by intros w Hw; eexists (Value tt), _.
  - intros e. apply runs_seq; [apply runs_logger|apply runs_ret].
Qed.

Lemma runs_quarterly E ticker :
  runs ["calculate_and_insert_quarterly_price"]
       (calculate_and_insert_quarterly_price E ticker).
Proof.
  apply runs_method, runs_try_except.
  - apply calm_bind; [apply calm_ask|]. intros hist_data.
    destruct (empty hist_data); [apply runs_calm, runs_ret|].
    apply calm_bind; [apply calm_helper|]. intros records.
    case_bool_decide; [apply runs_calm, runs_ret|].
    apply runs_calm, runs_transaction. intros conn. apply calm_executemany.
  - intros e. apply runs_seq; [apply runs_logger|apply runs_ret].
Qed.

Lemma runs_insert_all_data E ticker data :
  well_typed data → runs insert_methods (insert_all_data E ticker data).
Proof.
  intros [Hrecords Hframes].
  assert (Hr : ∀ k, In k ["price"; "org_overview"; "calendar_events";
                          "valuation_measures"] → record_or_none (lookup_data data k))
    by (intros k Hk; by apply Hrecords, list_elem_of_In).
  assert (Hf : ∀ k, In k ["balance_sheet"; "income_statement"; "cash_flow";
                          "institution_ownership"; "executive_ownership";
                          "announcement_price"] → frame_or_none (lookup_data data k))
    by (intros k Hk; by apply Hframes, list_elem_of_In).
  simpl in Hr, Hf. unfold insert_all_data.
  apply (runs_bind [] insert_methods); [apply runs_logger|]. intros _.
  apply (runs_bind [_] (_ :: _)); [apply runs_insert_price_data; auto 10|]. intros _.
  apply (runs_bind [_] (_ :: _)); [apply runs_insert_org_overview; auto 10|]. intros _.
  apply (runs_bind [_] (_ :: _)); [apply runs_insert_calendar_events; auto 10|]. intros _.
  apply (runs_bind [_] (_ :: _)); [apply runs_method, runs_upsert; auto 10|]. intros _.
  apply (runs_bind [_] (_ :: _)); [apply runs_method, runs_upsert; auto 10|]. intros _.
  apply (runs_bind [_] (_ :: _)); [apply runs_method, runs_upsert; auto 10|]. intros _.
  apply (runs_bind [_] (_ :: _)); [apply runs_insert_valuation_measures; auto 10|]. intros _.
  apply (runs_bind [_] (_ :: _)); [apply runs_insert_institution_ownership; auto 10|]. intros _.
  apply (runs_bind [_] (_ :: _)); [apply runs_method, runs_upsert; auto 10|]. intros _.
  apply (runs_bind [_] (_ :: _)); [apply runs_method, runs_upsert; auto 10|]. intros _.
  apply (runs_bind [_] []); [apply runs_quarterly|]. intros _.
  apply runs_logger.
Qed.

Lemma acme_data_well_typed : well_typed acme_data.
Proof.
  split; intros k Hk; apply list_elem_of_In in Hk; vm_compute in Hk;
    repeat (destruct Hk as [<-|Hk]); try destruct Hk; by vm_compute.
Defined.

(** C6, as stated, fails: the server refuses the second connection, the
    exception leaves [insert_org_overview] and [insert_all_data], and no
    later category is entered. *)
Lemma refused_connection_ends_the_run :
  (insert_all_data acme_market "ACME" acme_data second_connection_refused).1
  = Raise OperationalError
  ∧ entered (insert_all_data acme_market "ACME" acme_data second_connection_refused).2
    = ["insert_price_data"; "insert_org_overview"].
Proof. by vm_compute. Qed.

(** C6, amended.  While the server answers every connection attempt, and
    the data holds for every category what its insert method takes (a
    dict or nothing for the four records, a frame or nothing for the six
    tables), [insert_all_data] enters all eleven insert methods, in
    order, whatever each of them returns: an insert that has no data or
    whose statement the server rejects returns [False] and the next one
    runs.  The method itself returns, and hands nothing back: the
    booleans of the inserts are dropped. *)
Theorem every_category_is_attempted E ticker data w :
  well_typed data → steady w →
  ∃ w', insert_all_data E ticker data w = (Value tt, w')
        ∧ entered w' = entered w ++ insert_methods.
Proof.
  intros Hdata Hw.
  destruct (runs_insert_all_data E ticker data Hdata w Hw) as ([] & w' & Hrun & _ & He).
  by exists w'.
Qed.

(** The amended C6 on the declared schema, where the server rejects the
    statements of [insert_price_data] and of those after it: every
    category is entered all the same. *)
Lemma rejected_categories_do_not_stop_the_run :
  (insert_price_data "ACME" (lookup_data acme_data "price") declared_world).1
  = Value false
  ∧ ∃ w', insert_all_data acme_market "ACME" acme_data declared_world = (Value tt, w')
          ∧ entered w' = entered declared_world ++ insert_methods.
Proof.
  split; [by vm_compute|].
  apply (every_category_is_attempted acme_market "ACME" acme_data declared_world).
  - apply acme_data_well_typed.
  - by apply Forall_nil.
Defined.

(** *** The declared schema and the conflict targets *)

(** C5: what the code does with ACME's balance sheet.  The declared
    table has no unique index on the conflict key, and its catalog
    spells the columns in lower case.  The frame the extractor builds
    shares only [symbol] with the catalog, so the statement has an empty
    assignment list; the frame spelled as the catalog is sent in full and
    finds no index to arbitrate.  Either way the call returns [False] and
    the table stays empty, after one call and after two. *)
Theorem declared_schema_stores_no_balance_sheet :
  Sql.t_unique <$> (w_db declared_world !! "balance_sheet") = Some [["id"]]
  ∧ intersect (match acme_sheet with PFrame f => f | _ => no_rows end)
      (Sql.columns_of (w_db declared_world) "balance_sheet") = ["symbol"]
  ∧ insert_balance_sheet "ACME" acme_sheet declared_world
    = (Value false,
       logged ERROR ("Error inserting balance_sheet data for ACME: "
                     ++ Sql.message Sql.SyntaxError)
         (attempted (noted (Entered "insert_balance_sheet") declared_world)))
  ∧ insert_balance_sheet "ACME" (PFrame acme_goodwill) declared_world
    = (Value false,
       logged ERROR ("Error inserting balance_sheet data for ACME: "
                     ++ Sql.message Sql.NoMatchingConstraint)
         (attempted (noted (Entered "insert_balance_sheet") declared_world)))
  ∧ ((insert_balance_sheet "ACME" (PFrame acme_goodwill) ;;;
      insert_balance_sheet "ACME" (PFrame acme_goodwill)) declared_world).1
    = Value false
  ∧ row_count "balance_sheet"
      ((insert_balance_sheet "ACME" (PFrame acme_goodwill) ;;;
        insert_balance_sheet "ACME" (PFrame acme_goodwill)) declared_world).2
    = 0%nat.
Proof. by vm_compute. Qed.

(** C9: what the code does with ACME's quote.  The statement names
    [regularMarketTime] as conflict target and never supplies it.  On the
    declared schema the server rejects the statement and stores nothing;
    with the unique index in place the first call stores a row with a NULL
    time and the second call, given the same quote, stores a second row. *)
Theorem price_is_stored_twice :
  ("regularMarketTime" ∈ Sql.on_conflict price_query)
  ∧ ("regularMarketTime" ∉ Sql.ins_columns price_query)
  ∧ (insert_price_data "ACME" acme_quote declared_world).1 = Value false
  ∧ row_count "price" (insert_price_data "ACME" acme_quote declared_world).2 = 0%nat
  ∧ (insert_price_data "ACME" acme_quote indexed_world).1 = Value true
  ∧ row_count "price" (insert_price_data "ACME" acme_quote indexed_world).2 = 1%nat
  ∧ ((insert_price_data "ACME" acme_quote ;;; insert_price_data "ACME" acme_quote)
       indexed_world).1 = Value true
  ∧ row_count "price"
      ((insert_price_data "ACME" acme_quote ;;; insert_price_data "ACME" acme_quote)
         indexed_world).2 = 2%nat.
Proof.
  split; [set_solver|]. split; [|by vm_compute].
  intros Hin. apply list_elem_of_In in Hin. vm_compute in Hin.
  repeat (destruct Hin as [Hin|Hin]); done.
Qed.

(** *** Providers that are listed and not asked *)

(** C1: what the code does when [yfinance] is down and every client is
    configured and answers with data.  For the balance sheet the list
    names three providers and the method asks one.  For the price and the
    organisation overview the second provider is asked and answers, the
    third is left alone, and the method returns [None]: the formatting
    stub throws the answer away. *)
Theorem listed_providers_are_not_asked :
  priority "balance_sheet" = ["yfinance"; "fmp"; "alpha_vantage"]
  ∧ (extract_balance_sheet yfinance_down "ACME" false declared_world).1 = Value PNone
  ∧ invoked (extract_balance_sheet yfinance_down "ACME" false declared_world).2
    = ["yfinance"]
  ∧ (extract_price_data yfinance_down all_clients "ACME" declared_world).1
    = Value PNone
  ∧ invoked (extract_price_data yfinance_down all_clients "ACME" declared_world).2
    = ["yfinance"; "alpha_vantage"]
  ∧ (extract_org_overview yfinance_down all_clients "ACME" declared_world).1
    = Value PNone
  ∧ invoked (extract_org_overview yfinance_down all_clients "ACME" declared_world).2
    = ["yfinance"; "fmp"].
Proof. by vm_compute. Qed.

(** *** A day without providers *)

Lemma yfinance_down_exhausts data_type :
  data_type ∈ data_types → exhausted yfinance_down no_clients data_type "ACME" false.
Proof.
  intros Hd api r Hapi Hfetch.
  apply list_elem_of_In in Hd. vm_compute in Hd.
  repeat (destruct Hd as [<-|Hd]); [..|destruct Hd]; each_api Hapi;
    vm_compute in Hfetch; try discriminate Hfetch; by injection Hfetch as <-.
Defined.

(** C2 at a market that is down: with [yfinance] down and no client
    configured every data type is exhausted, and [extract_all_data] returns a dict
    that maps each of them to [None]. *)
Lemma market_down_gives_no_data :
  ∃ results w',
    extract_all_data yfinance_down no_clients "ACME" false declared_world
    = (Value results, w')
    ∧ ∀ data_type, data_type ∈ data_types → results !! data_type = Some PNone.
Proof.
  destruct (exhausted_providers_give_no_data yfinance_down no_clients "ACME" false)
    as (_ & Hall & _).
  destruct (Hall declared_world) as (results & w' & Hrun & _ & Hnone & _).
  exists results, w'. split; [done|].
  intros data_type Hd. apply Hnone; [done|]. by apply yfinance_down_exhausts.
Defined.

(** *** The declared schema *)

Lemma create_table_keeps name cols db n t :
  db !! n = Some t → Sql.create_table name cols db !! n = Some t.
Proof.
  intros Hn. unfold Sql.create_table.
  destruct (db !! fold_ident name) eqn:Hname; [done|].
  rewrite lookup_insert_ne; [done|]. intros <-. congruence.
Qed.

Lemma create_table_some name cols db n :
  is_Some (db !! n) ∨ n = fold_ident name →
  is_Some (Sql.create_table name cols db !! n).
Proof.
  intros [[t Ht]| ->]; [by erewrite create_table_keeps|].
  unfold Sql.create_table. destruct (db !! fold_ident name) eqn:Hname.
  - by rewrite Hname.
  - by rewrite lookup_insert_eq.
Qed.

Lemma create_table_id name cols db :
  is_Some (db !! fold_ident name) → Sql.create_table name cols db = db.
Proof. intros [t Ht]. unfold Sql.create_table. by rewrite Ht. Qed.

Lemma create_table_primary_key name cols db :
  only_primary_keys db → only_primary_keys (Sql.create_table name cols db).
Proof.
  intros Hdb n t u Hn Hu. unfold Sql.create_table in Hn.
  destruct (db !! fold_ident name) eqn:Hname; [by eapply Hdb|].
  destruct (decide (n = fold_ident name)) as [->|Hne].
  - rewrite lookup_insert_eq in Hn. injection Hn as <-. simpl in Hu.
    by apply list_elem_of_singleton in Hu.
  - rewrite lookup_insert_ne in Hn by done. by eapply Hdb.
Qed.

Ltac declared :=
  repeat (apply create_table_some; first [by right|left]); try done.

Lemma create_all_tables_keeps db n t :
  db !! n = Some t → create_all_tables db !! n = Some t.
Proof.
  intros Hn. unfold create_all_tables, declare. by repeat apply create_table_keeps.
Qed.

Lemma create_all_tables_declares db n :
  n ∈ table_names → is_Some (create_all_tables db !! n).
Proof.
  intros Hn. apply list_elem_of_In in Hn. unfold table_names in Hn. simpl in Hn.
  unfold create_all_tables, declare.
  repeat (destruct Hn as [<-|Hn]); [..|destruct Hn]; declared.
Qed.

Lemma create_all_tables_settled db :
  (∀ n, n ∈ table_names → is_Some (db !! n)) → create_all_tables db = db.
Proof.
  intros Hall. unfold create_all_tables, declare.
  repeat (rewrite create_table_id; [|declared; apply Hall, list_elem_of_In; vm_compute; tauto]).
  done.
Qed.

Lemma create_all_tables_primary_keys db :
  only_primary_keys db → only_primary_keys (create_all_tables db).
Proof.
  intros Hdb. unfold create_all_tables, declare.
  by repeat apply create_table_primary_key.
Qed.

(** [create_all_tables], the method.  When the server answers it
    returns, the database is the one the twelve statements lead to and
    the log says so; a table that existed is the table it was, rows
    included; the twelve tables exist; the only unique indexes are still
    primary keys if they were; and a further run changes nothing.  When
    the server refuses the connection the method raises before it has
    touched or logged anything. *)
Theorem create_all_tables_keeps_what_exists w :
  (answers w →
   ∃ w', StockTableCreator.create_all_tables w = (Value tt, w') ∧
     w_db w' = create_all_tables (w_db w) ∧
     w_log w' = w_log w ++ [mkLog INFO "All tables created successfully"] ∧
     (∀ name t, w_db w !! name = Some t → w_db w' !! name = Some t) ∧
     (∀ name, name ∈ table_names → is_Some (w_db w' !! name)) ∧
     (only_primary_keys (w_db w) → only_primary_keys (w_db w')) ∧
     create_all_tables (w_db w') = w_db w') ∧
  (¬ answers w →
   ∃ w', StockTableCreator.create_all_tables w = (Raise OperationalError, w') ∧
     w_db w' = w_db w ∧ w_log w' = w_log w).
Proof.
  unfold StockTableCreator.create_all_tables, StockTableCreator.connect, answers.
  split; intros Hans.
  - eexists. split.
    { unfold bind at 1. by destruct (w_connects w) as [|[] ?]. }
    simpl. split; [done|]. split; [done|].
    split; [apply create_all_tables_keeps|].
    split; [intros; by apply create_all_tables_declares|].
    split; [apply create_all_tables_primary_keys|].
    apply create_all_tables_settled. intros. by apply create_all_tables_declares.
  - eexists. split.
    { unfold bind at 1.
      destruct (w_connects w) as [|[] ?]; [exfalso; by apply Hans..|done]. }
    done.
Qed.

(** *** What a run does to the database *)

Lemma idle_ret {A} (a : A) : idle (ret a).
Proof. by intros w r w' [= _ <-]. Qed.

Lemma idle_raise {A} e : idle (@raise A e).
Proof. by intros w r w' [= _ <-]. Qed.

Lemma idle_logger l text : idle (logger l text).
Proof. by intros w r w' [= _ <-]. Qed.

Lemma idle_note e : idle (note e).
Proof. by intros w r w' [= _ <-]. Qed.

Lemma idle_now : idle now.
Proof. by intros w r w' [= _ <-]. Qed.

Lemma idle_today : idle today.
Proof. by intros w r w' [= _ <-]. Qed.

Lemma idle_bind {A B} (m : Py A) (k : A → Py B) :
  idle m → (∀ a, idle (k a)) → idle (bind m k).
Proof.
  intros Hm Hk w r w'. unfold bind. destruct (m w) as [[a|e] w1] eqn:Hrun.
  - intros Hrun2. rewrite (Hk a _ _ _ Hrun2). by eapply Hm.
  - intros [= _ <-]. by eapply Hm.
Qed.

Lemma idle_try_except {A} (m : Py A) handler :
  idle m → (∀ e, idle (handler e)) → idle (try_except m handler).
Proof.
  intros Hm Hh w r w'. unfold try_except. destruct (m w) as [[a|e] w1] eqn:Hrun.
  - intros [= _ <-]. by eapply Hm.
  - intros Hrun2. rewrite (Hh e _ _ _ Hrun2). by eapply Hm.
Qed.

Lemma idle_finally {A} (m : Py A) : idle m → idle (finally m close).
Proof.
  intros Hm w r w'. unfold finally, close. destruct (m w) as [r1 w1] eqn:Hrun.
  intros [= _ <-]. by eapply Hm.
Qed.

Lemma idle_connection : idle get_db_connection.
Proof.
  intros w r w'. unfold get_db_connection.
  by destruct (w_connects w) as [|[] ?]; intros [= _ <-].
Qed.

Lemma get_db_connection_value w conn w1 :
  get_db_connection w = (Value conn, w1) → conn = w_db w ∧ w_db w1 = w_db w.
Proof.
  unfold get_db_connection.
  by destruct (w_connects w) as [|[] ?]; intros [= <- <-].
Qed.

Lemma idle_sql r : idle (sql r).
Proof. destruct r; [apply idle_raise|apply idle_ret]. Qed.

Lemma idle_ask {A} api what (r : fetched A) : idle (ask api what r).
Proof.
  apply idle_bind; [apply idle_note|]. intros _.
  destruct r; [apply idle_raise|apply idle_ret].
Qed.

Lemma idle_helper {A} (r : fetched A) : idle (helper r).
Proof. destruct r; [apply idle_raise|apply idle_ret]. Qed.

Lemma idle_named names params : idle (named names params).
Proof.
  induction names as [|n rest IH]; simpl; [apply idle_ret|].
  destruct (params !! n) as [v|]; [|apply idle_raise].
  destruct (Sql.adaptable v); [|apply idle_raise].
  apply idle_bind; [done|]. intros vs. apply idle_ret.
Qed.

Lemma idle_execute query params conn : idle (execute query params conn).
Proof.
  apply idle_bind; [apply idle_named|]. intros vs.
  apply idle_bind; [apply idle_now|]. intros t. apply idle_sql.
Qed.

Lemma idle_executemany query seq : ∀ conn, idle (executemany query seq conn).
Proof.
  induction seq as [|params rest IH]; intros conn; simpl; [apply idle_ret|].
  apply idle_bind; [apply idle_execute|done].
Qed.

Section Tracking.

Variables (I : Sql.database → Prop) (R : Sql.database → Sql.database → Prop).
Hypothesis R_refl : ∀ db, R db db.
Hypothesis R_trans : ∀ a b c, R a b → R b c → R a c.
Hypothesis I_R : ∀ db db', I db → R db db' → I db'.

Lemma idle_tracks {A} (m : Py A) : idle m → tracks I R m.
Proof. intros Hm w r w' _ Hrun. by rewrite (Hm _ _ _ Hrun). Qed.

Lemma tracks_bind {A B} (m : Py A) (k : A → Py B) :
  tracks I R m → (∀ a, tracks I R (k a)) → tracks I R (bind m k).
Proof.
  intros Hm Hk w r w' Hw. unfold bind. destruct (m w) as [[a|e] w1] eqn:Hrun.
  - intros Hrun2. pose proof (Hm _ _ _ Hw Hrun) as H1.
    eapply R_trans; [done|]. eapply Hk; [|done]. by eapply I_R.
  - intros [= _ <-]. by eapply Hm.
Qed.

Lemma tracks_seq {A B} (m : Py A) (k : Py B) :
  tracks I R m → tracks I R k → tracks I R (m ;;; k).
Proof. intros Hm Hk. by apply tracks_bind. Qed.

Lemma tracks_try_except {A} (m : Py A) handler :
  tracks I R m → (∀ e, tracks I R (handler e)) → tracks I R (try_except m handler).
Proof.
  intros Hm Hh w r w' Hw. unfold try_except. destruct (m w) as [[a|e] w1] eqn:Hrun.
  - intros [= _ <-]. by eapply Hm.
  - intros Hrun2. pose proof (Hm _ _ _ Hw Hrun) as H1.
    eapply R_trans; [done|]. eapply Hh; [|done]. by eapply I_R.
Qed.

(** A transaction leads where its work leads, or nowhere. *)
Lemma tracks_transaction work done failed :
  (∀ conn, idle (work conn)) →
  (∀ conn w conn' w', I conn → work conn w = (Value conn', w') → R conn conn') →
  tracks I R (transaction work done failed).
Proof.
  intros Hidle Hwork w r w' Hw. unfold transaction, bind at 1.
  destruct (get_db_connection w) as [[conn|e] w1] eqn:Hconn.
  - apply get_db_connection_value in Hconn as [-> Hdb1].
    unfold finally, try_except, bind, commit, set_db, logger, rollback, ret, close.
    destruct (work (w_db w) w1) as [[conn'|e] w2] eqn:Hrun; intros [= _ <-]; simpl.
    + by eapply Hwork.
    + by rewrite (Hidle _ _ _ _ Hrun), Hdb1.
  - intros [= _ <-]. by rewrite (idle_connection _ _ _ Hconn).
Qed.

(** The generic upsert leads where its pages lead, or nowhere. *)
Lemma tracks_upsert df table_name ticker conflict_key :
  (∀ now cols u pages db db', I db →
     Sql.exec_inserts now (upsert table_name cols u conflict_key) pages db = inr db' →
     R db db') →
  tracks I R (insert_dataframe_to_table df table_name ticker conflict_key).
Proof.
  intros Hpages w r w' Hw Hrun.
  destruct df as [|d|f]; [by injection Hrun as _ <-..|].
  destruct (empty f) eqn:Hne.
  { unfold insert_dataframe_to_table in Hrun. rewrite Hne in Hrun.
    by injection Hrun as _ <-. }
  destruct (w_connects w) as [|[] rest] eqn:Hconn.
  3: { unfold insert_dataframe_to_table in Hrun. rewrite Hne in Hrun.
       unfold bind at 1 in Hrun. rewrite (get_db_connection_refused w rest) in Hrun by done.
       by injection Hrun as _ <-. }
  all: rewrite insert_dataframe_to_table_connected in Hrun
         by (done || by unfold answers; rewrite Hconn).
  all: unfold upsert_outcome in Hrun; simpl in Hrun.
  all: destruct (empty (select _ f)); [by injection Hrun as _ <-|].
  all: destruct (Sql.exec_inserts _ _ _ _) as [|db'] eqn:Hexec; injection Hrun as _ <-;
         [done|]; simpl; by eapply Hpages.
Qed.

End Tracking.

(** *** Primary keys alone store nothing *)

Lemma thinned_refl db : thinned db db.
Proof. intros name. split; [done|]. intros t' Ht'. by exists t'. Qed.

Lemma thinned_trans a b c : thinned a b → thinned b c → thinned a c.
Proof.
  intros Hab Hbc name. destruct (Hab name) as [Hab1 Hab2].
  destruct (Hbc name) as [Hbc1 Hbc2]. split.
  - intros Hne. by rewrite Hbc1, Hab1.
  - intros t' Ht'. destruct (Hbc2 t' Ht') as (t1 & Ht1 & Hu1 & Hs1).
    destruct (Hab2 t1 Ht1) as (t & Ht & Hu & Hs).
    exists t. split; [done|]. split; [congruence|]. by etrans.
Qed.

Lemma thinned_primary_keys db db' :
  only_primary_keys db → thinned db db' → only_primary_keys db'.
Proof.
  intros Hdb Hthin name t' u Ht' Hu.
  destruct (Hthin name) as [_ H]. destruct (H t' Ht') as (t & Ht & Heq & _).
  eapply Hdb; [done|]. by rewrite <- Heq.
Qed.

(** Without an index on its conflict target no statement is accepted. *)
Lemma exec_insert_rejected now q vals db db' :
  only_primary_keys db → keyed_beyond_id q →
  Sql.exec_insert now q vals db ≠ inr db'.
Proof.
  intros Hdb (k & Hk & Hid). unfold Sql.exec_insert.
  destruct (forallb (forallb Sql.adaptable) _); cbn [negb]; [|done].
  destruct (db !! fold_ident (Sql.into q)) as [t|] eqn:Ht; [|done].
  destruct (Sql.check _ _ _ _ _) eqn:Hcheck; [done|]. exfalso.
  apply check_accepts in Hcheck as (_ & _ & Hidx & _).
  apply existsb_exists in Hidx as (u & Hu%list_elem_of_In & Hsame).
  rewrite (Hdb _ _ _ Ht Hu) in Hsame.
  apply andb_true_iff in Hsame as [_ Hsub].
  rewrite subset_spec in Hsub.
  specialize (Hsub (fold_ident k) ltac:(by apply list_elem_of_fmap_2)).
  by apply list_elem_of_singleton in Hsub.
Qed.

Lemma exec_inserts_rejected now q pages db db' :
  only_primary_keys db → keyed_beyond_id q →
  Sql.exec_inserts now q pages db = inr db' → db' = db.
Proof.
  intros Hdb Hq. destruct pages as [|page rest]; simpl; [by intros [= <-]|].
  destruct (Sql.exec_insert now q page db) eqn:Hpage; [done|].
  by apply exec_insert_rejected in Hpage.
Qed.

Lemma execute_rejected q params conn w conn' w' :
  only_primary_keys conn → keyed_beyond_id q →
  execute q params conn w ≠ (Value conn', w').
Proof.
  intros Hdb Hq. unfold execute, bind, now, sql.
  destruct (named _ _ w) as [[vs|e] w1]; [|done].
  destruct (Sql.exec_insert _ _ _ _) eqn:Hexec; [done|].
  by apply exec_insert_rejected in Hexec.
Qed.

Lemma executemany_rejected q seq conn w conn' w' :
  only_primary_keys conn → keyed_beyond_id q →
  executemany q seq conn w = (Value conn', w') → conn' = conn.
Proof.
  intros Hdb Hq. destruct seq as [|params rest]; simpl; [by intros [= <-]|].
  unfold bind. destruct (execute q params conn w) as [[c|e] w1] eqn:Hrun; [|done].
  by apply execute_rejected in Hrun.
Qed.

Ltac beyond_id k := exists k; split; [set_solver|by vm_compute].

Lemma record_insert_stores_nothing name data (skip : gmap string value → bool)
    (q : Sql.insert) (prepare : gmap string value → Py (gmap string value)) done failed :
  keyed_beyond_id q → (∀ d, idle (prepare d)) →
  tracks only_primary_keys thinned
    (note (Entered name) ;;;
     match data with
     | PNone => ret false
     | PFrame _ => raise (ValueError "The truth value of a DataFrame is ambiguous")
     | PDict d =>
         if skip d then ret false
         else transaction (λ conn, let* d' := prepare d in execute q d' conn) done failed
     end).
Proof.
  intros Hq Hprep.
  apply tracks_seq; [apply thinned_trans|apply thinned_primary_keys| |].
  { apply idle_tracks; [apply thinned_refl|apply idle_note]. }
  destruct data as [|d|f].
  - apply idle_tracks; [apply thinned_refl|apply idle_ret].
  - destruct (skip d); [apply idle_tracks; [apply thinned_refl|apply idle_ret]|].
    apply tracks_transaction; [apply thinned_refl|..].
    + intros conn. apply idle_bind; [done|]. intros d'. apply idle_execute.
    + intros conn w conn' w' Hconn Hrun. unfold bind in Hrun.
      destruct (prepare d w) as [[d'|e] w1]; [|done].
      by apply execute_rejected in Hrun.
  - apply idle_tracks; [apply thinned_refl|apply idle_raise].
Qed.

Lemma upsert_stores_nothing name df table_name ticker conflict_key :
  (∃ k, k ∈ conflict_key ∧ fold_ident k ≠ "id") →
  tracks only_primary_keys thinned
    (note (Entered name) ;;;
     insert_dataframe_to_table df table_name ticker conflict_key).
Proof.
  intros Hq.
  apply tracks_seq; [apply thinned_trans|apply thinned_primary_keys| |].
  { apply idle_tracks; [apply thinned_refl|apply idle_note]. }
  apply tracks_upsert; [apply thinned_refl|].
  intros now cols u pages db db' Hdb Hexec.
  apply exec_inserts_rejected in Hexec as ->; [apply thinned_refl|done..].
Qed.

Lemma exec_delete_thins db db' ticker :
  Sql.exec_delete "institution_ownership" "symbol" (VText ticker) db = inr db' →
  thinned db db'.
Proof.
  unfold Sql.exec_delete. change (fold_ident "institution_ownership")
    with "institution_ownership".
  destruct (db !! "institution_ownership") as [t|] eqn:Ht; [|done].
  destruct (negb _); [done|]. intros [= <-] name. split.
  - intros Hne. by rewrite lookup_insert_ne.
  - intros t'. destruct (decide (name = "institution_ownership")) as [->|Hne].
    + rewrite lookup_insert_eq. intros [= <-]. exists t. split; [done|].
      split; [done|]. simpl. apply sublist_filter.
    + rewrite lookup_insert_ne by done. intros Ht'. exists t'. by split.
Qed.

Lemma insert_all_data_thins E ticker data :
  tracks only_primary_keys thinned (insert_all_data E ticker data).
Proof.
  pose proof thinned_trans as Htrans. pose proof thinned_primary_keys as Hinv.
  pose proof thinned_refl as Hrefl.
  unfold insert_all_data.
  apply tracks_seq; [done..|by apply idle_tracks, idle_logger|].
  apply tracks_seq; [done..| |].
  { apply (record_insert_stores_nothing _ _ (λ d, bool_decide (d = ∅))
             price_query ret); [beyond_id "symbol"|intros; apply idle_ret]. }
  apply tracks_seq; [done..| |].
  { apply (record_insert_stores_nothing _ _ (λ d, bool_decide (d = ∅))
             org_overview_query ret); [beyond_id "symbol"|intros; apply idle_ret]. }
  apply tracks_seq; [done..| |].
  { apply (record_insert_stores_nothing _ _
             (λ d, bool_decide (d = ∅) || bool_decide (get d "earnings_date" = VNone))
             calendar_events_query ret); [beyond_id "symbol"|intros; apply idle_ret]. }
  apply tracks_seq; [done..|apply upsert_stores_nothing; beyond_id "symbol"|].
  apply tracks_seq; [done..|apply upsert_stores_nothing; beyond_id "symbol"|].
  apply tracks_seq; [done..|apply upsert_stores_nothing; beyond_id "symbol"|].
  apply tracks_seq; [done..| |].
  { apply (record_insert_stores_nothing _ _ (λ d, bool_decide (d = ∅))
             valuation_measures_query
             (λ d, let* date := today in ret (<["asOfDate" := date]> d)));
      [beyond_id "symbol"|].
    intros d. apply idle_bind; [apply idle_today|intros; apply idle_ret]. }
  apply tracks_seq; [done..| |].
  { unfold insert_institution_ownership.
    apply tracks_seq; [done..|by apply idle_tracks, idle_note|].
    apply tracks_seq; [done..| |].
    - intros w r w' Hw. unfold bind at 1.
      destruct (get_db_connection w) as [[conn|e] w1] eqn:Hconn.
      + apply get_db_connection_value in Hconn as [-> Hdb1].
        unfold finally, try_except, bind, sql, commit, set_db, logger, rollback,
          ret, raise, close.
        destruct (Sql.exec_delete _ _ _ _) as [|db1] eqn:Hdel; intros [= _ <-]; simpl.
        * by rewrite Hdb1.
        * by eapply exec_delete_thins.
      + intros [= _ <-]. by rewrite (idle_connection _ _ _ Hconn).
    - apply tracks_upsert; [done|].
      intros now cols u pages db db' Hdb Hexec.
      apply exec_inserts_rejected in Hexec as ->; [done..|beyond_id "symbol"]. }
  apply tracks_seq; [done..|apply upsert_stores_nothing; beyond_id "symbol"|].
  apply tracks_seq; [done..|apply upsert_stores_nothing; beyond_id "symbol"|].
  apply tracks_seq; [done..| |by apply idle_tracks, idle_logger].
  unfold calculate_and_insert_quarterly_price.
  apply tracks_seq; [done..|by apply idle_tracks, idle_note|].
  apply tracks_try_except; [done..| |].
  - apply tracks_bind; [done..|by apply idle_tracks, idle_ask|]. intros hist.
    destruct (empty hist); [by apply idle_tracks, idle_ret|].
    apply tracks_bind; [done..|by apply idle_tracks, idle_helper|]. intros records.
    case_bool_decide; [by apply idle_tracks, idle_ret|].
    apply tracks_transaction; [done|intros; apply idle_executemany|].
    intros conn w conn' w' Hconn Hrun.
    apply executemany_rejected in Hrun as ->; [done..|beyond_id "symbol"].
  - intros e. apply idle_tracks; [done|].
    apply idle_bind; [apply idle_logger|intros; apply idle_ret].
Qed.

(** On a database whose only unique indexes are primary keys on [id],
    which is the database [create_all_tables] creates, [insert_all_data]
    stores nothing, whatever the data: every table but the institutional
    holders is left as it was, and no table holds a row it did not hold. *)
Theorem primary_keys_alone_store_nothing E ticker data w r w' :
  only_primary_keys (w_db w) →
  insert_all_data E ticker data w = (r, w') →
  (∀ name, name ≠ "institution_ownership" → w_db w' !! name = w_db w !! name) ∧
  (∀ name, sublist (stored name (w_db w')) (stored name (w_db w))).
Proof.
  intros Hw Hrun. pose proof (insert_all_data_thins E ticker data w r w' Hw Hrun) as H.
  split; [intros name; apply H|].
  intros name. destruct (H name) as [_ Hrows]. unfold stored.
  destruct (w_db w' !! name) as [t'|]; simpl; [|apply sublist_nil_l].
  destruct (Hrows t' eq_refl) as (t & -> & _ & Hsub). done.
Qed.

(** The same on the declared schema, for what the extractor hands over
    for ACME: the price table is as it was and no holder is on file. *)
Lemma declared_schema_run_stores_nothing :
  w_db (insert_all_data acme_market "ACME" acme_data declared_world).2 !! "price"
  = w_db declared_world !! "price"
  ∧ stored "institution_ownership"
      (w_db (insert_all_data acme_market "ACME" acme_data declared_world).2) = [].
Proof.
  destruct (primary_keys_alone_store_nothing acme_market "ACME" acme_data declared_world
              (insert_all_data acme_market "ACME" acme_data declared_world).1
              (insert_all_data acme_market "ACME" acme_data declared_world).2)
    as [Hsame Hsub].
  - apply create_all_tables_primary_keys. intros name t u Hname.
    by rewrite lookup_empty in Hname.
  - by destruct (insert_all_data acme_market "ACME" acme_data declared_world).
  - split; [by apply Hsame|].
    specialize (Hsub "institution_ownership").
    by apply sublist_nil_r in Hsub.
Defined.

(** *** Records come from [yfinance] or not at all *)

Lemma invoked_noted_api api what w :
  invoked (noted (Invoked api what) w) = invoked w ++ [api].
Proof. unfold invoked. simpl. by rewrite omap_app. Qed.

Lemma invoked_logged l text w : invoked (logged l text w) = invoked w.
Proof. done. Qed.

Lemma pick_symbol ticker info fields :
  pick ticker info fields !! "symbol" = Some (VText ticker).
Proof. unfold pick. by rewrite lookup_insert_eq. Qed.

Lemma pick_field ticker info fields k k' :
  NoDup fields.*1 → (k, k') ∈ fields → k ≠ "symbol" →
  pick ticker info fields !! k = Some (get info k').
Proof.
  intros Hnd Hin Hne. unfold pick. rewrite lookup_insert_ne by done.
  apply elem_of_list_to_map.
  - by rewrite <- list_fmap_compose.
  - apply list_elem_of_fmap. by exists (k, k').
Qed.

Lemma pick_dom ticker info fields :
  dom (pick ticker info fields) = {["symbol"]} ∪ list_to_set fields.*1.
Proof.
  unfold pick. rewrite dom_insert_L, dom_list_to_map_L.
  by rewrite <- list_fmap_compose.
Qed.

(** [extract_price_data] returns on every input.  It hands back a dict
    exactly when [yfinance] answers with a [regularMarketPrice]: the dict
    has the thirteen keys the price statement names, [symbol] is the
    ticker, [exchangeName] is the info's [exchange], every other key is
    the info's value under the same key, and no other provider was asked.
    In every other case it returns [None], whatever the [alpha_vantage]
    client answers. *)
Theorem price_is_from_yfinance_or_nothing E self ticker w :
  ∃ r w', extract_price_data E self ticker w = (Value r, w') ∧
    match yf_info E ticker with
    | Returns info =>
        if bool_decide (get info "regularMarketPrice" ≠ VNone) then
          ∃ d, r = PDict d ∧
            dom d = list_to_set (Sql.ins_columns price_query) ∧
            d !! "symbol" = Some (VText ticker) ∧
            d !! "exchangeName" = Some (get info "exchange") ∧
            (∀ c, c ∈ Sql.ins_columns price_query → c ≠ "symbol" →
                  c ≠ "exchangeName" → d !! c = Some (get info c)) ∧
            invoked w' = invoked w ++ ["yfinance"] ∧ w_log w' = w_log w
        else r = PNone
    | Raises _ => r = PNone
    end.
Proof.
  unfold extract_price_data. rewrite priority_price. unfold for_apis.
  destruct (yf_info E ticker) as [why|info]; py_unfold; simpl.
  - destruct (alpha_vantage_client self) as [c|]; simpl; [|by eauto].
    destruct (c _ ticker) as [|[|d|f]]; simpl; eauto.
    destruct (bool_decide (d = ∅)); simpl; eauto.
  - case_bool_decide as Hprice; simpl.
    + eexists _, _. split; [done|]. eexists. split; [done|].
      split; [by rewrite pick_dom|].
      split; [apply pick_symbol|].
      assert (Hnd : NoDup (Sql.ins_columns price_query)).
      { apply NoDup_ListNoDup. vm_compute.
        repeat (constructor; [vm_compute; intuition discriminate|]). constructor. }
      apply NoDup_cons in Hnd as [_ Hnd].
      split; [by apply pick_field; [|set_solver|]|].
      split; [|by rewrite invoked_noted_api].
      intros c Hc Hs Hx. apply pick_field; [done| |done].
      apply list_elem_of_In in Hc. apply list_elem_of_In. vm_compute in Hc.
      vm_compute. intuition (subst; auto 20; congruence).
    + destruct (alpha_vantage_client self) as [c|]; simpl; [|by eauto].
      destruct (c _ ticker) as [|[|d|f]]; simpl; eauto.
      destruct (bool_decide (d = ∅)); simpl; eauto.
Qed.

(** Every answer the configured clients can give. *)
Ltac client_answers :=
  repeat (simpl; match goal with
  | |- context [fmp_client ?s] => destruct (fmp_client s) as [?|]
  | |- context [finnhub_client ?s] => destruct (finnhub_client s) as [?|]
  | |- context [alpha_vantage_client ?s] => destruct (alpha_vantage_client s) as [?|]
  | |- context [?k ?m ?t] =>
      lazymatch type of (k m t) with
      | fetched payload => destruct (k m t) as [|[|?|?]]
      end
  | |- context [bool_decide (?d = ∅)] => destruct (bool_decide (d = ∅))
  end); simpl; eauto.

Ltac distinct_names :=
  apply NoDup_ListNoDup; vm_compute;
  repeat (constructor; [vm_compute; intuition discriminate|]); constructor.

Ltac listed Hc :=
  apply list_elem_of_In in Hc; apply list_elem_of_In; vm_compute in Hc;
  vm_compute; intuition (subst; auto 30; congruence).

(** [extract_org_overview] returns on every input.  It hands back a
    dict exactly when [yfinance] answers with a non-empty info: the dict
    has the seventeen keys the overview statement names, [symbol] is the
    ticker, every other key is the info's value under the same key, and
    no other provider was asked.  In every other case it returns [None],
    whatever the [fmp] and [finnhub] clients answer. *)
Theorem overview_is_from_yfinance_or_nothing E self ticker w :
  ∃ r w', extract_org_overview E self ticker w = (Value r, w') ∧
    match yf_info E ticker with
    | Returns info =>
        if bool_decide (info ≠ ∅) then
          ∃ d, r = PDict d ∧
            dom d = list_to_set (Sql.ins_columns org_overview_query) ∧
            d !! "symbol" = Some (VText ticker) ∧
            (∀ c, c ∈ Sql.ins_columns org_overview_query → c ≠ "symbol" →
                  d !! c = Some (get info c)) ∧
            invoked w' = invoked w ++ ["yfinance"] ∧ w_log w' = w_log w
        else r = PNone
    | Raises _ => r = PNone
    end.
Proof.
  unfold extract_org_overview.
  change (priority "org_overview") with ["yfinance"; "fmp"; "finnhub"].
  unfold for_apis.
  destruct (yf_info E ticker) as [why|info]; py_unfold; simpl.
  - client_answers.
  - case_bool_decide as Hinfo; simpl; [|client_answers].
    eexists _, _. split; [done|]. eexists. split; [done|].
    split; [by rewrite pick_dom|].
    split; [apply pick_symbol|].
    assert (Hnd : NoDup (Sql.ins_columns org_overview_query)) by distinct_names.
    apply NoDup_cons in Hnd as [_ Hnd].
    split; [|by rewrite invoked_noted_api].
    intros c Hc Hs. apply pick_field; [done| |done]. listed Hc.
Qed.

(** [extract_valuation_measures] returns on every input.  It hands back
    a dict exactly when [yfinance] answers with a non-empty info: [symbol]
    is the ticker and the five ratios are the info's values under the
    [yfinance] names; with the [asOfDate] the insert adds, the keys are
    those the valuation statement names.  In every other case it returns
    [None]. *)
Theorem valuation_is_from_yfinance_or_nothing E ticker w :
  ∃ r w', extract_valuation_measures E ticker w = (Value r, w') ∧
    match yf_info E ticker with
    | Returns info =>
        if bool_decide (info ≠ ∅) then
          ∃ d, r = PDict d ∧
            (∀ date, dom (<["asOfDate" := date]> d)
                     = list_to_set (Sql.ins_columns valuation_measures_query)) ∧
            d !! "symbol" = Some (VText ticker) ∧
            (∀ k k', (k, k') ∈ [("PriceToEarningsRatio", "trailingPE");
                                ("PriceToSalesRatio", "priceToSalesTrailing12Months");
                                ("PriceToBookRatio", "priceToBook");
                                ("EnterpiseToRevenue", "enterpriseToRevenue");
                                ("EnterpiseToEbitda", "enterpriseToEbitda")] →
                     d !! k = Some (get info k')) ∧
            invoked w' = invoked w ++ ["yfinance"] ∧ w_log w' = w_log w
        else r = PNone
    | Raises _ => r = PNone
    end.
Proof.
  unfold extract_valuation_measures.
  change (priority "valuation_measures") with ["yfinance"; "fmp"].
  unfold for_apis.
  destruct (yf_info E ticker) as [why|info]; py_unfold; simpl; [by eauto|].
  case_bool_decide as Hinfo; simpl; [|by eauto].
  eexists _, _. split; [done|]. eexists. split; [done|].
  split.
  { intros date. rewrite dom_insert_L, pick_dom. simpl. set_solver. }
  split; [apply pick_symbol|].
  split; [|by rewrite invoked_noted_api].
  intros k k' Hk. apply pick_field; [distinct_names|done|].
  apply list_elem_of_In in Hk. vm_compute in Hk. intuition congruence.
Qed.

(** [extract_calendar_events] returns on every input.  When [yfinance]
    answers with a non-empty calendar it hands back a dict with the six
    keys the calendar statement names, [symbol] the ticker and the five
    figures those of the row labelled 0, and asks no other provider.
    Otherwise it returns [None] or what the [alpha_vantage] formatter makes
    of that client's answer; the [fmp] answer is never returned. *)
Theorem calendar_is_from_yfinance_first E self ticker w :
  ∃ r w', extract_calendar_events E self ticker w = (Value r, w') ∧
    let otherwise :=
      r = PNone ∨
      ∃ c data, alpha_vantage_client self = Some c ∧
        c "get_earnings_calendar" ticker = Returns data ∧
        _format_alpha_vantage_calendar E data ticker = Returns r in
    match yf_table E "calendar" ticker with
    | Returns (Some cal) =>
        if empty cal then otherwise
        else
          ∃ d, r = PDict d ∧
            dom d = list_to_set (Sql.ins_columns calendar_events_query) ∧
            d !! "symbol" = Some (VText ticker) ∧
            (∀ k k', (k, k') ∈ [("earnings_date", "Earnings Date");
                                ("earnings_average", "Earnings Average");
                                ("earnings_low", "Earnings Low");
                                ("earnings_high", "Earnings High");
                                ("revenue_average", "Revenue Average")] →
                     d !! k = Some (get (row_dict cal "0") k')) ∧
            invoked w' = invoked w ++ ["yfinance"] ∧ w_log w' = w_log w
    | _ => otherwise
    end.
Proof.
  unfold extract_calendar_events.
  change (priority "calendar_events") with ["yfinance"; "fmp"; "alpha_vantage"].
  unfold for_apis.
  destruct (yf_table E "calendar" ticker) as [why|[cal|]]; py_unfold; simpl.
  2: destruct (empty cal) eqn:Hcal; simpl.
  3: { eexists _, _. split; [done|]. eexists. split; [done|].
       split; [rewrite pick_dom; simpl; set_solver|].
       split; [apply pick_symbol|].
       split; [|by rewrite invoked_noted_api].
       intros k k' Hk. apply pick_field; [distinct_names|done|].
       apply list_elem_of_In in Hk. vm_compute in Hk. intuition congruence. }
  all: destruct (fmp_client self) as [c1|]; simpl;
    [destruct (c1 _ ticker) as [|[|d1|f1]]; simpl;
       try destruct (bool_decide (d1 = ∅)); simpl; eauto|];
    (destruct (alpha_vantage_client self) as [c2|] eqn:Hc2; simpl; [|by eauto]);
    (destruct (c2 _ ticker) as [|[|d2|f2]] eqn:Hd2; simpl; eauto);
    try (destruct (bool_decide (d2 = ∅)); simpl; eauto);
    try (destruct (_format_alpha_vantage_calendar E _ ticker) eqn:Hf; simpl; by eauto 10).
Qed.


(** *** Statements are transposed *)

Lemma index_label_taken labels :
  index_label labels ∈ labels ↔ "index" ∈ labels ∧ "level_0" ∈ labels.
Proof. unfold index_label. case_bool_decide; tauto. Qed.

Lemma transposed_periods ticker bs renaming bs_df :
  (∀ c, from_option (λ im : nat * (string * string), im.2.2) c
          (list_find (λ m, m.1 = c) renaming)
        = if bool_decide (c = "index") then "asOfDate" else c) →
  T_reset_index bs = Some bs_df →
  periods ticker bs (rename renaming (set_column "symbol" (VText ticker) bs_df)).
Proof.
  intros Hg. unfold T_reset_index. case_bool_decide as Htaken; [done|].
  intros [= <-]. unfold rename, periods.
  set (g := λ c, from_option (λ im : nat * (string * string), im.2.2) c
                   (list_find (λ m, m.1 = c) renaming)).
  assert (Hgc : ∀ c, g c = if bool_decide (c = "index") then "asOfDate" else c).
  { intros c. unfold g. by rewrite Hg. }
  assert (Hsym : ∀ c, g c = "symbol" ↔ c = "symbol").
  { intros c. rewrite Hgc. case_bool_decide; [by subst|done]. }
  clearbody g. clear Hg.
  set (labels := (records bs).*1) in *.
  set (first := index_label labels) in *.
  assert (Hfirst : g first
            = if bool_decide ("index" ∈ labels) then "level_0" else "asOfDate").
  { rewrite Hgc. unfold first, index_label.
    by destruct (bool_decide ("index" ∈ labels)). }
  assert (Hfs : first ≠ "symbol").
  { unfold first, index_label. by destruct (bool_decide ("index" ∈ labels)). }
  assert (Hlabel : ∀ i item, records bs !! i = Some item → labels !! i = Some item.1).
  { intros i item Hi. unfold labels. by rewrite list_lookup_fmap, Hi. }
  assert (Hlen : length labels = length (records bs)) by (unfold labels; by rewrite length_fmap).
  unfold set_column. cbn [columns records].
  set (cells := λ j : nat,
         (λ r : string * list value, transposed bs j (default VNone (r.2 !! j)))
         <$> records bs).
  assert (Hcells : ∀ j i item, records bs !! i = Some item →
                     cells j !! i = Some (transposed bs j (default VNone (item.2 !! j)))).
  { intros j i item Hi. unfold cells. by rewrite list_lookup_fmap, Hi. }
  assert (Hclen : ∀ j, length (cells j) = length labels).
  { intros j. unfold cells. by rewrite length_fmap. }
  change (imap _ (columns bs))
    with (imap (λ j c, (pretty j, VText c :: cells j)) (columns bs)).
  clearbody cells first labels.
  destruct (decide ("symbol" ∈ first :: labels)) as [Hin|Hin];
    [rewrite (bool_decide_true ("symbol" ∈ first :: labels)) by done
    |rewrite (bool_decide_false ("symbol" ∈ first :: labels)) by done];
    cbn [columns records].
  - rewrite length_fmap, length_imap.
    split; [done|]. split; [by rewrite fmap_cons, Hfirst|].
    split.
    { apply list_elem_of_lookup_1 in Hin as [i Hi]. exists i.
      rewrite list_lookup_fmap, Hi. simpl. f_equal. by apply Hsym. }
    split.
    { intros i item Hi. rewrite list_lookup_fmap, lookup_cons.
      rewrite (Hlabel i item Hi). simpl. f_equal. apply Hgc. }
    intros j period Hj. eexists. split.
    { rewrite list_lookup_fmap, list_lookup_imap, Hj. done. }
    cbn [fst snd]. split.
    { simpl. rewrite bool_decide_false; [done|]. intros [= Hf]. by destruct Hfs. }
    split.
    + intros i Hi. rewrite list_lookup_fmap in Hi.
      destruct ((first :: labels) !! i) as [c|] eqn:Hc; [|done].
      simpl in Hi. injection Hi as Hi. apply Hsym in Hi as ->.
      rewrite list_lookup_imap.
      destruct i as [|i]; [simpl in Hc; injection Hc as Hc; by destruct Hfs|].
      rewrite lookup_cons in Hc. rewrite !lookup_cons.
      destruct (cells j !! i) as [x|] eqn:Hx.
      * simpl. by rewrite Hc, bool_decide_true.
      * apply lookup_ge_None in Hx. apply lookup_lt_Some in Hc. rewrite Hclen in Hx. lia.
    + intros i item Hi Hne. rewrite list_lookup_imap, !lookup_cons.
      rewrite (Hcells j i item Hi), (Hlabel i item Hi). simpl.
      rewrite bool_decide_false; [done|congruence].
  - rewrite length_fmap, length_imap.
    split; [done|]. split; [by rewrite fmap_app, fmap_cons, Hfirst|].
    split.
    { exists (S (length labels)). rewrite list_lookup_fmap.
      rewrite (lookup_app_r (first :: labels)) by (simpl; lia).
      simpl. rewrite Nat.sub_diag. simpl. f_equal. by apply Hsym. }
    split.
    { intros i item Hi. rewrite list_lookup_fmap.
      pose proof (lookup_lt_Some _ _ _ Hi) as Hlt.
      rewrite (lookup_app_l (first :: labels)) by (simpl; lia).
      rewrite lookup_cons, (Hlabel i item Hi). simpl. f_equal. apply Hgc. }
    intros j period Hj. eexists. split.
    { rewrite list_lookup_fmap, list_lookup_imap, Hj. done. }
    cbn [fst snd]. split; [done|]. split.
    + intros i Hi. rewrite list_lookup_fmap in Hi.
      destruct (((first :: labels) ++ ["symbol"]) !! i) as [c|] eqn:Hc; [|done].
      simpl in Hi. injection Hi as Hi. apply Hsym in Hi as ->.
      apply lookup_app_Some in Hc as [Hc|[Hge Hc]].
      { exfalso. apply Hin. by eapply list_elem_of_lookup_2. }
      apply list_lookup_singleton_Some in Hc as [Hi _]. simpl in Hge, Hi.
      assert (i = S (length labels)) as -> by lia.
      rewrite (lookup_app_r (VText period :: cells j)) by (simpl; rewrite Hclen; lia).
      simpl. by rewrite Hclen, Nat.sub_diag.
    + intros i item Hi Hne.
      pose proof (lookup_lt_Some _ _ _ Hi) as Hlt.
      rewrite (lookup_app_l (VText period :: cells j)) by (simpl; rewrite Hclen; lia).
      by rewrite lookup_cons, (Hcells j i item Hi).
Qed.

Lemma for_apis_skips body what ticker apis w :
  (∀ api, api ∈ apis → body api = ret None) →
  for_apis body what ticker apis w = (Value None, w).
Proof.
  revert w. induction apis as [|api rest IH]; intros w Hbody; [done|]. simpl.
  rewrite (Hbody api) by by left. unfold ret at 1. apply IH.
  intros api' Hin. apply Hbody. by right.
Qed.

Lemma extract_statement_outcome E data_type what attr quarterly_attr renaming
    ticker quarterly rest w :
  priority data_type = "yfinance" :: rest → "yfinance" ∉ rest →
  (∀ c, from_option (λ im : nat * (string * string), im.2.2) c
          (list_find (λ m, m.1 = c) renaming)
        = if bool_decide (c = "index") then "asOfDate" else c) →
  ∃ r w', extract_statement E data_type what attr quarterly_attr renaming
            ticker quarterly w = (Value r, w') ∧
    statement_outcome E (if quarterly then quarterly_attr else attr) ticker r.
Proof.
  intros Hprio Hrest Hg. unfold extract_statement, statement_outcome. rewrite Hprio.
  assert (Hskip : ∀ (k : string → Py (option payload)) api, api ∈ rest →
            (if bool_decide (api = "yfinance") then k api else ret None) = ret None).
  { intros k api Hin. rewrite bool_decide_false; [done|]. by intros ->. }
  cbn [for_apis]. rewrite bool_decide_true by done.
  destruct (yf_table E _ ticker) as [why|[bs|]]; py_unfold; simpl.
  - rewrite for_apis_skips by (intros; by apply (Hskip (λ _, _))). eauto.
  - destruct (empty bs); simpl.
    + rewrite for_apis_skips by (intros; by apply (Hskip (λ _, _))). eauto.
    + destruct (T_reset_index bs) as [bs_df|] eqn:Hreset; simpl.
      * rewrite bool_decide_false; cycle 1.
        { rewrite <- index_label_taken. unfold T_reset_index in Hreset.
          by case_bool_decide. }
        eexists _, _. split; [done|]. eexists. split; [done|].
        by apply transposed_periods.
      * rewrite bool_decide_true; cycle 1.
        { rewrite <- index_label_taken. unfold T_reset_index in Hreset.
          by case_bool_decide. }
        rewrite for_apis_skips by (intros; by apply (Hskip (λ _, _))). eauto.
  - rewrite for_apis_skips by (intros; by apply (Hskip (λ _, _))). eauto.
Qed.

Lemma renaming_of_statements c renaming :
  renaming = [("index", "asOfDate")] ∨
  renaming = [("index", "asOfDate"); ("asOfDate", "asOfDate")] →
  from_option (λ im : nat * (string * string), im.2.2) c
    (list_find (λ m, m.1 = c) renaming)
  = if bool_decide (c = "index") then "asOfDate" else c.
Proof.
  intros Hr. destruct (decide (c = "index")) as [->|Hne].
  { by destruct Hr as [->| ->]. }
  rewrite bool_decide_false by done.
  destruct Hr as [->| ->]; simpl; repeat case_decide; simpl in *; congruence.
Qed.

(** The three statement extractors return on every input.  Each returns
    [None] unless [yfinance] answers with a non-empty table, and then the
    table transposed: one row per fiscal period, the first column the
    period, [symbol] the ticker, each line item in a column of its own.
    The first column is [asOfDate]; only if a line item is labelled
    [index] is it [level_0], that line item taking the label [asOfDate];
    and if a line item is labelled [level_0] as well, the extractor
    returns [None]. *)
Theorem statements_are_transposed E ticker quarterly w :
  (∃ r w', extract_balance_sheet E ticker quarterly w = (Value r, w') ∧
     statement_outcome E
       (if quarterly then "quarterly_balance_sheet" else "balance_sheet") ticker r) ∧
  (∃ r w', extract_income_statement E ticker quarterly w = (Value r, w') ∧
     statement_outcome E
       (if quarterly then "quarterly_financials" else "financials") ticker r) ∧
  (∃ r w', extract_cash_flow E ticker quarterly w = (Value r, w') ∧
     statement_outcome E
       (if quarterly then "quarterly_cashflow" else "cashflow") ticker r).
Proof.
  split; [|split];
    (eapply extract_statement_outcome;
     [reflexivity
     |intros Hin; apply list_elem_of_In in Hin; vm_compute in Hin;
      intuition discriminate
     |intros c; apply renaming_of_statements; auto]).
Qed.

(** *** Announcement prices *)

Lemma price_on_cases hist day column w :
  (∃ e, price_on hist day column w = (Raise e, w)) ∨
  (∃ v, price_on hist day column w = (Value v, w)).
Proof.
  unfold price_on. destruct (list_find _ (records hist)) as [[? r]|]; [|right; by eauto].
  destruct (list_find _ (columns hist)) as [[j ?]|]; [right|left]; by eauto.
Qed.

Lemma announcement_rows_spec E ticker dates : ∀ w rows w',
  announcement_rows E ticker dates w = (Value rows, w') →
  (length rows ≤ length dates)%nat ∧
  (∀ row, row ∈ rows → ∃ date b a,
     row = [VText ticker; VText date; VText "Earnings"; b; a; change_percent E b a] ∧
     date ∈ dates ∧ b ≠ VNone ∧ a ≠ VNone) ∧
  (∀ date why, date ∈ dates → yf_download E ticker date ≠ Raises why).
Proof.
  induction dates as [|date rest IH]; intros w rows w'; simpl.
  { intros [= <- <-]. split; [done|].
    split; [intros ? Hin|intros ? ? Hin]; by apply elem_of_nil in Hin. }
  unfold ask, bind at 1, bind at 1, note.
  destruct (yf_download E ticker date) as [why|hist] eqn:Hdl; [done|].
  unfold ret at 1.
  assert (Hstep : ∀ rows0,
    (length rows0 ≤ length rest)%nat ∧
    (∀ row, row ∈ rows0 → ∃ date b a,
       row = [VText ticker; VText date; VText "Earnings"; b; a; change_percent E b a] ∧
       date ∈ rest ∧ b ≠ VNone ∧ a ≠ VNone) ∧
    (∀ date why, date ∈ rest → yf_download E ticker date ≠ Raises why) →
    (length rows0 ≤ S (length rest))%nat ∧
    (∀ row, row ∈ rows0 → ∃ date0 b a,
       row = [VText ticker; VText date0; VText "Earnings"; b; a; change_percent E b a] ∧
       date0 ∈ date :: rest ∧ b ≠ VNone ∧ a ≠ VNone) ∧
    (∀ date0 why, date0 ∈ date :: rest → yf_download E ticker date0 ≠ Raises why)).
  { intros rows0 (Hlen & Hrows & Hdates). split; [lia|]. split.
    - intros row Hrow. destruct (Hrows row Hrow) as (d & b & a & ? & ? & ?).
      exists d, b, a. split; [done|]. split; [by right|done].
    - intros d why [->|Hd]%elem_of_cons; [by rewrite Hdl|by apply Hdates]. }
  destruct (empty hist).
  { intros Hrun. by apply Hstep, (IH _ _ _ Hrun). }
  unfold bind.
  destruct (price_on_cases hist (add_business_days E date (-1)) "Close"
              (noted (Invoked "yfinance" "download") w)) as [[e ->]|[b ->]]; [done|].
  destruct (price_on_cases hist (add_business_days E date 1) "Open"
              (noted (Invoked "yfinance" "download") w)) as [[e ->]|[a ->]]; [done|].
  destruct (announcement_rows E ticker rest _) as [[more|e] w1] eqn:Hmore; [|done].
  apply IH in Hmore. apply Hstep in Hmore as Hmore'.
  destruct b as [b|], a as [a|]; try (by intros [= <- <-]).
  destruct (bool_decide (b ≠ VNone)) eqn:Hb, (bool_decide (a ≠ VNone)) eqn:Ha;
    simpl; try (by intros [= <- <-]).
  intros [= <- <-]. apply bool_decide_eq_true in Hb, Ha.
  destruct Hmore as (Hlen & Hrows & Hdates). destruct Hmore' as (_ & Hrows' & Hdates').
  split; [simpl; lia|]. split; [|done].
  intros row [->|Hrow]%elem_of_cons; [|by apply Hrows'].
  exists date, b, a. split; [done|]. split; [by left|done].
Qed.

Lemma unbox_idemp v : unbox (unbox v) = unbox v.
Proof. by destruct v. Qed.

Lemma unbox_settle rows j v : unbox (settle rows j v) = unbox v.
Proof. unfold settle. destruct (_ || _); [done|apply unbox_idemp]. Qed.

Lemma DataFrame_records labels rows i row :
  rows !! i = Some row →
  ∃ stored, records (DataFrame labels rows) !! i = Some stored ∧
    unbox <$> stored.2 = unbox <$> row.
Proof.
  intros Hi. unfold DataFrame. cbn [records]. rewrite list_lookup_imap, Hi. simpl.
  eexists. split; [done|]. simpl. apply list_eq. intros j.
  rewrite !list_lookup_fmap, list_lookup_imap.
  destruct (row !! j) as [v|]; [|done]. simpl. by rewrite unbox_settle.
Qed.

Lemma DataFrame_plain labels rows :
  (∀ row v, row ∈ rows → v ∈ row → is_int64 v = false) →
  snd <$> records (DataFrame labels rows) = rows.
Proof.
  intros Hplain. unfold DataFrame. cbn [records]. apply list_eq. intros i.
  rewrite list_lookup_fmap, list_lookup_imap.
  destruct (rows !! i) as [row|] eqn:Hi; [|done]. simpl. f_equal.
  apply list_eq. intros j. rewrite list_lookup_imap.
  destruct (row !! j) as [v|] eqn:Hj; [|done]. simpl. f_equal.
  assert (Hv : is_int64 v = false).
  { apply (Hplain row); by eapply list_elem_of_lookup_2. }
  unfold settle. destruct (_ || _); [done|]. by destruct v.
Qed.

(** [extract_announcement_price] returns on every input: [None], or the
    frame pandas makes of a list of rows under the six columns of the
    announcement table, all of which the declared catalog has.  There is
    at least one row and at most one per earnings date; every row is
    complete: the ticker, an earnings date, the type [Earnings], a price
    before and a price after that are not [None], and their change; the
    frame holds the rows in order, a number possibly under another
    dtype, and the rows as they are when none of their cells is a
    [numpy.int64].  A frame is returned only if the download raised for
    none of the earnings dates. *)
Theorem announcement_rows_are_complete E ticker w :
  ∃ r w', extract_announcement_price E ticker w = (Value r, w') ∧
    (r = PNone ∨
     ∃ rows dates,
       let f := DataFrame ["symbol"; "announcement_date"; "announcement_type";
                           "price_before"; "price_after"; "change_percent"] rows in
       r = PFrame f ∧
       yf_table E "earnings_dates" ticker = Returns (Some dates) ∧
       columns f = ["symbol"; "announcement_date"; "announcement_type";
                    "price_before"; "price_after"; "change_percent"] ∧
       intersect f (Sql.columns_of (create_all_tables ∅) "announcement_price")
       = columns f ∧
       records f ≠ [] ∧
       length (records f) = length rows ∧
       (length rows ≤ length (records dates))%nat ∧
       (∀ row, row ∈ rows → ∃ date b a,
          row = [VText ticker; VText date; VText "Earnings"; b; a;
                 change_percent E b a] ∧
          date ∈ (records dates).*1 ∧ b ≠ VNone ∧ a ≠ VNone) ∧
       (∀ i row, rows !! i = Some row →
          ∃ stored, records f !! i = Some stored ∧
            unbox <$> stored.2 = unbox <$> row) ∧
       ((∀ row v, row ∈ rows → v ∈ row → is_int64 v = false) →
        snd <$> records f = rows) ∧
       (∀ date why, date ∈ (records dates).*1 →
                    yf_download E ticker date ≠ Raises why)).
Proof.
  unfold extract_announcement_price, try_except, ask, bind at 1, bind at 1, note.
  destruct (yf_table E "earnings_dates" ticker) as [why|[dates|]] eqn:Hdates;
    [py_unfold; simpl; by eauto| |py_unfold; simpl; by eauto].
  unfold ret at 1. destruct (empty dates); [py_unfold; simpl; by eauto|].
  unfold bind at 1.
  destruct (announcement_rows E ticker _ _) as [[rows|e] w1] eqn:Hrows;
    [|py_unfold; simpl; by eauto].
  apply announcement_rows_spec in Hrows as (Hlen & Hshape & Hdl).
  case_bool_decide as Hnil; [py_unfold; simpl; by eauto|].
  eexists _, _. split; [done|]. right. exists rows, dates.
  split; [done|]. split; [done|]. split; [done|].
  split; [by vm_compute|].
  split; [unfold DataFrame; cbn [records]; by destruct rows|].
  split; [unfold DataFrame; cbn [records]; by rewrite length_imap|].
  split; [by rewrite length_fmap in Hlen|].
  split; [done|]. split; [|split; [apply DataFrame_plain|done]].
  intros i row Hi. by apply DataFrame_records.
Qed.


(** *** Holders and insiders *)

Lemma rename_holders c :
  from_option (λ im : nat * (string * string), im.2.2) c
    (list_find (λ m, m.1 = c)
       [("Holder", "organization"); ("% Out", "pctHeld");
        ("Shares", "position"); ("Value", "value")])
  = holder_label c.
Proof.
  unfold holder_label. simpl.
  repeat case_decide; repeat case_bool_decide; simpl in *; congruence.
Qed.

(** [extract_institution_ownership] returns on every input, [None]
    unless [yfinance] answers with a non-empty table of holders.  Then
    it returns that table, row for row, with the four [yfinance] labels
    renamed, the other cells as they were, and a column [symbol] that
    holds the ticker in every row. *)
Theorem holders_are_stamped E ticker w :
  ∃ r w', extract_institution_ownership E ticker w = (Value r, w') ∧
    match yf_table E "institutional_holders" ticker with
    | Returns (Some holders) =>
        if empty holders then r = PNone
        else
          ∃ f, r = PFrame f ∧
            length (records f) = length (records holders) ∧
            (∃ i, columns f !! i = Some "symbol") ∧
            (∀ i c, columns holders !! i = Some c →
                    columns f !! i = Some (holder_label c)) ∧
            (rectangular holders →
             ∀ j old, records holders !! j = Some old →
               ∃ row, records f !! j = Some row ∧
                 (∀ i, columns f !! i = Some "symbol" →
                       row.2 !! i = Some (VText ticker)) ∧
                 (∀ i c, columns holders !! i = Some c → c ≠ "symbol" →
                         row.2 !! i = old.2 !! i))
    | _ => r = PNone
    end.
Proof.
  unfold extract_institution_ownership.
  change (priority "institution_ownership") with ["yfinance"; "fmp"].
  unfold for_apis.
  destruct (yf_table E _ ticker) as [why|[holders|]]; py_unfold; simpl; [by eauto| |by eauto].
  destruct (empty holders); simpl; [by eauto|].
  eexists _, _. split; [done|]. eexists. split; [done|].
  unfold rename. cbn [columns records].
  assert (Hsym : ∀ c, holder_label c = "symbol" ↔ c = "symbol").
  { intros c. unfold holder_label. repeat case_bool_decide; by subst. }
  assert (Hg : ∀ l : list string,
    (λ c, from_option (λ im : nat * (string * string), im.2.2) c
            (list_find (λ m, m.1 = c)
               [("Holder", "organization"); ("% Out", "pctHeld");
                ("Shares", "position"); ("Value", "value")])) <$> l
    = holder_label <$> l).
  { intros l. apply list_fmap_ext. intros _ c _. apply rename_holders. }
  rewrite Hg. clear Hg.
  unfold set_column. case_bool_decide as Hin; cbn [columns records].
  - rewrite length_fmap. split; [done|]. split.
    { apply list_elem_of_lookup_1 in Hin as [i Hi]. exists i.
      by rewrite list_lookup_fmap, Hi. }
    split; [intros i c Hi; by rewrite list_lookup_fmap, Hi|].
    intros Hrect j old Hj. eexists. split; [by rewrite list_lookup_fmap, Hj|].
    cbn [fst snd]. split.
    + intros i Hi. rewrite list_lookup_fmap in Hi.
      destruct (columns holders !! i) as [c|] eqn:Hc; [|done].
      simpl in Hi. injection Hi as Hi. apply Hsym in Hi as ->.
      rewrite list_lookup_imap.
      destruct (old.2 !! i) as [x|] eqn:Hx.
      * simpl. by rewrite bool_decide_true.
      * apply lookup_ge_None in Hx. apply lookup_lt_Some in Hc.
        rewrite (Hrect old) in Hx by by eapply list_elem_of_lookup_2. lia.
    + intros i c Hi Hne. rewrite list_lookup_imap.
      destruct (old.2 !! i) as [x|]; [|done]. simpl.
      rewrite bool_decide_false; [done|congruence].
  - rewrite length_fmap. split; [done|]. split.
    { exists (length (columns holders)). rewrite list_lookup_fmap.
      rewrite lookup_app_r by done. by rewrite Nat.sub_diag. }
    split.
    { intros i c Hi. rewrite list_lookup_fmap.
      rewrite lookup_app_l by by eapply lookup_lt_Some. by rewrite Hi. }
    intros Hrect j old Hj. eexists. split; [by rewrite list_lookup_fmap, Hj|].
    cbn [fst snd].
    assert (Hlen : length old.2 = length (columns holders))
      by by eapply Hrect, list_elem_of_lookup_2.
    split.
    + intros i Hi. rewrite list_lookup_fmap in Hi.
      destruct ((columns holders ++ ["symbol"]) !! i) as [c|] eqn:Hc; [|done].
      simpl in Hi. injection Hi as Hi. apply Hsym in Hi as ->.
      apply lookup_app_Some in Hc as [Hc|[Hge Hc]].
      { exfalso. apply Hin. by eapply list_elem_of_lookup_2. }
      apply list_lookup_singleton_Some in Hc as [Hi _].
      assert (i = length old.2) as -> by lia.
      rewrite lookup_app_r by done. by rewrite Nat.sub_diag.
    + intros i c Hi Hne. apply lookup_lt_Some in Hi.
      rewrite lookup_app_l by lia. done.
Qed.

(** [extract_executive_ownership] returns on every input.  It asks
    [finnhub] at most, never [yfinance], which its priority list names
    too; without a [finnhub] client it returns [None] and asks nobody; and
    what it returns other than [None] is what the formatter made of the
    [finnhub] answer. *)
Theorem insiders_come_from_finnhub_alone E self ticker w :
  "yfinance" ∈ priority "executive_ownership" ∧
  ∃ r w', extract_executive_ownership E self ticker w = (Value r, w') ∧
    (invoked w' = invoked w ∨ invoked w' = invoked w ++ ["finnhub"]) ∧
    (finnhub_client self = None → r = PNone ∧ w' = w) ∧
    (r = PNone ∨
     ∃ c data, finnhub_client self = Some c ∧
       c "get_insider_transactions" ticker = Returns data ∧
       _format_finnhub_insider E data ticker = Returns r).
Proof.
  split; [by apply list_elem_of_In; vm_compute; auto|].
  unfold extract_executive_ownership.
  change (priority "executive_ownership") with ["finnhub"; "yfinance"].
  unfold for_apis. py_unfold. simpl.
  destruct (finnhub_client self) as [c|] eqn:Hc; simpl; [|by eauto 10].
  assert (Hasked : ∀ (r : payload) w',
            invoked w' = invoked w ++ ["finnhub"] →
            (r = PNone ∨
             ∃ c0 data, Some c = Some c0 ∧
               c0 "get_insider_transactions" ticker = Returns data ∧
               _format_finnhub_insider E data ticker = Returns r) →
            (invoked w' = invoked w ∨ invoked w' = invoked w ++ ["finnhub"]) ∧
            (Some c = None → r = PNone ∧ w' = w) ∧
            (r = PNone ∨
             ∃ c0 data, Some c = Some c0 ∧
               c0 "get_insider_transactions" ticker = Returns data ∧
               _format_finnhub_insider E data ticker = Returns r))
    by (intros; split; [by right|by split]).
  destruct (c _ ticker) as [why|[|d|f]] eqn:Hd; simpl.
  - eexists _, _. split; [done|]. apply Hasked; [|by left].
    by rewrite invoked_logged, invoked_noted_api.
  - eexists _, _. split; [done|]. apply Hasked; [|by left].
    by rewrite invoked_noted_api.
  - destruct (bool_decide (d = ∅)); simpl.
    { eexists _, _. split; [done|]. apply Hasked; [|by left].
      by rewrite invoked_noted_api. }
    destruct (_format_finnhub_insider E _ ticker) as [why|p] eqn:Hf; simpl.
    + eexists _, _. split; [done|]. apply Hasked; [|by left].
      by rewrite invoked_logged, invoked_noted_api.
    + eexists _, _. split; [done|]. apply Hasked; [|right; by eauto].
      by rewrite invoked_noted_api.
  - eexists _, _. split; [done|]. apply Hasked; [|by left].
    by rewrite invoked_logged, invoked_noted_api.
Qed.

(** *** Lower-case catalogs *)

Lemma lower_ascii_idemp a : lower_ascii (lower_ascii a) = lower_ascii a.
Proof. by destruct a as [[] [] [] [] [] [] [] []]. Qed.

Lemma fold_ident_idemp s : fold_ident (fold_ident s) = fold_ident s.
Proof. induction s as [|a s IH]; simpl; [done|]. by rewrite lower_ascii_idemp, IH. Qed.

Lemma create_table_folded name cols db :
  folded_catalog db → folded_catalog (Sql.create_table name cols db).
Proof.
  intros Hdb n t c Hn Hc. unfold Sql.create_table in Hn.
  destruct (db !! fold_ident name) eqn:Hname; [by eapply Hdb|].
  destruct (decide (n = fold_ident name)) as [->|Hne].
  - rewrite lookup_insert_eq in Hn. injection Hn as <-.
    unfold Sql.column_names in Hc. simpl in Hc. rewrite <- list_fmap_compose in Hc.
    apply list_elem_of_fmap in Hc as (col & -> & _). simpl. apply fold_ident_idemp.
  - rewrite lookup_insert_ne in Hn by done. by eapply Hdb.
Qed.

(** On a database [create_all_tables] has built from a catalog of
    lower-case names the catalog is lower-case, and so is every column
    the generic upsert sends, whatever the frame and the table: a column
    the frame spells with a capital is dropped, the key columns
    [asOfDate] and [latestTransDate] among them. *)
Theorem mixed_case_columns_are_never_sent db :
  folded_catalog db →
  folded_catalog (create_all_tables db) ∧
  (∀ df table_name c,
     c ∈ intersect df (Sql.columns_of (create_all_tables db) table_name) →
     fold_ident c = c) ∧
  (∀ df table_name k,
     k ∈ ["asOfDate"; "latestTransDate"; "pctHeld"] →
     k ∉ intersect df (Sql.columns_of (create_all_tables db) table_name)).
Proof.
  intros Hdb.
  assert (Hall : folded_catalog (create_all_tables db)).
  { unfold create_all_tables, declare. by repeat apply create_table_folded. }
  assert (Hsent : ∀ df table_name c,
            c ∈ intersect df (Sql.columns_of (create_all_tables db) table_name) →
            fold_ident c = c).
  { intros df table_name c [_ Hc]%intersect_spec. unfold Sql.columns_of in Hc.
    destruct (create_all_tables db !! table_name) as [t|] eqn:Ht; simpl in Hc.
    - by eapply Hall.
    - by apply elem_of_nil in Hc. }
  split; [done|]. split; [done|].
  intros df table_name k Hk Hin. apply Hsent in Hin.
  apply list_elem_of_In in Hk. vm_compute in Hk.
  by repeat (destruct Hk as [<-|Hk]); [..|destruct Hk].
Qed.

(** The same on the declared schema, for the balance sheet the extractor
    builds for ACME: its [asOfDate] is not sent. *)
Lemma acme_sheet_loses_its_date :
  "asOfDate" ∈ columns (match acme_sheet with PFrame f => f | _ => no_rows end)
  ∧ ("asOfDate" ∉ intersect (match acme_sheet with PFrame f => f | _ => no_rows end)
                     (Sql.columns_of (create_all_tables ∅) "balance_sheet")).
Proof.
  split; [by apply list_elem_of_In; vm_compute; auto|].
  destruct (mixed_case_columns_are_never_sent ∅) as (_ & _ & Hkeys).
  - intros name t c Hname. by rewrite lookup_empty in Hname.
  - apply Hkeys. by left.
Defined.

(** *** The generic upsert and its table *)

Lemma step_keeps_rows t cols key act now st vs st' :
  Sql.step t cols key act now st vs = inr st' →
  (length (Sql.p_rows st) ≤ length (Sql.p_rows st'))%nat.
Proof.
  unfold Sql.step.
  destruct (list_find _ (Sql.p_rows st)) as [[i old]|].
  - destruct act as [|u]; [by intros [= <-]|].
    case_bool_decide; [done|]. destruct (Sql.violates _ _ _ _); [done|].
    intros [= <-]. simpl. by rewrite length_insert.
  - destruct (Sql.violates _ _ _ _); [done|]. intros [= <-]. simpl.
    rewrite length_app. lia.
Qed.

Lemma steps_keep_rows t cols key act now vals : ∀ st st',
  Sql.steps t cols key act now st vals = inr st' →
  (length (Sql.p_rows st) ≤ length (Sql.p_rows st'))%nat.
Proof.
  induction vals as [|vs rest IH]; simpl; intros st st'; [by intros [= <-]|].
  destruct (Sql.step _ _ _ _ _ st vs) as [|st1] eqn:Hstep; [done|].
  intros Hrun. apply step_keeps_rows in Hstep. apply IH in Hrun. lia.
Qed.

Lemma grown_refl name db : grown name db db.
Proof. done. Qed.

Lemma grown_trans name a b c : grown name a b → grown name b c → grown name a c.
Proof.
  intros (H1 & H2 & H3 & H4) (H1' & H2' & H3' & H4'). split; [|split; [|split]].
  - intros n Hn. by rewrite H1', H1.
  - congruence.
  - congruence.
  - lia.
Qed.

Lemma exec_insert_grows now q vals db db' :
  Sql.exec_insert now q vals db = inr db' → grown (fold_ident (Sql.into q)) db db'.
Proof.
  unfold Sql.exec_insert.
  destruct (forallb (forallb Sql.adaptable) _); cbn [negb]; [|done].
  destruct (db !! fold_ident (Sql.into q)) as [t|] eqn:Ht; [|done].
  destruct (Sql.check _ _ _ _ _); [done|].
  destruct (Sql.steps _ _ _ _ _ _ _) as [|st] eqn:Hsteps; [done|].
  intros [= <-]. apply steps_keep_rows in Hsteps. simpl in Hsteps.
  split; [|split; [|split]].
  - intros n Hn. by rewrite lookup_insert_ne.
  - unfold Sql.columns_of. by rewrite lookup_insert_eq, Ht.
  - by rewrite lookup_insert_eq, Ht.
  - unfold stored. by rewrite lookup_insert_eq, Ht.
Qed.

Lemma exec_inserts_grow now q pages : ∀ db db',
  Sql.exec_inserts now q pages db = inr db' → grown (fold_ident (Sql.into q)) db db'.
Proof.
  induction pages as [|page rest IH]; simpl; intros db db'; [by intros [= <-]|].
  destruct (Sql.exec_insert now q page db) as [|db1] eqn:Hpage; [done|].
  intros Hrun. eapply grown_trans; [by eapply exec_insert_grows|by apply IH].
Qed.

Lemma insert_dataframe_to_table_refused f table_name ticker conflict_key w rest :
  empty f = false → w_connects w = false :: rest →
  insert_dataframe_to_table (PFrame f) table_name ticker conflict_key w
  = (Raise OperationalError,
     logged ERROR ("Database connection failed: " ++ str OperationalError) (attempted w)).
Proof.
  intros Hne Hconn. unfold insert_dataframe_to_table. rewrite Hne.
  unfold bind at 1. by rewrite (get_db_connection_refused w rest).
Qed.

(** What the generic upsert leaves behind: the pages' result when it
    returns [True], the database it found otherwise. *)
Lemma insert_dataframe_to_table_outcome df table_name ticker conflict_key w :
  let run := insert_dataframe_to_table df table_name ticker conflict_key w in
  (run.1 ≠ Value true ∧ w_db run.2 = w_db w) ∨
  (run.1 = Value true ∧
   ∃ f, df = PFrame f ∧ answers w ∧
     let cols := intersect f (Sql.columns_of (w_db w) table_name) in
     let values := to_records (select cols f) in
     cols ≠ [] ∧
     Sql.exec_inserts (w_clock w)
       (upsert table_name cols (non_key cols conflict_key) conflict_key)
       (paginate (length values) values) (w_db w) = inr (w_db run.2)).
Proof.
  simpl. destruct df as [|d|f].
  { left. by rewrite upsert_without_data by by left. }
  { left. unfold insert_dataframe_to_table, raise. by simpl. }
  destruct (empty f) eqn:Hne.
  { left. by rewrite upsert_without_data by (right; by exists f). }
  destruct (w_connects w) as [|[] rest] eqn:Hconn.
  3: { left. by rewrite (insert_dataframe_to_table_refused f _ _ _ w rest). }
  all: assert (Hans : answers w) by (by unfold answers; rewrite Hconn).
  all: rewrite insert_dataframe_to_table_connected by done.
  all: unfold upsert_outcome; simpl.
  all: rewrite select_empty by done.
  all: case_bool_decide as Hcols; [by left|].
  all: destruct (Sql.exec_inserts _ _ _ _) as [|db'] eqn:Hexec; [by left|].
  all: right; split; [done|]; by exists f.
Qed.

(** The generic upsert touches one table, the one the statement names,
    and takes nothing away from it: every other table is as it was, the
    table has the columns and the indexes it had and at least the rows it
    had.  Unless the call returns [True] the whole database is as it was,
    even when an earlier page of the rows had been accepted. *)
Theorem upsert_touches_one_table df table_name ticker conflict_key w :
  let run := insert_dataframe_to_table df table_name ticker conflict_key w in
  grown (fold_ident table_name) (w_db w) (w_db run.2) ∧
  (run.1 ≠ Value true → w_db run.2 = w_db w).
Proof.
  intros run. subst run.
  destruct (insert_dataframe_to_table_outcome df table_name ticker conflict_key w)
    as [[Hr Hdb]|(Hr & f & -> & _ & _ & Hexec)].
  - rewrite Hdb. by split.
  - split; [|done]. by apply exec_inserts_grow in Hexec.
Qed.


(** *** Record inserts *)

Lemma named_cases names params w :
  (∃ vs, named names params w = (Value vs, w) ∧
         mapM (λ c, params !! c) names = Some vs) ∨
  (∃ e, named names params w = (Raise e, w)).
Proof.
  induction names as [|n rest IH]; simpl; [left; by exists []|].
  destruct (params !! n) as [v|] eqn:Hn; [|right; by eexists].
  destruct (Sql.adaptable v); [|right; by eexists].
  unfold bind. destruct IH as [(vs & -> & Hvs)|(e & ->)].
  - left. exists (v :: vs). split; [done|]. simpl. by rewrite Hvs.
  - right. by eexists.
Qed.

Lemma note_first {A} e (m : Py A) w : (note e ;;; m) w = m (noted e w).
Proof. done. Qed.

(** A transaction, spelled out. *)
Lemma transaction_outcome work done failed w :
  transaction work done failed w =
  match w_connects w with
  | false :: _ =>
      (Raise OperationalError,
       logged ERROR ("Database connection failed: " ++ str OperationalError) (attempted w))
  | _ =>
      match work (w_db w) (attempted w) with
      | (Value conn', w1) => (Value true, logged INFO done (with_db conn' w1))
      | (Raise e, w1) => (Value false, logged ERROR (failed ++ ": " ++ str e) w1)
      end
  end.
Proof.
  unfold transaction, bind at 1, get_db_connection.
  destruct (w_connects w) as [|[] rest]; [| |done];
    unfold finally, try_except, bind, commit, set_db, logger, rollback, ret, close;
    by destruct (work (w_db w) (attempted w)) as [[?|?] ?].
Qed.

Ltac no_commit := simpl; split; [intros _; reflexivity|intros Hr; discriminate Hr].

Lemma record_insert_outcome name (data : payload) (skip : gmap string value → bool)
    (q : Sql.insert) (prepare : gmap string value → Py (gmap string value))
    (stamp : world → gmap string value → gmap string value) done failed w :
  (∀ d, skip d = false → d ≠ ∅) →
  (∀ d w0, prepare d w0 = (Value (stamp w0 d), w0)) →
  (∀ w0 w1 d, w_clock w0 = w_clock w1 → stamp w0 d = stamp w1 d) →
  record_outcome q stamp data w
    ((note (Entered name) ;;;
      match data with
      | PNone => ret false
      | PFrame _ => raise (ValueError "The truth value of a DataFrame is ambiguous")
      | PDict d =>
          if skip d then ret false
          else transaction (λ conn, let* d' := prepare d in execute q d' conn) done failed
      end) w).
Proof.
  intros Hskip Hprep Hstamp. rewrite note_first.
  match goal with |- record_outcome _ _ _ _ ?R => remember R as run eqn:Hrun end.
  unfold record_outcome.
  destruct data as [|d|f]; [subst run; unfold ret; no_commit|..
                           |subst run; unfold raise; no_commit].
  destruct (skip d) eqn:Hd; [subst run; unfold ret; no_commit|].
  rewrite transaction_outcome in Hrun. cbn [w_connects w_db noted] in Hrun.
  destruct (w_connects w) as [|[] rest] eqn:Hconn; [| |subst run; no_commit].
  all: unfold bind at 1 in Hrun; rewrite Hprep in Hrun;
       unfold execute, bind, now, sql in Hrun.
  all: destruct (named_cases (Sql.ins_columns q)
                   (stamp (attempted (noted (Entered name) w)) d)
                   (attempted (noted (Entered name) w)))
         as [(vs & Hnamed & Hvs)|(e & Hnamed)]; rewrite Hnamed in Hrun;
         [|subst run; no_commit].
  all: cbn [w_clock attempted noted] in Hrun.
  all: destruct (Sql.exec_insert _ _ _ _) as [|db'] eqn:Hexec;
         [subst run; unfold raise; no_commit|].
  all: subst run; unfold ret; simpl; split; [done|]; intros _; exists d, vs.
  all: split; [done|]; split; [by apply Hskip|].
  all: split; [by unfold answers; rewrite Hconn|].
  all: split; [|done].
  all: by rewrite (Hstamp _ w) in Hvs.
Qed.

(** The four record inserts.  Each returns [True] only for a dict that
    is not empty and has every key its statement names, on a server that
    answers and accepts the statement, and the database is then the
    statement's result; the valuation insert stamps the dict with the day
    first.  In every other case, a dict that lacks a key among them, the
    database is as it was. *)
Theorem record_inserts_store_one_statement ticker data w :
  record_outcome price_query (λ _ d, d) data w (insert_price_data ticker data w) ∧
  record_outcome org_overview_query (λ _ d, d) data w
    (insert_org_overview ticker data w) ∧
  record_outcome calendar_events_query (λ _ d, d) data w
    (insert_calendar_events ticker data w) ∧
  record_outcome valuation_measures_query
    (λ w d, <["asOfDate" := VInt (w_clock w / 86400)]> d) data w
    (insert_valuation_measures ticker data w).
Proof.
  split; [|split; [|split]].
  - apply (record_insert_outcome _ data (λ d, bool_decide (d = ∅)) price_query
             ret (λ _ d, d)); [|done..].
    intros d Hd. by apply bool_decide_eq_false in Hd.
  - apply (record_insert_outcome _ data (λ d, bool_decide (d = ∅))
             org_overview_query ret (λ _ d, d)); [|done..].
    intros d Hd. by apply bool_decide_eq_false in Hd.
  - apply (record_insert_outcome _ data
             (λ d, bool_decide (d = ∅) || bool_decide (get d "earnings_date" = VNone))
             calendar_events_query ret (λ _ d, d)); [|done..].
    intros d [Hd _]%orb_false_elim. by apply bool_decide_eq_false in Hd.
  - apply (record_insert_outcome _ data (λ d, bool_decide (d = ∅))
             valuation_measures_query
             (λ d, let* date := today in ret (<["asOfDate" := date]> d))
             (λ w d, <["asOfDate" := VInt (w_clock w / 86400)]> d));
      [|done|by intros ? ? ? ->].
    intros d Hd. by apply bool_decide_eq_false in Hd.
Qed.

(** [calculate_and_insert_quarterly_price] never raises, whatever
    [yfinance] and the server do: a refused connection is caught with the
    rest.  It returns [True] only when the history is not empty, the
    resampling gave records, and the server accepted the statement for
    every record; if one record is rejected none is stored. *)
Theorem quarterly_price_is_all_or_nothing E ticker w :
  ∃ b w', calculate_and_insert_quarterly_price E ticker w = (Value b, w') ∧
    (b = false → w_db w' = w_db w) ∧
    (b = true →
     ∃ hist records w0 w1,
       yf_history E ticker = Returns hist ∧ empty hist = false ∧
       quarterly_records E ticker hist = Returns records ∧ records ≠ [] ∧
       answers w ∧
       executemany quarterly_price_query records (w_db w) w0 = (Value (w_db w'), w1)).
Proof.
  unfold calculate_and_insert_quarterly_price. rewrite note_first.
  unfold try_except, ask, bind at 1, bind at 1, note at 1.
  assert (Hfalse : ∀ w1 : world, w_db w1 = w_db w →
    ∃ b w', (Value false, w1) = (Value b, w') ∧
      (b = false → w_db w' = w_db w) ∧
      (b = true →
       ∃ hist records w0 w1,
         yf_history E ticker = Returns hist ∧ empty hist = false ∧
         quarterly_records E ticker hist = Returns records ∧ records ≠ [] ∧
         answers w ∧
         executemany quarterly_price_query records (w_db w) w0 = (Value (w_db w'), w1))).
  { intros w1 Hw1. exists false, w1. split; [done|]. by split. }
  destruct (yf_history E ticker) as [why|hist] eqn:Hhist;
    [unfold raise, bind, logger, ret; by apply Hfalse|].
  unfold ret at 1. destruct (empty hist) eqn:Hempty; [unfold ret; by apply Hfalse|].
  unfold helper, bind at 1.
  destruct (quarterly_records E ticker hist) as [why|records] eqn:Hrecords;
    [unfold raise, bind, logger, ret; by apply Hfalse|].
  unfold ret at 1. case_bool_decide as Hnil; [unfold ret; by apply Hfalse|].
  rewrite transaction_outcome. cbn [w_connects w_db noted].
  destruct (w_connects w) as [|[] rest] eqn:Hconn;
    [| |unfold bind, logger, ret; by apply Hfalse].
  all: destruct (executemany _ _ _ _) as [[conn'|e] w1] eqn:Hrun;
    [|apply Hfalse; simpl; by rewrite (idle_executemany _ _ _ _ _ _ Hrun)].
  all: eexists _, _; split; [done|]; split; [done|]; intros _.
  all: exists hist, records; eexists _, w1.
  all: repeat (split; [done|]).
  all: split; [by unfold answers; rewrite Hconn|done].
Qed.

(** *** Record upserts on an indexed table *)

Ltac member := apply list_elem_of_In; vm_compute; solve [auto 40].

Ltac each_member Hc tac :=
  apply list_elem_of_In in Hc; vm_compute in Hc;
  repeat (destruct Hc as [<-|Hc]); [..|destruct Hc]; tac.

Lemma exec_insert_normal now table_name cols u key vals db :
  Sql.exec_insert now (upsert table_name cols u key) vals db
  = Sql.exec_insert now
      (upsert table_name (fold_ident <$> cols) (fold_ident <$> u) (fold_ident <$> key))
      vals db.
Proof.
  unfold Sql.exec_insert, upsert. simpl.
  assert (Hidem : ∀ l : list string, fold_ident <$> (fold_ident <$> l) = fold_ident <$> l).
  { intros l. rewrite <- list_fmap_compose. apply list_fmap_ext.
    intros _ c _. apply fold_ident_idemp. }
  by rewrite !Hidem.
Qed.

Lemma keyed_ext cols key vs vs' rows :
  (∀ i k, cols !! i = Some k → k ∈ key → vs !! i = vs' !! i) →
  keyed cols key vs rows → keyed cols key vs' rows.
Proof.
  intros Hsame (s & Hs & Hcells). exists s. split; [done|].
  intros i k Hi Hk. rewrite <- (Hsame i k Hi Hk). by apply Hcells.
Qed.

Lemma folded_names (l : list string) c : c ∈ fold_ident <$> l → fold_ident c = c.
Proof. intros (c0 & -> & _)%list_elem_of_fmap. apply fold_ident_idemp. Qed.

Section RecordUpsert.

Variables (table_name : string) (cols u key : list string).
Hypothesis Hcov : ∀ c, c ∈ fold_ident <$> cols →
                       c ∈ fold_ident <$> u ∨ c ∈ fold_ident <$> key.
Hypothesis Hu : ∀ c, c ∈ fold_ident <$> u → c ∈ fold_ident <$> cols.
Hypothesis Hkey : ∀ k, k ∈ fold_ident <$> key → k ∈ fold_ident <$> cols.
Hypothesis Hca : "created_at" ∉ fold_ident <$> key.

(** The statement sent twice, for two records with the same key: the
    second leaves as many rows as it found, one of which holds its
    values. *)
Lemma exec_insert_again now1 now2 vs1 vs2 db db1 db2 :
  Sql.exec_insert now1 (upsert table_name cols u key) [vs1] db = inr db1 →
  Sql.exec_insert now2 (upsert table_name cols u key) [vs2] db1 = inr db2 →
  (∀ i k, (fold_ident <$> cols) !! i = Some k → k ∈ fold_ident <$> key →
          vs1 !! i = vs2 !! i ∧ default VNone (vs1 !! i) ≠ VNone) →
  length (stored (fold_ident table_name) db2)
  = length (stored (fold_ident table_name) db1) ∧
  ∃ s, s ∈ stored (fold_ident table_name) db2 ∧ agrees (fold_ident <$> cols) vs2 s.
Proof.
  intros Hfirst Hsecond Hsame.
  rewrite exec_insert_normal in Hfirst. rewrite exec_insert_normal in Hsecond.
  assert (Hidem : fold_ident <$> (fold_ident <$> key) = fold_ident <$> key).
  { rewrite <- list_fmap_compose. apply list_fmap_ext. intros _ c _. apply fold_ident_idemp. }
  assert (Hcov' : ∀ c, c ∈ fold_ident <$> cols →
                       c ∈ fold_ident <$> u ∨ c ∈ fold_ident <$> key) by done.
  assert (Hca' : "created_at" ∉ fold_ident <$> (fold_ident <$> key)) by by rewrite Hidem.
  destruct (exec_insert_keyed table_name (fold_ident <$> cols) (fold_ident <$> u)
              (fold_ident <$> key) (folded_names cols) Hcov' Hu Hca'
              _ _ _ _ Hfirst) as (_ & _ & Hmake & _).
  { rewrite Hidem. auto. }
  destruct (exec_insert_keyed table_name (fold_ident <$> cols) (fold_ident <$> u)
              (fold_ident <$> key) (folded_names cols) Hcov' Hu Hca'
              _ _ _ _ Hsecond) as (_ & _ & _ & Hsame').
  { rewrite Hidem. auto. }
  rewrite Hidem in Hmake, Hsame'. split.
  - apply Hsame'. intros vs ->%list_elem_of_singleton.
    apply (keyed_ext _ _ vs1); [intros i k Hi Hk; by destruct (Hsame i k Hi Hk)|].
    apply Hmake; [|by left].
    intros _ vs ->%list_elem_of_singleton i k Hi Hk. by destruct (Hsame i k Hi Hk).
  - apply exec_insert_stores in Hsecond as (t' & Ht' & Hall);
      [|apply folded_names|done..].
    destruct (Hall vs2) as (s & Hs & Hag); [by left|].
    exists s. split; [|done]. unfold stored. by rewrite Ht'.
Qed.

(** Two record inserts that both return [True], for dicts that agree
    on the key, with values under it: the second adds no row and leaves
    a row with its values. *)
Lemma record_upsert_again stamp data1 data2 w v run1 run2 :
  record_outcome (upsert table_name cols u key) stamp data1 w run1 →
  record_outcome (upsert table_name cols u key) stamp data2 v run2 →
  run1.1 = Value true → run2.1 = Value true → w_db v = w_db run1.2 →
  (∀ d1 d2 c, data1 = PDict d1 → data2 = PDict d2 → c ∈ cols →
     fold_ident c ∈ fold_ident <$> key →
     stamp w d1 !! c = stamp v d2 !! c ∧ default VNone (stamp w d1 !! c) ≠ VNone) →
  rows_in (fold_ident table_name) (w_db run2.2)
  = rows_in (fold_ident table_name) (w_db run1.2) ∧
  ∃ d2 s, data2 = PDict d2 ∧ s ∈ stored (fold_ident table_name) (w_db run2.2) ∧
    ∀ c, c ∈ cols → fold_ident c ≠ "created_at" →
         Sql.cell s (fold_ident c) = default VNone (stamp v d2 !! c).
Proof.
  intros [_ H1] [_ H2] Hr1 Hr2 Hdb Hsame.
  destruct (H1 Hr1) as (d1 & vs1 & -> & _ & _ & Hvs1 & Hexec1).
  destruct (H2 Hr2) as (d2 & vs2 & -> & _ & _ & Hvs2 & Hexec2).
  simpl in Hvs1, Hvs2, Hexec1, Hexec2. rewrite Hdb in Hexec2.
  apply mapM_Some in Hvs1, Hvs2.
  assert (Hcell : ∀ (d : gmap string value) vs,
            Forall2 (λ c y, d !! c = Some y) cols vs →
            ∀ i c, cols !! i = Some c → vs !! i = d !! c).
  { intros d vs Hall i c Hi.
    destruct (Forall2_lookup_l _ _ _ _ _ Hall Hi) as (y & -> & Hy).
    simpl in Hy. by rewrite Hy. }
  destruct (exec_insert_again _ _ vs1 vs2 _ _ _ Hexec1 Hexec2) as [Hlen (s & Hs & Hag)].
  - intros i k Hi Hk. rewrite list_lookup_fmap in Hi.
    destruct (cols !! i) as [c|] eqn:Hc; [|done]. injection Hi as <-.
    rewrite (Hcell _ _ Hvs1 i c Hc), (Hcell _ _ Hvs2 i c Hc).
    apply (Hsame d1 d2 c); [done..|by eapply list_elem_of_lookup_2|done].
  - split; [by rewrite !rows_in_stored|].
    exists d2, s. split; [done|]. split; [done|].
    intros c [i Hi]%list_elem_of_lookup_1 Hne.
    rewrite (Hag i (fold_ident c)); [|by rewrite list_lookup_fmap, Hi|done].
    by rewrite (Hcell _ _ Hvs2 i c Hi).
Qed.

End RecordUpsert.

Lemma insert_calendar_events_dated ticker d w r w' :
  insert_calendar_events ticker (PDict d) w = (r, w') →
  get d "earnings_date" = VNone → r = Value false.
Proof.
  unfold insert_calendar_events. rewrite note_first. intros Hrun Hdate.
  rewrite Hdate, (bool_decide_true (VNone = VNone)), orb_true_r in Hrun by done.
  by injection Hrun as <- _.
Qed.

(** [insert_org_overview] is an upsert on [symbol] once the table has
    the unique index: of two calls that return [True] for dicts with the
    same symbol, the second adds no row and leaves a row that holds its
    seventeen values. *)
Theorem overview_is_last_write_wins ticker d1 d2 w w1 v w2 :
  insert_org_overview ticker (PDict d1) w = (Value true, w1) →
  w_db v = w_db w1 →
  insert_org_overview ticker (PDict d2) v = (Value true, w2) →
  get d1 "symbol" ≠ VNone → d2 !! "symbol" = d1 !! "symbol" →
  row_count "org_overview" w2 = row_count "org_overview" w1 ∧
  ∃ s, s ∈ stored "org_overview" (w_db w2) ∧
    ∀ c, c ∈ Sql.ins_columns org_overview_query →
         Sql.cell s (fold_ident c) = get d2 c.
Proof.
  intros Hfirst Hdb Hsecond Hsym Hsame.
  assert (Hout : ∀ d w0, record_outcome org_overview_query (λ _ d, d) (PDict d) w0
                           (insert_org_overview ticker (PDict d) w0)).
  { intros d w0.
    apply (record_insert_outcome _ (PDict d) (λ d, bool_decide (d = ∅))
             org_overview_query ret (λ _ d, d)); [|done..].
    intros d' Hd. by apply bool_decide_eq_false in Hd. }
  pose proof (Hout d1 w) as H1. pose proof (Hout d2 v) as H2.
  rewrite Hfirst in H1. rewrite Hsecond in H2.
  set (cols := Sql.ins_columns org_overview_query).
  set (u := match Sql.do org_overview_query with Sql.DoUpdateSet l => l | Sql.DoNothing => [] end).
  destruct (record_upsert_again "org_overview" cols u ["symbol"]
              ltac:(intros c Hc; each_member Hc ltac:(first [left; member|right; member]))
              ltac:(intros c Hc; each_member Hc member)
              ltac:(intros c Hc; each_member Hc member)
              ltac:(intros Hc; apply list_elem_of_In in Hc; vm_compute in Hc;
                    intuition discriminate)
              (λ _ d, d) (PDict d1) (PDict d2) w v _ _ H1 H2 eq_refl eq_refl Hdb)
    as [Hrows (d & s & [= <-] & Hs & Hcells)].
  - intros ? ? c [= <-] [= <-] Hc Hk.
    assert (c = "symbol") as ->.
    { apply list_elem_of_In in Hc, Hk. vm_compute in Hc.
      repeat (destruct Hc as [<-|Hc]); [..|destruct Hc]; try done;
        vm_compute in Hk; intuition discriminate. }
    simpl. by rewrite Hsame.
  - split; [done|]. exists s. split; [done|].
    intros c Hc. apply Hcells; [done|].
    apply list_elem_of_In in Hc. vm_compute in Hc.
    by repeat (destruct Hc as [<-|Hc]); [..|destruct Hc].
Qed.

(** ACME's profile sent twice to the indexed overview table. *)
Lemma acme_profile_sent_again :
  let send := insert_org_overview "ACME" (PDict acme_profile) in
  row_count "org_overview" (send (send record_world).2).2
  = row_count "org_overview" (send record_world).2.
Proof.
  intros send.
  apply (overview_is_last_write_wins "ACME" acme_profile acme_profile record_world
           (send record_world).2 (send record_world).2 (send (send record_world).2).2).
  - by vm_compute.
  - reflexivity.
  - by vm_compute.
  - by vm_compute.
  - reflexivity.
Defined.

(** [insert_calendar_events] is an upsert on [symbol] and
    [earnings_date] once the table has the unique index: of two calls
    that return [True] for dicts with the same symbol and date, the second
    adds no row and leaves a row that holds its six values. *)
Theorem calendar_is_last_write_wins ticker d1 d2 w w1 v w2 :
  insert_calendar_events ticker (PDict d1) w = (Value true, w1) →
  w_db v = w_db w1 →
  insert_calendar_events ticker (PDict d2) v = (Value true, w2) →
  get d1 "symbol" ≠ VNone → d2 !! "symbol" = d1 !! "symbol" →
  d2 !! "earnings_date" = d1 !! "earnings_date" →
  row_count "calendar_events" w2 = row_count "calendar_events" w1 ∧
  ∃ s, s ∈ stored "calendar_events" (w_db w2) ∧
    ∀ c, c ∈ Sql.ins_columns calendar_events_query →
         Sql.cell s (fold_ident c) = get d2 c.
Proof.
  intros Hfirst Hdb Hsecond Hsym Hsame Hdate.
  assert (Hdated : get d1 "earnings_date" ≠ VNone).
  { intros Hnone. by apply (insert_calendar_events_dated _ _ _ _ _ Hfirst) in Hnone. }
  assert (Hout : ∀ d w0, record_outcome calendar_events_query (λ _ d, d) (PDict d) w0
                           (insert_calendar_events ticker (PDict d) w0)).
  { intros d w0.
    apply (record_insert_outcome _ (PDict d)
             (λ d, bool_decide (d = ∅) || bool_decide (get d "earnings_date" = VNone))
             calendar_events_query ret (λ _ d, d)); [|done..].
    intros d' [Hd _]%orb_false_elim. by apply bool_decide_eq_false in Hd. }
  pose proof (Hout d1 w) as H1. pose proof (Hout d2 v) as H2.
  rewrite Hfirst in H1. rewrite Hsecond in H2.
  set (cols := Sql.ins_columns calendar_events_query).
  set (u := match Sql.do calendar_events_query with
            | Sql.DoUpdateSet l => l | Sql.DoNothing => [] end).
  destruct (record_upsert_again "calendar_events" cols u ["symbol"; "earnings_date"]
              ltac:(intros c Hc; each_member Hc ltac:(first [left; member|right; member]))
              ltac:(intros c Hc; each_member Hc member)
              ltac:(intros c Hc; each_member Hc member)
              ltac:(intros Hc; apply list_elem_of_In in Hc; vm_compute in Hc;
                    intuition discriminate)
              (λ _ d, d) (PDict d1) (PDict d2) w v _ _ H1 H2 eq_refl eq_refl Hdb)
    as [Hrows (d & s & [= <-] & Hs & Hcells)].
  - intros ? ? c [= <-] [= <-] Hc Hk.
    assert (c = "symbol" ∨ c = "earnings_date") as [-> | ->].
    { apply list_elem_of_In in Hc, Hk. vm_compute in Hc.
      repeat (destruct Hc as [<-|Hc]); [..|destruct Hc]; auto;
        vm_compute in Hk; intuition discriminate. }
    + simpl. by rewrite Hsame.
    + simpl. by rewrite Hdate.
  - split; [done|]. exists s. split; [done|].
    intros c Hc. apply Hcells; [done|].
    apply list_elem_of_In in Hc. vm_compute in Hc.
    by repeat (destruct Hc as [<-|Hc]); [..|destruct Hc].
Qed.

(** A calendar entry for ACME sent twice to the indexed table. *)
Lemma acme_calendar_sent_again :
  let send := insert_calendar_events "ACME" (PDict acme_calendar) in
  row_count "calendar_events" (send (send record_world).2).2
  = row_count "calendar_events" (send record_world).2.
Proof.
  intros send.
  apply (calendar_is_last_write_wins "ACME" acme_calendar acme_calendar record_world
           (send record_world).2 (send record_world).2 (send (send record_world).2).2).
  - by vm_compute.
  - reflexivity.
  - by vm_compute.
  - by vm_compute.
  - reflexivity.
  - reflexivity.
Defined.

(** *** First write wins *)

Section Nothing.

Variables (t : Sql.table) (cols key : list string) (now : Z).
Hypothesis Hnd : NoDup cols.
Hypothesis Hsub : ∀ c, c ∈ cols → c ∈ Sql.column_names t.
Hypothesis Hkey : ∀ k, k ∈ key → k ∈ cols.

Lemma step_nothing_makes_keyed st vs st' :
  Sql.step t cols key Sql.DoNothing now st vs = inr st' →
  (∀ i k, cols !! i = Some k → k ∈ key → default VNone (vs !! i) ≠ VNone) →
  keyed cols key vs (Sql.p_rows st').
Proof.
  unfold Sql.step. intros Hstep Hnn.
  set (p := Sql.proposed t cols vs now (Sql.p_serial st)) in *.
  assert (Hp : ∀ i k, cols !! i = Some k → k ∈ key →
                      Sql.cell p k = default VNone (vs !! i)).
  { intros i k Hi Hk. apply proposed_cell; [done..|]. by apply Hsub, Hkey. }
  destruct (list_find _ (Sql.p_rows st)) as [[i old]|] eqn:Hfind.
  - apply list_find_Some in Hfind as (Hi & Hconf & _). apply Is_true_true in Hconf.
    injection Hstep as <-. simpl. exists old.
    split; [by eapply list_elem_of_lookup_2|].
    intros j k Hj Hk. rewrite (conflicts_cell key p old k) by done.
    rewrite (Hp j k) by done. split; [done|by eapply Hnn].
  - destruct (Sql.violates _ _ _ _); [done|]. injection Hstep as <-. simpl.
    exists p. split; [apply elem_of_app; right; by left|].
    intros j k Hj Hk. rewrite (Hp j k) by done. split; [done|by eapply Hnn].
Qed.

Lemma step_nothing_keeps st vs st' :
  Sql.step t cols key Sql.DoNothing now st vs = inr st' →
  keyed cols key vs (Sql.p_rows st) → Sql.p_rows st' = Sql.p_rows st.
Proof.
  unfold Sql.step. intros Hstep Hkeyed.
  destruct (list_find _ (Sql.p_rows st)) as [[i old]|] eqn:Hfind.
  - by injection Hstep as <-.
  - exfalso. apply list_find_None in Hfind.
    destruct (keyed_conflicts t cols key Hnd Hsub Hkey vs _ (Sql.p_serial st) now Hkeyed)
      as (s & Hs & Hconf).
    rewrite Forall_forall in Hfind. apply (Hfind s Hs). by rewrite Hconf.
Qed.

End Nothing.

(** A statement that does nothing on conflict, sent twice for two
    records with the same key: the second leaves the rows as they were. *)
Lemma exec_insert_first_wins now1 now2 q vs1 vs2 db db1 db2 :
  Sql.do q = Sql.DoNothing →
  Sql.exec_insert now1 q [vs1] db = inr db1 →
  Sql.exec_insert now2 q [vs2] db1 = inr db2 →
  (∀ k, k ∈ fold_ident <$> Sql.on_conflict q → k ∈ fold_ident <$> Sql.ins_columns q) →
  (∀ i k, (fold_ident <$> Sql.ins_columns q) !! i = Some k →
          k ∈ fold_ident <$> Sql.on_conflict q →
          vs1 !! i = vs2 !! i ∧ default VNone (vs1 !! i) ≠ VNone) →
  stored (fold_ident (Sql.into q)) db2 = stored (fold_ident (Sql.into q)) db1.
Proof.
  intros Hdo Hfirst Hsecond Hkey Hsame. unfold Sql.exec_insert in *.
  rewrite Hdo in *. simpl in *.
  destruct (forallb Sql.adaptable vs1); [|done].
  destruct (forallb Sql.adaptable vs2); [|done]. simpl in *.
  destruct (db !! fold_ident (Sql.into q)) as [t|] eqn:Ht; [|done].
  destruct (Sql.check t _ _ _ _) eqn:Hcheck; [done|].
  apply check_accepts in Hcheck as (Hnd & Hsub & _).
  destruct (Sql.step t _ _ _ _ _ vs1) as [|st1] eqn:Hstep1; [done|].
  injection Hfirst as <-. rewrite lookup_insert_eq in Hsecond.
  destruct (Sql.check _ _ _ _ [vs2]) eqn:Hcheck2; [done|].
  destruct (Sql.step _ _ _ _ _ _ vs2) as [|st2] eqn:Hstep2; [done|].
  injection Hsecond as <-. unfold stored. rewrite !lookup_insert_eq. simpl.
  apply step_nothing_makes_keyed in Hstep1; [|done..|intros i k Hi Hk; by destruct (Hsame i k Hi Hk)].
  eapply step_nothing_keeps in Hstep2; [done|done|done..|].
  simpl. eapply keyed_ext; [|done].
  intros i k Hi Hk. by destruct (Hsame i k Hi Hk).
Qed.

(** [insert_valuation_measures] stamps the dict with the day and lets
    the first write win once the table has the unique index: of two calls
    on the same day that return [True] for dicts with the same symbol, the
    second leaves the rows of the table exactly as the first left them. *)
Theorem valuation_is_first_write_wins ticker d1 d2 w w1 v w2 :
  insert_valuation_measures ticker (PDict d1) w = (Value true, w1) →
  w_db v = w_db w1 → w_clock v / 86400 = w_clock w / 86400 →
  insert_valuation_measures ticker (PDict d2) v = (Value true, w2) →
  get d1 "symbol" ≠ VNone → d2 !! "symbol" = d1 !! "symbol" →
  stored "valuation_measures" (w_db w2) = stored "valuation_measures" (w_db w1).
Proof.
  intros Hfirst Hdb Hday Hsecond Hsym Hsame.
  assert (Hout : ∀ d w0,
    record_outcome valuation_measures_query
      (λ w d, <["asOfDate" := VInt (w_clock w / 86400)]> d) (PDict d) w0
      (insert_valuation_measures ticker (PDict d) w0)).
  { intros d w0.
    apply (record_insert_outcome _ (PDict d) (λ d, bool_decide (d = ∅))
             valuation_measures_query
             (λ d, let* date := today in ret (<["asOfDate" := date]> d))
             (λ w d, <["asOfDate" := VInt (w_clock w / 86400)]> d));
      [|done|by intros ? ? ? ->].
    intros d' Hd. by apply bool_decide_eq_false in Hd. }
  destruct (Hout d1 w) as [_ H1]. destruct (Hout d2 v) as [_ H2].
  rewrite Hfirst in H1. rewrite Hsecond in H2.
  destruct (H1 eq_refl) as (? & vs1 & [= <-] & _ & _ & Hvs1 & Hexec1).
  destruct (H2 eq_refl) as (? & vs2 & [= <-] & _ & _ & Hvs2 & Hexec2).
  simpl in Hexec1, Hexec2. rewrite Hdb in Hexec2.
  apply mapM_Some in Hvs1, Hvs2.
  apply (exec_insert_first_wins _ _ valuation_measures_query vs1 vs2 _ _ _
           eq_refl Hexec1 Hexec2).
  - intros k Hk. each_member Hk member.
  - intros i k Hi Hk. rewrite list_lookup_fmap in Hi.
    destruct (Sql.ins_columns valuation_measures_query !! i) as [c|] eqn:Hc; [|done].
    injection Hi as <-.
    destruct (Forall2_lookup_l _ _ _ _ _ Hvs1 Hc) as (y1 & Hy1 & Hd1).
    destruct (Forall2_lookup_l _ _ _ _ _ Hvs2 Hc) as (y2 & Hy2 & Hd2).
    rewrite Hy1, Hy2. simpl in Hd1, Hd2 |- *.
    assert (c = "symbol" ∨ c = "asOfDate") as [-> | ->].
    { apply list_elem_of_lookup_2 in Hc. apply list_elem_of_In in Hc, Hk.
      vm_compute in Hc.
      repeat (destruct Hc as [<-|Hc]); [..|destruct Hc]; auto;
        vm_compute in Hk; intuition discriminate. }
    + rewrite lookup_insert_ne in Hd1, Hd2 by done.
      unfold get in Hsym. rewrite Hd1 in Hsym. split; [congruence|done].
    + rewrite lookup_insert_eq in Hd1, Hd2. split; [congruence|].
      by injection Hd1 as <-.
Qed.

(** ACME's valuation sent twice on the same day to the indexed table. *)
Lemma acme_valuation_sent_again :
  let send := insert_valuation_measures "ACME" (PDict acme_valuation) in
  stored "valuation_measures" (w_db (send (send record_world).2).2)
  = stored "valuation_measures" (w_db (send record_world).2).
Proof.
  intros send.
  apply (valuation_is_first_write_wins "ACME" acme_valuation acme_valuation record_world
           (send record_world).2 (send record_world).2 (send (send record_world).2).2).
  - by vm_compute.
  - reflexivity.
  - reflexivity.
  - by vm_compute.
  - by vm_compute.
  - reflexivity.
Defined.

(** *** Extraction stays away from the server *)

Lemma same_server_refl w : same_server w w.
Proof. done. Qed.

Lemma same_server_trans a b c : same_server a b → same_server b c → same_server a c.
Proof. intros (?&?&?&?) (?&?&?&?). repeat split; congruence. Qed.

Lemma same_server_logged l text w : same_server w (logged l text w).
Proof. done. Qed.

Lemma same_server_invoked api what w : same_server w (noted (Invoked api what) w).
Proof.
  repeat split. unfold entered. simpl. by rewrite omap_app, app_nil_r.
Qed.

Lemma offline_ret {A} (Q : A → Prop) a : Q a → offline Q (ret a).
Proof. by intros Ha w r w' [= <- <-]. Qed.

Lemma offline_raise {A} (Q : A → Prop) e : offline Q (raise e).
Proof. by intros w r w' [= <- <-]. Qed.

Lemma offline_logger l text : offline (λ _, True) (logger l text).
Proof. intros w r w' [= <- <-]. split; [apply same_server_logged|done]. Qed.

Lemma offline_bind {A B} (Q1 : A → Prop) (Q2 : B → Prop) (m : Py A) (k : A → Py B) :
  offline Q1 m → (∀ a, Q1 a → offline Q2 (k a)) → offline Q2 (bind m k).
Proof.
  intros Hm Hk w r w'. unfold bind. destruct (m w) as [[a|e] w1] eqn:Hrun.
  - intros Hrun2. destruct (Hm _ _ _ Hrun) as [Hs1 Ha].
    destruct (Hk a Ha _ _ _ Hrun2) as [Hs2 Hr]. split; [|done].
    by eapply same_server_trans.
  - intros [= <- <-]. destruct (Hm _ _ _ Hrun) as [Hs1 _]. done.
Qed.

Lemma offline_seq {A B} (Q : B → Prop) (m : Py A) (k : Py B) :
  offline (λ _, True) m → offline Q k → offline Q (m ;;; k).
Proof. intros Hm Hk. eapply offline_bind; [done|]. by intros. Qed.

Lemma offline_try_except {A} (Q : A → Prop) (m : Py A) handler :
  offline Q m → (∀ e, offline Q (handler e)) → offline Q (try_except m handler).
Proof.
  intros Hm Hh w r w'. unfold try_except. destruct (m w) as [[a|e] w1] eqn:Hrun.
  - intros [= <- <-]. apply (Hm _ _ _ Hrun).
  - intros Hrun2. destruct (Hm _ _ _ Hrun) as [Hs1 _].
    destruct (Hh e _ _ _ Hrun2) as [Hs2 Hr]. split; [|done].
    by eapply same_server_trans.
Qed.

Lemma offline_ask {A} api what (r : fetched A) :
  offline (λ a, r = Returns a) (ask api what r).
Proof.
  intros w r0 w'. unfold ask, bind, note.
  destruct r as [why|a]; intros [= <- <-]; (split; [apply same_server_invoked|done]).
Qed.

Lemma offline_helper {A} (r : fetched A) : offline (λ a, r = Returns a) (helper r).
Proof. intros w r0 w'. unfold helper. by destruct r as [why|a]; intros [= <- <-]. Qed.

Lemma offline_truthy p : offline (λ _, True) (truthy p).
Proof. intros w r w'. unfold truthy. by destruct p; intros [= <- <-]. Qed.

Lemma offline_for_apis (Q : payload → Prop) body what ticker apis :
  (∀ api, offline (λ o, ∀ r, o = Some r → Q r) (body api)) →
  offline (λ o, ∀ r, o = Some r → Q r) (for_apis body what ticker apis).
Proof.
  intros Hbody. induction apis as [|api rest IH]; simpl.
  { apply offline_ret. by intros. }
  intros w r w'. destruct (body api w) as [[[x|]|e] w1] eqn:Hrun.
  - intros [= <- <-]. apply (Hbody _ _ _ _ Hrun).
  - intros Hrest. destruct (Hbody _ _ _ _ Hrun) as [Hs1 _].
    destruct (IH _ _ _ Hrest) as [Hs2 Hr]. split; [|done].
    by eapply same_server_trans.
  - intros Hrest. destruct (Hbody _ _ _ _ Hrun) as [Hs1 _].
    apply (offline_seq _ _ _ (offline_logger _ _) IH) in Hrest as [Hs2 Hr].
    split; [|done]. by eapply same_server_trans.
Qed.

Lemma offline_via_client (Q : payload → Prop) api method ticker c format :
  (∀ d t, offline Q (format d t)) →
  offline (λ o, ∀ r, o = Some r → Q r) (via_client api method ticker c format).
Proof.
  intros Hformat. unfold via_client.
  eapply offline_bind; [apply offline_ask|]. intros data _.
  eapply offline_bind; [apply offline_truthy|]. intros [] _.
  - eapply offline_bind; [apply Hformat|]. intros r Hr.
    apply offline_ret. by intros ? [= <-].
  - apply offline_ret. by intros.
Qed.

(** The tail of the methods that fall back: the first result, or
    [None] with or without an error record. *)
Lemma offline_result (Q : payload → Prop) (o : option payload) text :
  Q PNone → (∀ r, o = Some r → Q r) →
  offline Q (match o with
             | Some x => ret x
             | None => logger ERROR text ;;; ret PNone
             end).
Proof.
  intros Hnone Ho. destruct o as [x|]; [by apply offline_ret, Ho|].
  apply offline_seq; [apply offline_logger|by apply offline_ret].
Qed.

Lemma offline_default (Q : payload → Prop) (o : option payload) :
  Q PNone → (∀ r, o = Some r → Q r) → offline Q (ret (default PNone o)).
Proof. intros Hnone Ho. apply offline_ret. destruct o; [by apply Ho|done]. Qed.

Ltac some_dict := apply offline_ret; by intros ? [= <-].
Ltac no_result := apply offline_ret; by intros.

Lemma offline_client (Q : payload → Prop) (c : option client) api method ticker format :
  (∀ d t, offline Q (format d t)) →
  offline (λ o, ∀ r, o = Some r → Q r)
    (match c with
     | Some c => via_client api method ticker c format
     | None => ret None
     end).
Proof.
  intros Hformat. destruct c; [exact (offline_via_client Q _ _ _ _ _ Hformat)|no_result].
Qed.

Lemma offline_price E self ticker :
  offline record_or_none (extract_price_data E self ticker).
Proof.
  unfold extract_price_data.
  eapply (offline_bind (λ o, ∀ r, o = Some r → record_or_none r));
    [|intros o Ho; by apply offline_result].
  apply offline_for_apis. intros api.
  case_bool_decide.
  { eapply offline_bind; [apply offline_ask|]. intros info _.
    case_bool_decide; [some_dict|no_result]. }
  case_bool_decide; [|no_result].
  apply offline_client. intros d t. by apply offline_ret.
Qed.

Lemma offline_overview E self ticker :
  offline record_or_none (extract_org_overview E self ticker).
Proof.
  unfold extract_org_overview.
  eapply (offline_bind (λ o, ∀ r, o = Some r → record_or_none r));
    [|intros o Ho; by apply offline_result].
  apply offline_for_apis. intros api.
  case_bool_decide.
  { eapply offline_bind; [apply offline_ask|]. intros info _.
    case_bool_decide; [some_dict|no_result]. }
  case_bool_decide; [apply offline_client; intros d t; by apply offline_ret|].
  case_bool_decide; [apply offline_client; intros d t; by apply offline_ret|].
  no_result.
Qed.

Lemma offline_calendar (Q : payload → Prop) E self ticker :
  Q PNone → (∀ d, Q (PDict d)) →
  (∀ d t p, _format_alpha_vantage_calendar E d t = Returns p → Q p) →
  offline Q (extract_calendar_events E self ticker).
Proof.
  intros Hnone Hdict Hcal. unfold extract_calendar_events.
  eapply (offline_bind (λ o, ∀ r, o = Some r → Q r));
    [|intros o Ho; by apply offline_result].
  apply offline_for_apis. intros api.
  case_bool_decide.
  { eapply offline_bind; [apply offline_ask|]. intros [cal|] _; [|no_result].
    destruct (negb (empty cal)); [|no_result].
    apply offline_ret. intros ? [= <-]. apply Hdict. }
  case_bool_decide; [apply offline_client; intros d t; by apply offline_ret|].
  case_bool_decide; [|no_result].
  apply offline_client. intros d t.
  intros w r w' Hrun. destruct (offline_helper _ _ _ _ Hrun) as [Hs Hr].
  split; [done|]. destruct r as [p|]; [|done]. by eapply Hcal.
Qed.

Lemma offline_statement E data_type what attr quarterly_attr renaming ticker q :
  offline frame_or_none
    (extract_statement E data_type what attr quarterly_attr renaming ticker q).
Proof.
  unfold extract_statement.
  eapply (offline_bind (λ o, ∀ r, o = Some r → frame_or_none r));
    [|intros o Ho; by apply offline_default].
  apply offline_for_apis. intros api.
  case_bool_decide; [|no_result].
  eapply offline_bind; [apply offline_ask|]. intros [bs|] _; [|no_result].
  destruct (negb (empty bs)); [|no_result].
  destruct (T_reset_index bs); [some_dict|apply offline_raise].
Qed.

Lemma offline_valuation E ticker :
  offline record_or_none (extract_valuation_measures E ticker).
Proof.
  unfold extract_valuation_measures.
  eapply (offline_bind (λ o, ∀ r, o = Some r → record_or_none r));
    [|intros o Ho; by apply offline_default].
  apply offline_for_apis. intros api.
  case_bool_decide; [|no_result].
  eapply offline_bind; [apply offline_ask|]. intros info _.
  case_bool_decide; [some_dict|no_result].
Qed.

Lemma offline_holders E ticker :
  offline frame_or_none (extract_institution_ownership E ticker).
Proof.
  unfold extract_institution_ownership.
  eapply (offline_bind (λ o, ∀ r, o = Some r → frame_or_none r));
    [|intros o Ho; by apply offline_default].
  apply offline_for_apis. intros api.
  case_bool_decide; [|no_result].
  eapply offline_bind; [apply offline_ask|]. intros [holders|] _; [|no_result].
  destruct (negb (empty holders)); [some_dict|no_result].
Qed.

Lemma offline_insiders (Q : payload → Prop) E self ticker :
  Q PNone →
  (∀ d t p, _format_finnhub_insider E d t = Returns p → Q p) →
  offline Q (extract_executive_ownership E self ticker).
Proof.
  intros Hnone Hins. unfold extract_executive_ownership.
  eapply (offline_bind (λ o, ∀ r, o = Some r → Q r));
    [|intros o Ho; by apply offline_default].
  apply offline_for_apis. intros api.
  case_bool_decide; [|no_result].
  apply offline_client. intros d t.
  intros w r w' Hrun. destruct (offline_helper _ _ _ _ Hrun) as [Hs Hr].
  split; [done|]. destruct r as [p|]; [|done]. by eapply Hins.
Qed.

Lemma offline_price_on hist day column : offline (λ _, True) (price_on hist day column).
Proof.
  unfold price_on. destruct (list_find _ (records hist)) as [[? r]|]; [|by apply offline_ret].
  destruct (list_find _ (columns hist)) as [[j ?]|]; [by apply offline_ret|apply offline_raise].
Qed.

Lemma offline_announcement_rows E ticker dates :
  offline (λ _, True) (announcement_rows E ticker dates).
Proof.
  induction dates as [|date rest IH]; simpl; [by apply offline_ret|].
  eapply offline_bind; [apply offline_ask|]. intros hist _.
  destruct (empty hist); [done|].
  eapply offline_bind; [apply offline_price_on|]. intros b _.
  eapply offline_bind; [apply offline_price_on|]. intros a _.
  eapply offline_bind; [apply IH|]. intros more _.
  destruct b as [b|], a as [a|]; try by apply offline_ret.
  destruct (_ && _); by apply offline_ret.
Qed.

Lemma offline_announcements E ticker :
  offline frame_or_none (extract_announcement_price E ticker).
Proof.
  unfold extract_announcement_price. apply offline_try_except.
  - eapply offline_bind; [apply offline_ask|]. intros [dates|] _.
    + destruct (empty dates).
      { apply offline_seq; [apply offline_logger|by apply offline_ret]. }
      eapply offline_bind; [apply offline_announcement_rows|]. intros rows _.
      case_bool_decide; by apply offline_ret.
    + apply offline_seq; [apply offline_logger|by apply offline_ret].
  - intros e. apply offline_seq; [apply offline_logger|by apply offline_ret].
Qed.

Lemma offline_weaken {A} (Q : A → Prop) (m : Py A) :
  offline Q m → offline (λ _, True) m.
Proof.
  intros Hm w r w' Hrun. destruct (Hm _ _ _ Hrun) as [Hs _]. split; [done|].
  by destruct r.
Qed.

Lemma extract_kinds E self ticker q d m :
  typed_helpers E → extract E self d ticker q = Some m → offline (kind d) m.
Proof.
  intros [Hcal Hins]. unfold extract.
  repeat (case_bool_decide; [subst d; intros [= <-]|]); [..|done].
  - apply offline_price.
  - apply offline_overview.
  - by apply offline_calendar.
  - apply offline_statement.
  - apply offline_statement.
  - apply offline_statement.
  - apply offline_valuation.
  - apply offline_holders.
  - by apply offline_insiders.
  - apply offline_announcements.
Qed.

Lemma extract_offline E self ticker q d m :
  extract E self d ticker q = Some m → offline (λ _, True) m.
Proof.
  unfold extract.
  repeat (case_bool_decide; [subst d; intros [= <-]|]); [..|done].
  - eapply offline_weaken, offline_price.
  - eapply offline_weaken, offline_overview.
  - by apply offline_calendar.
  - eapply offline_weaken, offline_statement.
  - eapply offline_weaken, offline_statement.
  - eapply offline_weaken, offline_statement.
  - eapply offline_weaken, offline_valuation.
  - eapply offline_weaken, offline_holders.
  - by apply offline_insiders.
  - eapply offline_weaken, offline_announcements.
Qed.

Lemma offline_extract_each (K : string → payload → Prop) E self ticker q types :
  (∀ d m, extract E self d ticker q = Some m → offline (K d) m) →
  (∀ d, d ∈ types → is_Some (extract E self d ticker q)) →
  ∀ results,
    (∀ k r, results !! k = Some r → K k r) →
    offline (λ results', dom results' = dom results ∪ list_to_set types ∧
                         ∀ k r, results' !! k = Some r → K k r)
      (extract_each E self ticker q types results).
Proof.
  intros HK. induction types as [|d rest IH]; intros Hdef results Hres; simpl.
  { apply offline_ret. split; [|done]. by rewrite union_empty_r_L. }
  apply offline_seq; [apply offline_logger|].
  destruct (Hdef d ltac:(by left)) as [m Hm]. rewrite Hm.
  eapply offline_bind; [by eapply HK|]. intros r Hr.
  intros w r0 w' Hrun.
  destruct (IH ltac:(intros; apply Hdef; by right) (<[d := r]> results)) with w r0 w'
    as [Hs Hr0]; [|done|].
  { intros k x. destruct (decide (k = d)) as [->|Hne].
    - rewrite lookup_insert_eq. by intros [= <-].
    - rewrite lookup_insert_ne by done. apply Hres. }
  split; [done|]. destruct r0 as [results'|]; [|done].
  destruct Hr0 as [Hdom Hkinds]. split; [|done].
  rewrite Hdom, dom_insert_L. simpl.
  by rewrite (union_comm_L {[d]} (dom results)), <- (assoc_L (∪)).
Qed.

(** [extract_all_data] returns a dict with exactly the ten data types
    as keys ([exec_payment_packages], for which there is a priority list
    and a table, is not among them) and leaves the server alone: the
    database, the coming connection attempts and the clock are what they
    were. *)
Theorem extraction_has_ten_keys E self ticker quarterly w :
  ∃ results w',
    extract_all_data E self ticker quarterly w = (Value results, w') ∧
    dom results = list_to_set data_types ∧
    "exec_payment_packages" ∈ dom api_priority ∧
    "exec_payment_packages" ∈ table_names ∧
    ("exec_payment_packages" ∉ dom results) ∧
    same_server w w'.
Proof.
  unfold extract_all_data.
  destruct (extract_each_spec E self ticker quarterly data_types ∅ w)
    as (results & w' & Hrun & _).
  { intros. by apply extract_defined. }
  exists results, w'. split; [done|].
  destruct (offline_extract_each (λ _ _, True) E self ticker quarterly data_types
              (extract_offline E self ticker quarterly)
              ltac:(intros; by apply extract_defined) ∅ ltac:(done) _ _ _ Hrun)
    as [Hs [Hdom _]].
  rewrite dom_empty_L, union_empty_l_L in Hdom.
  split; [done|]. split; [by vm_compute|]. split; [member|]. split; [|done].
  rewrite Hdom. intros Hin. apply elem_of_list_to_set in Hin.
  apply list_elem_of_In in Hin. vm_compute in Hin. intuition discriminate.
Qed.

(** Extraction and insertion compose: with formatters that keep to the
    signatures of their callers, on a server that answers every
    connection attempt, what [extract_all_data] returns is, per data type,
    a dict or nothing, a frame or nothing, as [insert_all_data] expects
    it, and [insert_all_data] given that result enters its eleven insert
    methods and returns. *)
Theorem extraction_feeds_insertion E self ticker quarterly w :
  typed_helpers E → steady w →
  ∃ results w1 w2,
    extract_all_data E self ticker quarterly w = (Value results, w1) ∧
    well_typed results ∧
    insert_all_data E ticker results w1 = (Value tt, w2) ∧
    entered w2 = entered w ++ insert_methods.
Proof.
  intros HE Hw. unfold extract_all_data.
  destruct (extract_each_spec E self ticker quarterly data_types ∅ w)
    as (results & w1 & Hrun & _).
  { intros. by apply extract_defined. }
  destruct (offline_extract_each kind E self ticker quarterly data_types
              ltac:(intros; by eapply extract_kinds)
              ltac:(intros; by apply extract_defined) ∅
              ltac:(intros k r Hk; by rewrite lookup_empty in Hk) _ _ _ Hrun)
    as [(Hdb & Hconn & _ & Hent) [_ Hkinds]].
  assert (Htyped : well_typed results).
  { split; intros k Hk; unfold lookup_data;
      (destruct (results !! k) as [r|] eqn:Hr; [|done]);
      apply Hkinds in Hr; unfold kind in Hr.
    - by rewrite bool_decide_true in Hr.
    - rewrite bool_decide_false in Hr; [done|].
      apply list_elem_of_In in Hk. vm_compute in Hk. intros Hin.
      apply list_elem_of_In in Hin. vm_compute in Hin.
      repeat (destruct Hk as [<-|Hk]); [..|destruct Hk]; intuition discriminate. }
  assert (Hw1 : steady w1) by (unfold steady; by rewrite Hconn).
  destruct (runs_insert_all_data E ticker results Htyped w1 Hw1)
    as ([] & w2 & Hrun2 & _ & He).
  exists results, w1, w2. split; [done|]. split; [done|]. split; [done|].
  by rewrite He, Hent.
Qed.

(** On ACME's market, where the two formatters raise as Python does for
    a method that is not defined. *)
Lemma acme_is_extracted_and_inserted :
  ∃ results w1 w2,
    extract_all_data acme_market no_clients "ACME" false declared_world
    = (Value results, w1) ∧
    well_typed results ∧
    insert_all_data acme_market "ACME" results w1 = (Value tt, w2) ∧
    entered w2 = insert_methods.
Proof.
  apply (extraction_feeds_insertion acme_market no_clients "ACME" false declared_world).
  - by split.
  - by apply Forall_nil.
Defined.

(** *** The connection pool *)

Lemma sound_started server : sound (started server).
Proof. split; [intros c Hc; by apply elem_of_nil in Hc|done]. Qed.

Lemma connect_cases s :
  (Connection.connect s
   = (Connection.Raised Connection.OperationalError,
      Connection.mkProcess (Connection._connection_pool s) (tail (Connection.server s))
        (Connection.opened s) (Connection.closed_connections s) (Connection.log s))
   ∧ head (Connection.server s) = Some false) ∨
  (Connection.connect s
   = (Connection.Returned (Connection.opened s),
      Connection.mkProcess (Connection._connection_pool s) (tail (Connection.server s))
        (S (Connection.opened s)) (Connection.closed_connections s) (Connection.log s))
   ∧ head (Connection.server s) ≠ Some false).
Proof.
  unfold Connection.connect. destruct (Connection.server s) as [|[] ?]; simpl; auto.
Qed.

Lemma fresh_key p s :
  pool_sound p s →
  list_find (λ kc : nat * nat, kc.1 = S (Connection._keys p)) (Connection._used p) = None.
Proof.
  intros (_ & _ & _ & _ & _ & _ & _ & Hkeys & _). apply list_find_None.
  apply Forall_forall. intros kc Hkc Heq.
  specialize (Hkeys kc.1 ltac:(by apply list_elem_of_fmap_2)). lia.
Qed.

(** [getconn] on a sound pool. *)
Lemma getconn_sound p s :
  (∀ c, c ∈ Connection.closed_connections s → (c < Connection.opened s)%nat) →
  pool_sound p s →
  ∃ r p' s', Connection.getconn p s = (r, p', s') ∧
    (∀ c, c ∈ Connection.closed_connections s' → (c < Connection.opened s')%nat) ∧
    pool_sound p' s' ∧
    Connection._connection_pool s' = Connection._connection_pool s ∧
    Connection.closed_connections s' = Connection.closed_connections s ∧
    match r with
    | Connection.Returned c =>
        Connection.log s' = Connection.log s ∧
        Connection._pool p' = [] ∧ out p' = c :: out p ∧
        (c ∉ out p) ∧ (c ∉ Connection.closed_connections s') ∧
        (Connection._pool p = [c] ∧ Connection.opened s' = Connection.opened s ∧
         Connection.server s' = Connection.server s
         ∨ Connection._pool p = [] ∧ c = Connection.opened s ∧
           Connection.opened s' = S (Connection.opened s) ∧
           (length (out p) < 5)%nat ∧ head (Connection.server s) ≠ Some false)
    | Connection.Raised e =>
        Connection.log s' = Connection.log s ∧
        Connection._pool p' = Connection._pool p ∧ out p' = out p ∧
        Connection._pool p = [] ∧ Connection.opened s' = Connection.opened s ∧
        (e = Connection.PoolError "connection pool exhausted" ∧ length (out p) = 5%nat ∧
         Connection.server s' = Connection.server s
         ∨ e = Connection.OperationalError ∧ (length (out p) < 5)%nat ∧
           head (Connection.server s) = Some false)
    end.
Proof.
  intros Hclosed Hp. pose proof (fresh_key p s Hp) as Hfresh.
  destruct Hp as (Hmin & Hmax & Hopen & Hnd & Hkd & Hlt & Hidle & Hkeys & Hone & Hfive).
  unfold Connection.getconn. rewrite Hopen. cbn [Connection._used Connection._pool
    Connection.minconn Connection.maxconn Connection.closed Connection._keys].
  rewrite Hfresh.
  assert (Hkeys' : ∀ k, k ∈ (Connection._used p).*1 → (k ≤ S (Connection._keys p))%nat)
    by (intros k Hk; specialize (Hkeys k Hk); lia).
  assert (Hnew : S (Connection._keys p) ∉ (Connection._used p).*1)
    by (intros Hk; specialize (Hkeys _ Hk); lia).
  destruct (Connection._pool p) as [|x [|y rest]] eqn:Hpool; [| |simpl in Hone; lia].
  - (* no idle connection *)
    unfold held, out in *. rewrite Hpool in *. simpl in Hnd, Hlt, Hfive. simpl.
    case_bool_decide as Hfull.
    + eexists _, _, _. split; [done|]. split; [done|]. split.
      { unfold pool_sound, held, out. simpl; rewrite ?Hpool; simpl.
        repeat split; try done. }
      split; [done|]. split; [done|]. repeat split; try done.
      left. split; [done|]. split; [|done]. by rewrite length_fmap, Hfull.
    + assert (Hroom : (length (Connection._used p) < 5)%nat).
      { rewrite length_fmap in Hfive. lia. }
      destruct (connect_cases s) as [[-> Hrefused]|[-> Hanswers]].
      * eexists _, _, _. split; [done|]. split; [done|]. split.
        { unfold pool_sound, held, out. simpl; rewrite ?Hpool; simpl.
          repeat split; try done. }
        split; [done|]. split; [done|]. repeat split; try done.
        right. by rewrite length_fmap.
      * assert (Hout : Connection.opened s ∉ (Connection._used p).*2).
        { intros Hin. specialize (Hlt _ Hin). lia. }
        eexists _, _, _. split; [done|]. split.
        { simpl. intros c Hc. specialize (Hclosed c Hc). lia. }
        split.
        { unfold pool_sound, held, out. simpl.
          split_and!; try done.
          - by apply NoDup_cons.
          - by apply NoDup_cons.
          - intros c [->|Hc]%elem_of_cons; [lia|]. specialize (Hlt c Hc). lia.
          - intros k [->|Hk]%elem_of_cons; [done|by apply Hkeys'].
          - rewrite length_fmap. lia. }
        split; [done|]. split; [done|]. simpl. repeat split; try done.
        { intros Hc. specialize (Hclosed _ Hc). lia. }
        right. rewrite length_fmap. by repeat split.
  - (* one idle connection *)
    unfold held, out in *. rewrite Hpool in *. simpl in Hnd, Hlt, Hfive, Hidle. simpl.
    apply NoDup_cons in Hnd as [Hx Hnd].
    eexists _, _, _. split; [done|]. split; [done|]. split.
    { unfold pool_sound, held, out. simpl.
      split_and!; try done.
      - by apply NoDup_cons.
      - by apply NoDup_cons.
      - intros c Hc. by apply elem_of_nil in Hc.
      - intros k [->|Hk]%elem_of_cons; [done|by apply Hkeys'].
      - lia. }
    split; [done|]. split; [done|]. simpl. repeat split; try done.
    { apply Hidle. by left. }
    left. by repeat split.
Qed.

Lemma filter_all {A} (P : A → Prop) `{∀ x, Decision (P x)} (l : list A) :
  (∀ x, x ∈ l → P x) → filter P l = l.
Proof.
  induction l as [|a l IH]; intros Hall; [done|].
  rewrite filter_cons_True by (apply Hall; by left).
  f_equal. apply IH. intros x Hx. apply Hall. by right.
Qed.

Lemma filter_both {A B} (f : A → B) (P : A → Prop) (Q : B → Prop)
    `{∀ x, Decision (P x)} `{∀ y, Decision (Q y)} (l : list A) :
  (∀ x, x ∈ l → P x ↔ Q (f x)) → f <$> filter P l = filter Q (f <$> l).
Proof.
  induction l as [|a l IH]; intros Hall; [done|].
  rewrite fmap_cons.
  assert (IH' : f <$> filter P l = filter Q (f <$> l))
    by (apply IH; intros x Hx; apply Hall; by right).
  destruct (decide (P a)) as [Ha|Ha].
  - rewrite filter_cons_True by done.
    rewrite (filter_cons_True Q) by (apply Hall; [by left|done]).
    by rewrite fmap_cons, IH'.
  - rewrite filter_cons_False by done.
    rewrite (filter_cons_False Q); [done|].
    intros Hq. apply Ha, Hall; [by left|done].
Qed.

Lemma NoDup_fmap_inj {A B} (f : A → B) (l : list A) x y :
  NoDup (f <$> l) → x ∈ l → y ∈ l → f x = f y → x = y.
Proof.
  induction l as [|a l IH]; intros Hnd Hx Hy Hxy; [by apply elem_of_nil in Hx|].
  rewrite fmap_cons in Hnd. apply NoDup_cons in Hnd as [Ha Hnd].
  apply elem_of_cons in Hx as [->|Hx]; apply elem_of_cons in Hy as [->|Hy].
  - done.
  - exfalso. apply Ha. rewrite Hxy. by apply list_elem_of_fmap_2.
  - exfalso. apply Ha. rewrite <- Hxy. by apply list_elem_of_fmap_2.
  - by apply IH.
Qed.

(** [putconn] on a sound pool. *)
Lemma putconn_sound p s c :
  (∀ c, c ∈ Connection.closed_connections s → (c < Connection.opened s)%nat) →
  pool_sound p s →
  ∃ r p' s', Connection.putconn p c s = (r, p', s') ∧
    (∀ c, c ∈ Connection.closed_connections s' → (c < Connection.opened s')%nat) ∧
    pool_sound p' s' ∧
    Connection._connection_pool s' = Connection._connection_pool s ∧
    Connection.opened s' = Connection.opened s ∧
    Connection.server s' = Connection.server s ∧
    Connection.log s' = Connection.log s ∧
    (c ∈ out p ∧ r = Connection.Returned tt ∧
     out p' = filter (λ d, d ≠ c) (out p) ∧
     (Connection._pool p = [] ∧ (c ∉ Connection.closed_connections s) ∧
      Connection._pool p' = [c] ∧
      Connection.closed_connections s' = Connection.closed_connections s
      ∨ Connection._pool p = [] ∧ c ∈ Connection.closed_connections s ∧
        Connection._pool p' = [] ∧
        Connection.closed_connections s' = Connection.closed_connections s
      ∨ Connection._pool p ≠ [] ∧ Connection._pool p' = Connection._pool p ∧
        Connection.closed_connections s' = Connection.closed_connections s ++ [c])
     ∨ (c ∉ out p) ∧
       r = Connection.Raised (Connection.PoolError "trying to put unkeyed connection") ∧
       p' = p ∧ s' = s).
Proof.
  intros Hclosed Hp.
  pose proof Hp as (Hmin & Hmax & Hopen & Hnd & Hkd & Hlt & Hidle & Hkeys & Hone & Hfive).
  unfold Connection.putconn. rewrite Hopen, Hmin.
  destruct (list_find _ (Connection._used p)) as [[i kc]|] eqn:Hfind.
  - apply list_find_Some in Hfind as (Hi & Hkc & _).
    apply list_elem_of_lookup_2 in Hi.
    assert (Hc : c ∈ out p) by (rewrite <- Hkc; by apply list_elem_of_fmap_2).
    unfold held in Hnd, Hlt, Hfive. apply NoDup_app in Hnd as (Hnd1 & Hnd2 & Hnd3).
    set (used := filter (λ kc' : nat * nat, kc'.1 ≠ kc.1) (Connection._used p)).
    assert (Hsub : used `sublist_of` Connection._used p) by apply sublist_filter.
    assert (Hsub1 : used.*1 `sublist_of` (Connection._used p).*1) by by apply fmap_sublist.
    assert (Hsub2 : used.*2 `sublist_of` out p) by by apply fmap_sublist.
    assert (Hout : used.*2 = filter (λ d, d ≠ c) (out p)).
    { apply filter_both. intros x Hx. rewrite <- Hkc. split.
      - intros Hk Hv. apply Hk. f_equal. by apply (NoDup_fmap_inj snd (Connection._used p)).
      - intros Hv Hk. apply Hv. f_equal. by apply (NoDup_fmap_inj fst (Connection._used p)). }
    assert (Hless : (length used < length (Connection._used p))%nat).
    { apply (length_filter_lt _ _ kc); [done|]. intros Hk. by apply Hk. }
    assert (Hgone : c ∉ used.*2).
    { rewrite Hout. intros [Hne _]%list_elem_of_filter. by apply Hne. }
    assert (Hkeys' : ∀ k, k ∈ used.*1 → (k ≤ Connection._keys p)%nat)
      by (intros k Hk; apply Hkeys; by eapply elem_of_sublist).
    assert (Hlt' : ∀ d, d ∈ used.*2 → (d < Connection.opened s)%nat).
    { intros d Hd. apply Hlt, elem_of_app. right. by eapply elem_of_sublist. }
    destruct (Connection._pool p) as [|x [|y rest]] eqn:Hpool; [| |simpl in Hone; lia].
    + rewrite bool_decide_true by (simpl; lia). case_bool_decide as Hdead.
      * eexists _, _, _. split; [done|]. split; [done|]. split.
        { unfold pool_sound, held, out. simpl. split_and!; try done.
          - apply (sublist_NoDup _ _ Hnd3 Hsub2).
          - apply (sublist_NoDup _ _ Hkd Hsub1).
          - unfold out in Hfive. simpl in Hfive. rewrite ?length_fmap in Hfive |- *. lia. }
        split_and!; try done. left. split_and!; try done. right. left. by split_and!.
      * eexists _, _, _. split; [done|]. split; [done|]. split.
        { unfold pool_sound, held, out. simpl. split_and!; try done.
          - apply NoDup_cons. split; [done|]. apply (sublist_NoDup _ _ Hnd3 Hsub2).
          - apply (sublist_NoDup _ _ Hkd Hsub1).
          - intros d [->|Hd]%elem_of_cons; [|by apply Hlt'].
            apply Hlt, elem_of_app. by right.
          - intros d ->%list_elem_of_singleton. done.
          - unfold out in Hfive. simpl in Hfive. rewrite ?length_fmap in Hfive |- *. lia. }
        split_and!; try done. left. split_and!; try done. left. by split_and!.
    + rewrite bool_decide_false by (simpl; lia).
      assert (Hxc : x ≠ c).
      { intros ->. apply (Hnd2 c); [by left|done]. }
      eexists _, _, _. split; [done|]. split.
      { simpl. intros d [Hd| ->%list_elem_of_singleton]%elem_of_app; [by apply Hclosed|].
        apply Hlt, elem_of_app. by right. }
      split.
      { unfold pool_sound, held, out. simpl. split_and!; try done.
        - apply NoDup_cons. split; [|apply (sublist_NoDup _ _ Hnd3 Hsub2)].
          intros Hx. apply (Hnd2 x); [by left|]. apply (elem_of_sublist _ _ _ Hx Hsub2).
        - apply (sublist_NoDup _ _ Hkd Hsub1).
        - intros d [->|Hd]%elem_of_cons; [|by apply Hlt'].
          apply Hlt. by left.
        - intros d ->%list_elem_of_singleton [Hd| ->%list_elem_of_singleton]%elem_of_app;
            [|done]. apply (Hidle x); [by left|done].
        - unfold out in Hfive. simpl in Hfive. rewrite ?length_fmap in Hfive |- *. lia. }
      split_and!; try done. left. split_and!; try done. right. right. by split_and!.
  - apply list_find_None in Hfind.
    eexists _, _, _. split; [done|]. split_and!; try done. right. split_and!; try done.
    intros (kc & -> & Hkc)%list_elem_of_fmap. rewrite Forall_forall in Hfind.
    by apply (Hfind kc).
Qed.

Lemma pool_sound_ext p s1 s2 :
  Connection.opened s1 = Connection.opened s2 →
  Connection.closed_connections s1 = Connection.closed_connections s2 →
  pool_sound p s1 → pool_sound p s2.
Proof. unfold pool_sound. by intros -> ->. Qed.

Lemma sound_set_pool p s :
  (∀ c, c ∈ Connection.closed_connections s → (c < Connection.opened s)%nat) →
  pool_sound p s → sound (Connection.set_pool (Some p) s).
Proof.
  intros Hclosed Hp. split; [done|]. intros ? [= <-].
  by apply (pool_sound_ext p s).
Qed.

Lemma sound_logging l text s : sound s → sound (Connection.logging l text s).
Proof. by intros [? ?]. Qed.

Lemma last_logging l text s :
  last_record (Connection.logging l text s) = Some (mkLog l text).
Proof. unfold last_record. simpl. apply last_snoc. Qed.

(** The first pool of a process. *)
Lemma first_pool_sound s :
  (∀ c, c ∈ Connection.closed_connections s → (c < Connection.opened s)%nat) →
  pool_sound (Connection.mkPool 1 5 false [Connection.opened s] [] 0)
    (Connection.mkProcess None (tail (Connection.server s)) (S (Connection.opened s))
       (Connection.closed_connections s) (Connection.log s)).
Proof.
  intros Hclosed. unfold pool_sound, held, out. simpl. split_and!; try done.
  - apply NoDup_singleton.
  - apply NoDup_nil_2.
  - intros c ->%list_elem_of_singleton. lia.
  - intros c ->%list_elem_of_singleton Hc. specialize (Hclosed _ Hc). lia.
  - intros k Hk. by apply elem_of_nil in Hk.
  - lia.
Qed.

Lemma get_db_connection_spec s :
  sound s →
  ∃ r s', Connection.get_db_connection s = (Connection.Returned r, s') ∧ sound s' ∧
    Connection.closed_connections s' = Connection.closed_connections s ∧
    match r with
    | Some c =>
        lent s' = c :: lent s ∧ (c ∉ lent s) ∧
        (c ∉ Connection.closed_connections s) ∧ spare s' = [] ∧
        (spare s = [c] ∧ Connection.opened s' = Connection.opened s ∧
         Connection.server s' = Connection.server s ∧
         Connection.log s' = Connection.log s
         ∨ spare s = [] ∧ c = Connection.opened s ∧
           Connection.opened s' = S (Connection.opened s) ∧
           (length (lent s) < 5)%nat ∧ head (Connection.server s) ≠ Some false)
    | None =>
        lent s' = lent s ∧ spare s' = spare s ∧ spare s = [] ∧
        Connection.opened s' = Connection.opened s ∧
        ∃ e, last_record s'
             = Some (mkLog ERROR ("Error getting connection from pool: "
                                  ++ Connection.str e)) ∧
          (e = Connection.PoolError "connection pool exhausted" ∧
           length (lent s) = 5%nat ∧ Connection.server s' = Connection.server s
           ∨ e = Connection.OperationalError ∧ (length (lent s) < 5)%nat ∧
             head (Connection.server s) = Some false)
    end.
Proof.
  intros [Hclosed Hpool]. unfold lent, spare.
  destruct (Connection._connection_pool s) as [p|] eqn:Hp.
  - specialize (Hpool p eq_refl).
    destruct (getconn_sound p s Hclosed Hpool)
      as (r & p' & s' & Hget & Hclosed' & Hp' & Hsame & Hcl & Hr).
    unfold Connection.get_db_connection, Connection.get_connection_pool.
    rewrite Hp, Hget. destruct r as [c|e].
    + destruct Hr as (Hlog & Hidle & Hout & Hnew & Hopen & Hfrom).
      eexists (Some c), _. split; [done|]. split; [by apply sound_set_pool|].
      split; [done|]. simpl. rewrite <- Hcl. split_and!; try done.
      destruct Hfrom as [(? & ? & ?)|(? & ? & ? & ? & ?)]; [left|right]; by split_and!.
    + destruct Hr as (Hlog & Hidle & Hout & Hnone & Hopened & Hwhy).
      eexists None, _. split; [done|].
      split; [by apply sound_logging, sound_set_pool|].
      split; [done|]. simpl. split_and!; try done.
      exists e. split; [apply last_logging|].
      destruct Hwhy as [(? & ? & ?)|(? & ? & ?)]; [left|right]; by split_and!.
  - unfold Connection.get_db_connection, Connection.get_connection_pool.
    rewrite Hp. unfold Connection.ThreadedConnectionPool. simpl.
    destruct (connect_cases s) as [[-> Hrefused]|[-> Hanswers]]; simpl.
    + eexists None, _. split; [done|]. split.
      { split; [done|]. simpl. by rewrite Hp. }
      split; [done|]. simpl. rewrite Hp. split_and!; try done.
      exists Connection.OperationalError. split; [apply last_logging|].
      right. split_and!; [done|simpl; lia|done].
    + pose proof (first_pool_sound s Hclosed) as Hfirst.
      destruct Hfirst as (_ & _ & _ & _ & _ & Hlt & Hidle & _).
      eexists (Some (Connection.opened s)), _. split; [done|]. split.
      { split; [simpl; intros c Hc; specialize (Hclosed c Hc); lia|].
        intros ? [= <-]. unfold pool_sound, held, out. simpl. split_and!; try done.
        - apply NoDup_singleton.
        - apply NoDup_singleton.
        - intros c Hc. by apply elem_of_nil in Hc.
        - intros k ->%list_elem_of_singleton. done.
        - lia.
        - lia. }
      split; [done|]. simpl. split_and!; try done.
      * intros Hc. by apply elem_of_nil in Hc.
      * intros Hc. specialize (Hclosed _ Hc). lia.
      * right. split_and!; try done. simpl. lia.
Qed.

Lemma return_db_connection_spec s c :
  sound s →
  ∃ s', Connection.return_db_connection (Some c) s = (Connection.Returned tt, s') ∧
    sound s' ∧
    (c ∈ lent s ∧ lent s' = filter (λ d, d ≠ c) (lent s) ∧
     Connection.log s' = Connection.log s ∧
     Connection.opened s' = Connection.opened s ∧
     Connection.server s' = Connection.server s ∧
     (spare s = [] ∧ (c ∉ Connection.closed_connections s) ∧ spare s' = [c] ∧
      Connection.closed_connections s' = Connection.closed_connections s
      ∨ spare s = [] ∧ c ∈ Connection.closed_connections s ∧ spare s' = [] ∧
        Connection.closed_connections s' = Connection.closed_connections s
      ∨ spare s ≠ [] ∧ spare s' = spare s ∧
        Connection.closed_connections s' = Connection.closed_connections s ++ [c])
     ∨ (c ∉ lent s) ∧ lent s' = lent s ∧
       Connection.closed_connections s' = Connection.closed_connections s ∧
       ∃ e, last_record s'
            = Some (mkLog ERROR ("Error returning connection to pool: "
                                 ++ Connection.str e)) ∧
         (Connection._connection_pool s ≠ None ∧
          e = Connection.PoolError "trying to put unkeyed connection" ∧
          s' = Connection.logging ERROR
                 "Error returning connection to pool: trying to put unkeyed connection" s
          ∨ Connection._connection_pool s = None ∧
            head (Connection.server s) ≠ Some false ∧
            e = Connection.PoolError "trying to put unkeyed connection" ∧
            spare s' = [Connection.opened s] ∧
            Connection.opened s' = S (Connection.opened s)
          ∨ Connection._connection_pool s = None ∧
            head (Connection.server s) = Some false ∧
            e = Connection.OperationalError ∧
            Connection._connection_pool s' = None ∧
            Connection.opened s' = Connection.opened s)).
Proof.
  intros [Hclosed Hpool]. unfold lent, spare.
  destruct (Connection._connection_pool s) as [p|] eqn:Hp.
  - specialize (Hpool p eq_refl).
    destruct (putconn_sound p s c Hclosed Hpool)
      as (r & p' & s' & Hput & Hclosed' & Hp' & Hsame & Hopened & Hserver & Hlog & Hr).
    unfold Connection.return_db_connection, Connection.get_connection_pool.
    rewrite Hp, Hput.
    destruct Hr as [(Hc & -> & Hout & Hcases)|(Hc & -> & -> & ->)].
    + eexists. split; [done|]. split; [by apply sound_set_pool|].
      left. simpl. split_and!; try done.
    + eexists. split; [done|].
      split; [by apply sound_logging, sound_set_pool|].
      right. simpl. split_and!; try done.
      exists (Connection.PoolError "trying to put unkeyed connection").
      split; [apply last_logging|]. left. split_and!; try done.
      simpl. unfold Connection.logging, Connection.set_pool. simpl. by rewrite Hp.
  - unfold Connection.return_db_connection, Connection.get_connection_pool.
    rewrite Hp. unfold Connection.ThreadedConnectionPool. simpl.
    destruct (connect_cases s) as [[-> Hrefused]|[-> Hanswers]]; simpl.
    + eexists. split; [done|]. split.
      { split; [done|]. simpl. by rewrite Hp. }
      right. simpl. rewrite Hp. split_and!; try done.
      { intros Hc. by apply elem_of_nil in Hc. }
      exists Connection.OperationalError. split; [apply last_logging|].
      right. right. by split_and!.
    + eexists. split; [done|]. split.
      { apply sound_logging. split; [simpl; intros d Hd; specialize (Hclosed d Hd); lia|].
        intros ? [= <-]. by apply (first_pool_sound s). }
      right. simpl. split_and!; try done.
      { intros Hc. by apply elem_of_nil in Hc. }
      exists (Connection.PoolError "trying to put unkeyed connection").
      split; [apply last_logging|]. right. left. by split_and!.
Qed.

Lemma closed_by_foldl l s :
  let s' := foldl (λ s conn, Connection.close conn s) s l in
  Connection.closed_connections s' = Connection.closed_connections s ++ l ∧
  Connection._connection_pool s' = Connection._connection_pool s ∧
  Connection.server s' = Connection.server s ∧
  Connection.opened s' = Connection.opened s ∧
  Connection.log s' = Connection.log s.
Proof.
  revert s. induction l as [|c l IH]; intros s; simpl.
  - by rewrite app_nil_r.
  - destruct (IH (Connection.close c s)) as (-> & -> & -> & -> & ->). simpl.
    by rewrite <- app_assoc.
Qed.

Lemma close_connection_pool_spec s :
  sound s →
  ∃ s', Connection.close_connection_pool s = (Connection.Returned tt, s') ∧ sound s' ∧
    Connection._connection_pool s' = None ∧
    Connection.closed_connections s'
    = Connection.closed_connections s ++ spare s ++ reverse (lent s) ∧
    Connection.opened s' = Connection.opened s ∧
    Connection.server s' = Connection.server s ∧
    (Connection._connection_pool s = None → s' = s) ∧
    (Connection._connection_pool s ≠ None →
     Connection.log s' = Connection.log s ++ [mkLog INFO "Connection pool closed"]).
Proof.
  intros Hs. pose proof Hs as [Hclosed Hpool].
  unfold lent, spare, Connection.close_connection_pool.
  destruct (Connection._connection_pool s) as [p|] eqn:Hp.
  - destruct (Hpool p eq_refl) as (_ & _ & Hopen & _ & _ & Hlt & _).
    unfold Connection.closeall. rewrite Hopen.
    pose proof (closed_by_foldl (Connection._pool p ++ (reverse (Connection._used p)).*2) s)
      as Hfold.
    cbv zeta in Hfold. set (s2 := foldl _ _ _) in *. clearbody s2.
    destruct Hfold as (Hcl & _ & Hserver & Hopened & Hlog).
    eexists. split; [done|]. simpl. rewrite Hcl, Hserver, Hopened, Hlog.
    unfold out. rewrite fmap_reverse. split_and!; try done.
    split; [simpl|by intros ? [=]]. rewrite Hcl, Hopened, fmap_reverse.
    intros c [Hc|Hc]%elem_of_app; [by apply Hclosed|]. apply Hlt.
    unfold held, out. rewrite elem_of_app in Hc |- *.
    destruct Hc as [Hc|Hc]; [by left|right]. by rewrite elem_of_reverse in Hc.
  - eexists. split; [done|]. rewrite Hp. simpl. rewrite app_nil_r. by split_and!.
Qed.

Lemma get_db_connection_sound s : sound s → sound (Connection.get_db_connection s).2.
Proof.
  intros Hs. destruct (get_db_connection_spec s Hs) as (r & s' & -> & Hs' & _). done.
Qed.

Lemma sound_two_lent : sound two_lent.
Proof. apply get_db_connection_sound, get_db_connection_sound, sound_started. Qed.

(** Asking for a connection never raises and leaves the process sound.
    Nothing comes back exactly when five connections are out, or when
    none is idle and the server refuses a new one; the refusal is logged
    as an error and changes neither the connections out nor the idle
    ones.  A connection that comes back was not out before and is not
    closed, it is now the newest of the connections out, of which there
    are at most five, and it was opened by this call only when none was
    idle. *)
Theorem a_connection_goes_to_one_caller s :
  sound s →
  ∃ r s', Connection.get_db_connection s = (Connection.Returned r, s') ∧ sound s' ∧
    (r = None ↔
     length (lent s) = 5%nat ∨ spare s = [] ∧ head (Connection.server s) = Some false) ∧
    match r with
    | Some c =>
        lent s' = c :: lent s ∧ (c ∉ lent s) ∧
        (c ∉ Connection.closed_connections s') ∧ (length (lent s') ≤ 5)%nat ∧
        (spare s = [c] ∧ Connection.opened s' = Connection.opened s
         ∨ spare s = [] ∧ c = Connection.opened s ∧
           Connection.opened s' = S (Connection.opened s))
    | None =>
        lent s' = lent s ∧ spare s' = spare s ∧
        Connection.opened s' = Connection.opened s ∧
        ∃ e, last_record s'
             = Some (mkLog ERROR ("Error getting connection from pool: "
                                  ++ Connection.str e))
    end.
Proof.
  intros Hs. destruct (get_db_connection_spec s Hs) as (r & s' & Hget & Hs' & Hcl & Hr).
  exists r, s'. split; [done|]. split; [done|]. destruct r as [c|].
  - destruct Hr as (Hlent & Hnew & Hopen & Hspare & Hfrom). split.
    + split; [done|]. intros Hnone. exfalso.
      destruct Hfrom as [(Hidle & _)|(Hidle & _ & _ & Hroom & Hanswers)].
      * destruct Hnone as [Hfull|[Hempty _]]; [|by rewrite Hidle in Hempty].
        destruct Hs as [_ Hpool]. unfold lent, spare in *.
        destruct (Connection._connection_pool s) as [p|]; [|done].
        destruct (Hpool p eq_refl) as (_ & _ & _ & _ & _ & _ & _ & _ & _ & Hfive).
        unfold held in Hfive. rewrite Hidle, length_app, Hfull in Hfive.
        simpl in Hfive. lia.
      * destruct Hnone as [Hfull|[_ Hrefused]]; [lia|done].
    + rewrite Hcl. split_and!; try done.
      * destruct Hs' as [_ Hpool]. unfold lent in *.
        destruct (Connection._connection_pool s') as [p'|]; [|simpl; lia].
        destruct (Hpool p' eq_refl) as (_ & _ & _ & _ & _ & _ & _ & _ & _ & Hfive).
        unfold held in Hfive. rewrite length_app in Hfive. lia.
      * destruct Hfrom as [(? & ? & _)|(? & ? & ? & _)]; [by left|by right].
  - destruct Hr as (Hlent & Hspare & Hempty & Hopened & e & Hlast & Hwhy). split.
    + split; [|done]. intros _.
      destruct Hwhy as [(_ & ? & _)|(_ & _ & ?)]; [by left|by right].
    + split_and!; try done. by exists e.
Qed.

(** The third caller of [two_lent]. *)
Lemma third_caller_of_two_lent :
  ∃ r s', Connection.get_db_connection two_lent = (Connection.Returned r, s') ∧
    sound s' ∧
    (r = None ↔
     length (lent two_lent) = 5%nat
     ∨ spare two_lent = [] ∧ head (Connection.server two_lent) = Some false) ∧
    match r with
    | Some c =>
        lent s' = c :: lent two_lent ∧ (c ∉ lent two_lent) ∧
        (c ∉ Connection.closed_connections s') ∧ (length (lent s') ≤ 5)%nat ∧
        (spare two_lent = [c] ∧ Connection.opened s' = Connection.opened two_lent
         ∨ spare two_lent = [] ∧ c = Connection.opened two_lent ∧
           Connection.opened s' = S (Connection.opened two_lent))
    | None =>
        lent s' = lent two_lent ∧ spare s' = spare two_lent ∧
        Connection.opened s' = Connection.opened two_lent ∧
        ∃ e, last_record s'
             = Some (mkLog ERROR ("Error getting connection from pool: "
                                  ++ Connection.str e))
    end.
Proof. exact (a_connection_goes_to_one_caller two_lent sound_two_lent). Defined.

(** A connection that was handed out and is given back right away is kept
    idle, and the next caller gets that same connection: no connection
    is opened or closed on the way, and the connections out are again
    what they were after the first call. *)
Theorem a_returned_connection_is_lent_again s c s1 :
  sound s →
  Connection.get_db_connection s = (Connection.Returned (Some c), s1) →
  let back := Connection.return_db_connection (Some c) s1 in
  back.1 = Connection.Returned tt ∧ spare back.2 = [c] ∧ lent back.2 = lent s ∧
  Connection.closed_connections back.2 = Connection.closed_connections s ∧
  ∃ s3, Connection.get_db_connection back.2 = (Connection.Returned (Some c), s3) ∧
    lent s3 = lent s1 ∧ Connection.opened s3 = Connection.opened s1 ∧
    Connection.server s3 = Connection.server s1.
Proof.
  intros Hs Hget.
  destruct (get_db_connection_spec s Hs) as (r & s1' & Hget' & Hs1 & Hcl1 & Hr).
  rewrite Hget in Hget'. injection Hget' as <- <-.
  destruct Hr as (Hlent1 & Hnew & Hopen & Hspare1 & _).
  destruct (return_db_connection_spec s1 c Hs1) as (s2 & Hback & Hs2 & Hcases).
  rewrite Hback. simpl.
  destruct Hcases as [(_ & Hlent2 & _ & Hopened2 & Hserver2 & Hkept)|(Hout & _)];
    [|exfalso; apply Hout; rewrite Hlent1; by left].
  destruct Hkept as [(_ & _ & Hspare2 & Hcl2)|[(_ & Hdead & _)|(Hsome & _)]];
    [|exfalso; apply Hopen; by rewrite <- Hcl1|by rewrite Hspare1 in Hsome].
  assert (Hlent : lent s2 = lent s).
  { rewrite Hlent2, Hlent1. rewrite filter_cons_False by (intros Hne; by apply Hne).
    apply filter_all. intros d Hd ->. by apply Hnew. }
  split_and!; try done; [by rewrite Hcl2|].
  destruct (get_db_connection_spec s2 Hs2) as (r3 & s3 & Hget3 & Hs3 & Hcl3 & Hr3).
  destruct r3 as [c3|].
  - destruct Hr3 as (Hlent3 & _ & _ & _ & Hfrom).
    destruct Hfrom as [(Hidle & Hopened3 & Hserver3 & _)|(Hidle & _)];
      [|by rewrite Hspare2 in Hidle].
    rewrite Hspare2 in Hidle. injection Hidle as <-.
    exists s3. split; [done|]. rewrite Hlent3, Hlent, Hlent1, Hopened3, Hserver3.
    by split_and!.
  - destruct Hr3 as (_ & _ & Hidle & _). by rewrite Hspare2 in Hidle.
Qed.

(** The first connection of a process, given back and asked for again. *)
Lemma first_connection_goes_round :
  let s1 := (Connection.get_db_connection (started [])).2 in
  let back := Connection.return_db_connection (Some 0%nat) s1 in
  back.1 = Connection.Returned tt ∧ spare back.2 = [0%nat] ∧
  lent back.2 = lent (started []) ∧
  Connection.closed_connections back.2 = Connection.closed_connections (started []) ∧
  ∃ s3, Connection.get_db_connection back.2 = (Connection.Returned (Some 0%nat), s3) ∧
    lent s3 = lent s1 ∧ Connection.opened s3 = Connection.opened s1 ∧
    Connection.server s3 = Connection.server s1.
Proof.
  exact (a_returned_connection_is_lent_again (started []) 0%nat
           (Connection.get_db_connection (started [])).2 (sound_started []) eq_refl).
Defined.

(** Giving back a connection that is out never raises and takes it off
    the connections out.  The pool keeps one idle connection: when none
    is idle the connection becomes the idle one (it is dropped when it is
    already closed), and when one is idle the connection is closed.
    Nothing is logged and no connection is opened. *)
Theorem the_pool_keeps_one_connection_idle s c :
  sound s → c ∈ lent s →
  ∃ s', Connection.return_db_connection (Some c) s = (Connection.Returned tt, s') ∧
    sound s' ∧ lent s' = filter (λ d, d ≠ c) (lent s) ∧ (c ∉ lent s') ∧
    Connection.log s' = Connection.log s ∧
    Connection.opened s' = Connection.opened s ∧
    (spare s = [] → (c ∉ Connection.closed_connections s) →
     spare s' = [c] ∧
     Connection.closed_connections s' = Connection.closed_connections s) ∧
    (spare s = [] → c ∈ Connection.closed_connections s →
     spare s' = [] ∧
     Connection.closed_connections s' = Connection.closed_connections s) ∧
    (spare s ≠ [] →
     spare s' = spare s ∧
     Connection.closed_connections s' = Connection.closed_connections s ++ [c]).
Proof.
  intros Hs Hc.
  destruct (return_db_connection_spec s c Hs) as (s' & Hback & Hs' & Hcases).
  exists s'. split; [done|]. split; [done|].
  destruct Hcases as [(_ & Hlent & Hlog & Hopened & _ & Hkept)|(Hout & _)]; [|done].
  split_and!; try done.
  - rewrite Hlent. intros [Hne _]%list_elem_of_filter. by apply Hne.
  - intros Hnone Hopen.
    destruct Hkept as [(_ & _ & ? & ?)|[(_ & ? & _)|(? & _)]]; done.
  - intros Hnone Hdead.
    destruct Hkept as [(_ & ? & _)|[(_ & _ & ? & ?)|(? & _)]]; done.
  - intros Hsome.
    destruct Hkept as [(? & _)|[(? & _)|(_ & ? & ?)]]; done.
Qed.

(** The first caller of [two_lent] gives the connection back. *)
Lemma two_lent_takes_one_back :
  ∃ s', Connection.return_db_connection (Some 0%nat) two_lent
        = (Connection.Returned tt, s') ∧
    sound s' ∧ lent s' = filter (λ d, d ≠ 0%nat) (lent two_lent) ∧
    (0%nat ∉ lent s') ∧
    Connection.log s' = Connection.log two_lent ∧
    Connection.opened s' = Connection.opened two_lent ∧
    (spare two_lent = [] → (0%nat ∉ Connection.closed_connections two_lent) →
     spare s' = [0%nat] ∧
     Connection.closed_connections s' = Connection.closed_connections two_lent) ∧
    (spare two_lent = [] → 0%nat ∈ Connection.closed_connections two_lent →
     spare s' = [] ∧
     Connection.closed_connections s' = Connection.closed_connections two_lent) ∧
    (spare two_lent ≠ [] →
     spare s' = spare two_lent ∧
     Connection.closed_connections s'
     = Connection.closed_connections two_lent ++ [0%nat]).
Proof.
  apply (the_pool_keeps_one_connection_idle two_lent 0%nat sound_two_lent).
  change (0%nat ∈ [1%nat; 0%nat]). apply elem_of_cons. right. apply elem_of_cons. by left.
Defined.

(** Giving back a connection that is not out (one given back before, one
    of a pool that has been closed, one from elsewhere) never raises and
    is refused with an error in the log: the connections out stay as they
    are and nothing is closed.  With a pool in place that record is all
    that changes; without one the call first makes a new pool, which
    opens a connection when the server answers. *)
Theorem an_unknown_connection_is_refused s c :
  sound s → c ∉ lent s →
  ∃ s' e, Connection.return_db_connection (Some c) s = (Connection.Returned tt, s') ∧
    sound s' ∧ lent s' = lent s ∧
    Connection.closed_connections s' = Connection.closed_connections s ∧
    last_record s'
    = Some (mkLog ERROR ("Error returning connection to pool: " ++ Connection.str e)) ∧
    (Connection._connection_pool s ≠ None →
     s' = Connection.logging ERROR
            "Error returning connection to pool: trying to put unkeyed connection" s) ∧
    (Connection._connection_pool s = None →
     if bool_decide (head (Connection.server s) = Some false)
     then Connection._connection_pool s' = None ∧
          Connection.opened s' = Connection.opened s ∧
          e = Connection.OperationalError
     else spare s' = [Connection.opened s] ∧
          Connection.opened s' = S (Connection.opened s) ∧
          e = Connection.PoolError "trying to put unkeyed connection").
Proof.
  intros Hs Hc.
  destruct (return_db_connection_spec s c Hs) as (s' & Hback & Hs' & Hcases).
  destruct Hcases as [(Hin & _)|(_ & Hlent & Hcl & e & Hlast & Hwhy)]; [done|].
  exists s', e. split_and!; try done.
  - intros Hsome. destruct Hwhy as [(_ & _ & ?)|[(? & _)|(? & _)]]; done.
  - intros Hnone. case_bool_decide as Hrefused.
    + destruct Hwhy as [(? & _)|[(_ & ? & _)|(_ & _ & ? & ? & ?)]]; done.
    + destruct Hwhy as [(? & _)|[(_ & _ & ? & ? & ?)|(_ & ? & _)]]; done.
Qed.

(** [two_lent] is given a connection that it never handed out. *)
Lemma two_lent_refuses_a_stranger :
  ∃ s' e, Connection.return_db_connection (Some 7%nat) two_lent
          = (Connection.Returned tt, s') ∧
    sound s' ∧ lent s' = lent two_lent ∧
    Connection.closed_connections s' = Connection.closed_connections two_lent ∧
    last_record s'
    = Some (mkLog ERROR ("Error returning connection to pool: " ++ Connection.str e)) ∧
    (Connection._connection_pool two_lent ≠ None →
     s' = Connection.logging ERROR
            "Error returning connection to pool: trying to put unkeyed connection"
            two_lent) ∧
    (Connection._connection_pool two_lent = None →
     if bool_decide (head (Connection.server two_lent) = Some false)
     then Connection._connection_pool s' = None ∧
          Connection.opened s' = Connection.opened two_lent ∧
          e = Connection.OperationalError
     else spare s' = [Connection.opened two_lent] ∧
          Connection.opened s' = S (Connection.opened two_lent) ∧
          e = Connection.PoolError "trying to put unkeyed connection").
Proof.
  apply (an_unknown_connection_is_refused two_lent 7%nat sound_two_lent).
  change (7%nat ∉ [1%nat; 0%nat]).
  intros [Hc|[Hc|Hc%elem_of_nil]%elem_of_cons]%elem_of_cons; [discriminate..|done].
Defined.

(** Closing the pool never raises in a sound process.  It closes the
    idle connection and then the connections out, oldest first, forgets
    the pool and, when there was one, logs it; no connection is opened.
    The process stays sound, and the next connection asked for, if the
    server answers, is a new one and not one of the closed. *)
Theorem closing_the_pool_closes_every_connection s :
  sound s →
  ∃ s', Connection.close_connection_pool s = (Connection.Returned tt, s') ∧ sound s' ∧
    Connection._connection_pool s' = None ∧
    Connection.closed_connections s'
    = Connection.closed_connections s ++ spare s ++ reverse (lent s) ∧
    Connection.opened s' = Connection.opened s ∧
    (Connection._connection_pool s = None → s' = s) ∧
    (Connection._connection_pool s ≠ None →
     Connection.log s' = Connection.log s ++ [mkLog INFO "Connection pool closed"]) ∧
    (head (Connection.server s) ≠ Some false →
     ∃ s2, Connection.get_db_connection s'
           = (Connection.Returned (Some (Connection.opened s)), s2) ∧
       (Connection.opened s ∉ Connection.closed_connections s2) ∧
       lent s2 = [Connection.opened s]).
Proof.
  intros Hs.
  destruct (close_connection_pool_spec s Hs)
    as (s' & Hclose & Hs' & Hnone & Hcl & Hopened & Hserver & Hsame & Hlog).
  exists s'. split_and!; try done.
  intros Hanswers.
  destruct (get_db_connection_spec s' Hs') as (r & s2 & Hget & Hs2 & Hcl2 & Hr).
  assert (Hlent : lent s' = []) by (unfold lent; by rewrite Hnone).
  assert (Hspare : spare s' = []) by (unfold spare; by rewrite Hnone).
  destruct r as [c|].
  - destruct Hr as (Hlent2 & _ & Hopen & _ & Hfrom).
    destruct Hfrom as [(Hidle & _)|(_ & -> & _)]; [by rewrite Hspare in Hidle|].
    exists s2. rewrite <- Hopened, Hcl2, Hlent2, Hlent. by split_and!.
  - destruct Hr as (_ & _ & _ & _ & e & _ & Hwhy). exfalso.
    destruct Hwhy as [(_ & Hfull & _)|(_ & _ & Hrefused)].
    + by rewrite Hlent in Hfull.
    + by rewrite Hserver in Hrefused.
Qed.

(** [two_lent] closes its pool. *)
Lemma two_lent_is_closed :
  ∃ s', Connection.close_connection_pool two_lent = (Connection.Returned tt, s') ∧
    sound s' ∧
    Connection._connection_pool s' = None ∧
    Connection.closed_connections s'
    = Connection.closed_connections two_lent ++ spare two_lent ++ reverse (lent two_lent) ∧
    Connection.opened s' = Connection.opened two_lent ∧
    (Connection._connection_pool two_lent = None → s' = two_lent) ∧
    (Connection._connection_pool two_lent ≠ None →
     Connection.log s'
     = Connection.log two_lent ++ [mkLog INFO "Connection pool closed"]) ∧
    (head (Connection.server two_lent) ≠ Some false →
     ∃ s2, Connection.get_db_connection s'
           = (Connection.Returned (Some (Connection.opened two_lent)), s2) ∧
       (Connection.opened two_lent ∉ Connection.closed_connections s2) ∧
       lent s2 = [Connection.opened two_lent]).
Proof. exact (closing_the_pool_closes_every_connection two_lent sound_two_lent). Defined.
